(** * Conway's Game of Chess: the board, the life cycle of the pieces and
      the turn engine of [conway_chess.py], embedded in Rocq.

    Python objects are mutable and shared: a piece is referenced from its
    square of the board, from [Engine.selected_piece] and from the move log
    at the same time.  The embedding therefore keeps an explicit object
    store: a [Ref] is the address of a [Piece] in the store, and every
    method that mutates [self] rewrites the store at that address.
    Exceptions are the second effect of the code ([King.perish] raises to
    end the game, list indexing raises [IndexError]); operations run in a
    small state-and-exception monad. *)

From Stdlib Require Import ZArith String Ascii List Bool Lia DecimalString.
From stdpp Require Import base option list.

Local Open Scope string_scope.
Local Open Scope list_scope.
Local Open Scope Z_scope.

(** ** Python lists *)

(** [l[i]] accepts [-len(l) <= i < len(l)]; a negative index counts from
    the end, anything else raises [IndexError]. *)
Definition py_norm (n : nat) (i : Z) : option nat :=
  if (0 <=? i) && (i <? Z.of_nat n) then Some (Z.to_nat i)
  else if (- Z.of_nat n <=? i) && (i <? 0) then Some (Z.to_nat (Z.of_nat n + i))
  else None.

Definition py_getitem {A} (l : list A) (i : Z) : option A :=
  match py_norm (length l) i with
  | Some n => l !! n
  | None => None
  end.

Definition py_setitem {A} (l : list A) (i : Z) (x : A) : option (list A) :=
  match py_norm (length l) i with
  | Some n => Some (<[n := x]> l)
  | None => None
  end.

(** [range(8)] and [reversed(range(8))]. *)
Definition range (n : nat) : list Z := map Z.of_nat (seq 0 n).
Definition reversed {A} (l : list A) : list A := rev l.

(** ** Exceptions and the monad *)

Inductive exn :=
| Exception (msg : string)     (* raise Exception(msg) *)
| IndexError (msg : string)
| ValueError (msg : string)
| Unallocated.                 (* a [Ref] outside the store: no Python
                                  counterpart, never caught *)

(** [str(e)] as used by [except Exception as e: ... str(e)]. *)
Definition str_exn (e : exn) : option string :=
  match e with
  | Exception m | IndexError m | ValueError m => Some m
  | Unallocated => None
  end.

Inductive outcome (S A : Type) :=
| Return (s : S) (a : A)
| Raise (s : S) (e : exn).
Arguments Return {S A} s a.
Arguments Raise {S A} s e.

Definition M (S A : Type) := S -> outcome S A.

Definition ret {S A} (a : A) : M S A := fun s => Return s a.
Definition bind {S A B} (m : M S A) (k : A -> M S B) : M S B :=
  fun s => match m s with
           | Return s' a => k a s'
           | Raise s' e => Raise s' e
           end.
Definition raise {S A} (e : exn) : M S A := fun s => Raise s e.
Definition get {S} : M S S := fun s => Return s s.
Definition put {S} (s : S) : M S unit := fun _ => Return s tt.

Declare Scope py_scope.
Delimit Scope py_scope with py.
Notation "'do' x <- m ; k" := (bind m (fun x => k))
  (at level 10, x name, m at level 100, k at level 200) : py_scope.
Notation "m >> k" := (bind m (fun _ => k))
  (at level 100, k at level 200, right associativity) : py_scope.
Local Open Scope py_scope.

(** [for x in l: body(x)] *)
Fixpoint for_ {S A} (l : list A) (body : A -> M S unit) : M S unit :=
  match l with
  | [] => ret tt
  | x :: l' => body x >> for_ l' body
  end.

(** [[f(x) for x in l]] with an effectful [f]. *)
Fixpoint map_m {S A B} (f : A -> M S B) (l : list A) : M S (list B) :=
  match l with
  | [] => ret []
  | x :: l' => do y <- f x; do ys <- map_m f l'; ret (y :: ys)
  end.

(** ** Pieces *)

(** The strings ["white"], ["black"] and ["empty"]. *)
Inductive Side := White | Black | NoSide.

#[global] Instance Side_eq_dec : EqDecision Side.
Proof. solve_decision. Defined.

Definition side_eqb (a b : Side) : bool :=
  match a, b with
  | White, White | Black, Black | NoSide, NoSide => true
  | _, _ => false
  end.

(** The subclasses of [Piece]. *)
Inductive Kind := EmptySq | Pawn | Knight | Bishop | Rook | Queen | King.

#[global] Instance Kind_eq_dec : EqDecision Kind.
Proof. solve_decision. Defined.

Definition kind_eqb (a b : Kind) : bool :=
  match a, b with
  | EmptySq, EmptySq | Pawn, Pawn | Knight, Knight | Bishop, Bishop
  | Rook, Rook | Queen, Queen | King, King => true
  | _, _ => false
  end.

Record Piece := mkPiece {
  kind : Kind;
  side : Side;
  row : Z;
  col : Z;
  death_counter : Z;
  birth_counter_white : Z;
  birth_counter_black : Z;
  surrounding_white : Z;
  surrounding_black : Z
}.

(** [Piece.__init__(side)] for the subclass [k]. *)
Definition new_piece (k : Kind) (s : Side) : Piece :=
  mkPiece k s (-1) (-1) 0 0 0 0 0.

(** [Empty()] *)
Definition Empty : Piece := new_piece EmptySq NoSide.

(** [Piece.set_position] *)
Definition set_position (self : Piece) (r c : Z) : Piece :=
  mkPiece (kind self) (side self) r c (death_counter self)
          (birth_counter_white self) (birth_counter_black self)
          (surrounding_white self) (surrounding_black self).

(** [__str__] of each subclass. *)
Definition str_piece (self : Piece) : string :=
  let w := side_eqb (side self) White in
  match kind self with
  | EmptySq => " "
  | Pawn => if w then "P" else "p"
  | Knight => if w then "N" else "n"
  | Bishop => if w then "B" else "b"
  | Rook => if w then "R" else "r"
  | Queen => if w then "Q" else "q"
  | King => if w then "K" else "k"
  end.

(** [Piece.move_is_valid], overridden by [Empty]. *)
Definition piece_move_is_valid (self dest_piece : Piece) : bool :=
  match kind self with
  | EmptySq => false
  | _ => if side_eqb (side dest_piece) (side self) then false
         else if side_eqb (side dest_piece) NoSide then true
         else true
  end.

(** The number of pieces of side [s] in a list: the counting loops of
    [tick]. *)
Fixpoint count_side (s : Side) (l : list Piece) : Z :=
  match l with
  | [] => 0
  | p :: l' => (if side_eqb (side p) s then 1 else 0) + count_side s l'
  end.

(** [Piece.tick].  The two counting loops run over the same list; the
    first fills [surrounding_white] and [surrounding_black], the second
    counts the neighbours of the piece's own side. *)
Definition tick (self : Piece) (surrounding_pieces : list Piece)
    (current_turn : Side) (update_counters : bool) : Piece :=
  let sw := count_side White surrounding_pieces in
  let sb := count_side Black surrounding_pieces in
  let self1 := mkPiece (kind self) (side self) (row self) (col self)
                 (death_counter self) (birth_counter_white self)
                 (birth_counter_black self) sw sb in
  if negb update_counters then self1
  else if side_eqb (side self) NoSide then
    let bw := if side_eqb current_turn White then
                if sw =? 3 then birth_counter_white self + 1 else 0
              else birth_counter_white self in
    let bb := if side_eqb current_turn Black then
                if sb =? 3 then birth_counter_black self + 1 else 0
              else birth_counter_black self in
    mkPiece (kind self) (side self) (row self) (col self)
            (death_counter self) bw bb sw sb
  else if side_eqb current_turn (side self) then
    let same_pieces := count_side (side self) surrounding_pieces in
    let dc := if (same_pieces <? 2) || (same_pieces >? 3)
              then death_counter self + 1 else 0 in
    mkPiece (kind self) (side self) (row self) (col self)
            dc (birth_counter_white self) (birth_counter_black self) sw sb
  else self1.

(** The birth counter of an empty square for one colour. *)
Definition birth_counter (c : Side) (p : Piece) : Z :=
  match c with
  | White => birth_counter_white p
  | Black => birth_counter_black p
  | NoSide => 0
  end.

(** [King.perish] raises, [Piece.perish] passes. *)
Definition perish_message (self : Piece) (conway : bool) : string :=
  let winning_side := if side_eqb (side self) Black then "white" else "black" in
  let losing_side := if side_eqb (side self) Black then "Black" else "White" in
  if conway
  then (losing_side ++ " king perished, " ++ winning_side ++ " wins!")%string
  else (losing_side ++ " king was captured, " ++ winning_side ++ " wins!")%string.

Definition perish {S} (self : Piece) (conway : bool) : M S unit :=
  match kind self with
  | King => raise (Exception (perish_message self conway))
  | _ => ret tt
  end.

(** ** The board *)

Abbreviation Ref := nat.

(** [store] holds every [Piece] object created so far, [board] is
    [self.board]: eight rows of eight references. *)
Record Board := mkBoard {
  store : list Piece;
  board : list (list Ref)
}.

(** Reading an object, rewriting it in place, creating one. *)
Definition deref (r : Ref) : M Board Piece :=
  fun b => match store b !! r with
           | Some p => Return b p
           | None => Raise b Unallocated
           end.

Definition assign (r : Ref) (p : Piece) : M Board unit :=
  fun b => Return (mkBoard (<[r := p]> (store b)) (board b)) tt.

Definition alloc (p : Piece) : M Board Ref :=
  fun b => Return (mkBoard (store b ++ [p]) (board b)) (length (store b)).

(** [Board.get_piece]: [self.board[row][col]] *)
Definition get_piece (row col : Z) : M Board Ref :=
  fun b => match py_getitem (board b) row with
           | None => Raise b (IndexError "list index out of range")
           | Some r =>
               match py_getitem r col with
               | None => Raise b (IndexError "list index out of range")
               | Some x => Return b x
               end
           end.

(** [self.board[row][col] = x] *)
Definition set_square (row col : Z) (x : Ref) : M Board unit :=
  fun b => match py_getitem (board b) row with
           | None => Raise b (IndexError "list index out of range")
           | Some r =>
               match py_setitem r col x, py_norm (length (board b)) row with
               | Some r', Some n =>
                   Return (mkBoard (store b) (<[n := r']> (board b))) tt
               | _, _ => Raise b (IndexError "list assignment index out of range")
               end
           end.

(** [self.board[row][col].set_position(row, col)] *)
Definition set_position_at (row col : Z) : M Board unit :=
  do x <- get_piece row col;
  do p <- deref x;
  assign x (set_position p row col).

(** [Board.get_pieces] *)
Definition get_pieces : M Board (list Ref) :=
  fun b => Return b (concat (board b)).

(** [Board.get_surrounding_pieces] *)
Definition offsets : list (Z * Z) :=
  flat_map (fun i => map (fun j => (i, j)) [-1; 0; 1]) [-1; 0; 1].

Definition get_surrounding_pieces (piece : Ref) : M Board (list Ref) :=
  do p <- deref piece;
  do found <- map_m (fun '(i, j) =>
      if (i =? 0) && (j =? 0) then ret []
      else if (0 <=? row p + i) && (row p + i <? 8)
              && (0 <=? col p + j) && (col p + j <? 8)
      then do x <- get_piece (row p + i) (col p + j); ret [x]
      else ret []) offsets;
  ret (concat found).

(** The letters of the birth queues, as [set_new_piece] reads them. *)
Definition kind_of_letter (piece : string) : option Kind :=
  if String.eqb piece "P" then Some Pawn
  else if String.eqb piece "R" then Some Rook
  else if String.eqb piece "N" then Some Knight
  else if String.eqb piece "B" then Some Bishop
  else if String.eqb piece "Q" then Some Queen
  else if String.eqb piece "K" then Some King
  else None.

(** [Board.set_new_piece] *)
Definition set_new_piece (row col : Z) (piece : string) (side : Side) : M Board unit :=
  match kind_of_letter piece with
  | Some k =>
      do x <- alloc (new_piece k side);
      set_square row col x >>
      set_position_at row col
  | None => raise (ValueError "invalid piece")
  end.

(** [Board.kill_piece] *)
Definition kill_piece (piece : Ref) (turn : Side) : M Board unit :=
  do p <- deref piece;
  if side_eqb (side p) turn then
    let row := row p in
    let col := col p in
    do x <- get_piece row col;
    do occupant <- deref x;
    perish occupant true >>
    do e <- alloc Empty;
    set_square row col e >>
    set_position_at row col
  else ret tt.

(** [Board.move_piece] *)
Definition move_piece (source dest : Ref) : M Board bool :=
  do s <- deref source;
  do d <- deref dest;
  if negb (piece_move_is_valid s d) then ret false
  else
    do x <- get_piece (row d) (col d);
    do occupant <- deref x;
    perish occupant false >>
    set_square (row d) (col d) source >>
    do e <- alloc Empty;
    set_square (row s) (col s) e >>
    set_position_at (row s) (col s) >>
    do d' <- deref dest;
    do s' <- deref source;
    assign source (set_position s' (row d') (col d')) >>
    ret true.

(** [piece.tick(self.board.get_surrounding_pieces(piece), current_turn,
    update_counters)] on the object [piece]. *)
Definition tick_piece (current_turn : Side) (update_counters : bool) (piece : Ref)
  : M Board unit :=
  do around <- get_surrounding_pieces piece;
  do p <- deref piece;
  do surrounding_pieces <- map_m deref around;
  assign piece (tick p surrounding_pieces current_turn update_counters).

(** [for piece in self.board.get_pieces(): piece.tick(...)] *)
Definition tick_all (current_turn : Side) (update_counters : bool) : M Board unit :=
  do pieces <- get_pieces;
  for_ pieces (tick_piece current_turn update_counters).

(** [Board.__init__]: 64 empty squares, then the four home rows, then
    the positions. *)
Definition new_row (l : list (Kind * Side)) : M Board (list Ref) :=
  map_m (fun '(k, s) => alloc (new_piece k s)) l.

Definition set_row (n : nat) (r : list Ref) : M Board unit :=
  fun b => Return (mkBoard (store b) (<[n := r]> (board b))) tt.

Definition back_rank (s : Side) : list (Kind * Side) :=
  map (fun k => (k, s)) [Rook; Knight; Bishop; Queen; King; Bishop; Knight; Rook].

Definition Board_init : M Board unit :=
  do rows <- map_m (fun _ => new_row (repeat (EmptySq, NoSide) 8)) (range 8);
  (fun b => Return (mkBoard (store b) rows) tt) >>
  do r0 <- new_row (back_rank White); set_row 0 r0 >>
  do r1 <- new_row (repeat (Pawn, White) 8); set_row 1 r1 >>
  do r6 <- new_row (repeat (Pawn, Black) 8); set_row 6 r6 >>
  do r7 <- new_row (back_rank Black); set_row 7 r7 >>
  for_ (range 8) (fun i => for_ (range 8) (fun j => set_position_at i j)).

Definition new_Board : outcome Board unit := Board_init (mkBoard [] []).

(** ** The engine *)

(** The key names [main_loop] passes to [update_state]. *)
Inductive Key := KeyEnter | KeyStockfish | KeyUp | KeyDown | KeyLeft | KeyRight | KeyOther.

(** The optional move adviser.  What it answers in the course of one
    call of [update_state] is part of the input: [None] stands for a call
    that raised, [get_best_move] may also return Python's [None]. *)
Record Stockfish := mkStockfish {
  get_best_move : option (option string);
  is_move_correct : option bool
}.

Record Engine := mkEngine {
  engine_board : Board;
  cursor_row : Z;
  cursor_col : Z;
  white_birth_queue : list string;
  black_birth_queue : list string;
  selected_piece : option Ref;
  current_turn : Side;
  recent_moves : list (Ref * Ref);
  recent_moves_str : list string;
  game_over_message : option string
}.

Definition col_labels : list string := ["a"; "b"; "c"; "d"; "e"; "f"; "g"; "h"].

Definition seed_queue : list string :=
  ["P"; "R"; "P"; "N"; "P"; "B"; "P"; "Q"; "P"; "B"; "P"; "N"; "P"; "R"].

(** Field updates. *)
Definition with_board (e : Engine) (b : Board) : Engine :=
  mkEngine b (cursor_row e) (cursor_col e) (white_birth_queue e)
    (black_birth_queue e) (selected_piece e) (current_turn e)
    (recent_moves e) (recent_moves_str e) (game_over_message e).
Definition with_cursor (e : Engine) (r c : Z) : Engine :=
  mkEngine (engine_board e) r c (white_birth_queue e)
    (black_birth_queue e) (selected_piece e) (current_turn e)
    (recent_moves e) (recent_moves_str e) (game_over_message e).
Definition with_queues (e : Engine) (w b : list string) : Engine :=
  mkEngine (engine_board e) (cursor_row e) (cursor_col e) w b
    (selected_piece e) (current_turn e)
    (recent_moves e) (recent_moves_str e) (game_over_message e).
Definition with_selected (e : Engine) (x : option Ref) : Engine :=
  mkEngine (engine_board e) (cursor_row e) (cursor_col e) (white_birth_queue e)
    (black_birth_queue e) x (current_turn e)
    (recent_moves e) (recent_moves_str e) (game_over_message e).
Definition with_turn (e : Engine) (t : Side) : Engine :=
  mkEngine (engine_board e) (cursor_row e) (cursor_col e) (white_birth_queue e)
    (black_birth_queue e) (selected_piece e) t
    (recent_moves e) (recent_moves_str e) (game_over_message e).
Definition with_moves (e : Engine) (m : list (Ref * Ref)) (ms : list string) : Engine :=
  mkEngine (engine_board e) (cursor_row e) (cursor_col e) (white_birth_queue e)
    (black_birth_queue e) (selected_piece e) (current_turn e)
    m ms (game_over_message e).
Definition with_message (e : Engine) (m : option string) : Engine :=
  mkEngine (engine_board e) (cursor_row e) (cursor_col e) (white_birth_queue e)
    (black_birth_queue e) (selected_piece e) (current_turn e)
    (recent_moves e) (recent_moves_str e) m.

Definition modify {S} (f : S -> S) : M S unit := fun s => Return (f s) tt.

(** A method of [self.board] called from the engine. *)
Definition on_board {A} (m : M Board A) : M Engine A :=
  fun e => match m (engine_board e) with
           | Return b a => Return (with_board e b) a
           | Raise b x => Raise (with_board e b) x
           end.

(** [try: m  except Exception as e: handler(str(e))] *)
Definition try_except {S A} (m : M S A) (handler : string -> M S A) : M S A :=
  fun s => match m s with
           | Return s' a => Return s' a
           | Raise s' x =>
               match str_exn x with
               | Some msg => handler msg s'
               | None => Raise s' x
               end
           end.

(** [str] of an [int]. *)
Definition str_int (z : Z) : string := NilZero.string_of_int (Z.to_int z).

(** [Engine.move_is_valid] *)
Definition move_is_valid (source dest : Ref) (stockfish : option Stockfish)
  : M Engine bool :=
  do s <- on_board (deref source);
  do d <- on_board (deref dest);
  let index_error := IndexError "list index out of range" in
  let source_row := row s + 1 in
  match py_getitem col_labels (col s) with
  | None => raise index_error
  | Some source_col =>
  let dest_row := row d + 1 in
  match py_getitem col_labels (col d) with
  | None => raise index_error
  | Some dest_col =>
  let move_str := (str_piece s ++ source_col ++ str_int source_row ++ "->"
                   ++ str_piece d ++ dest_col ++ str_int dest_row)%string in
  let accept : M Engine bool :=
    modify (fun e => with_moves e (recent_moves e ++ [(source, dest)])
                                  (recent_moves_str e ++ [move_str])) >>
    ret true in
  if piece_move_is_valid s d then
    match stockfish with
    | Some sf =>
        match is_move_correct sf with
        | Some true => accept
        | Some false => ret false
        | None => accept
        end
    | None => accept
    end
  else ret false
  end end.

(** [int(c)] and [ord(c)] for one character of the adviser's answer. *)
Definition ord (c : ascii) : Z := Z.of_N (N_of_ascii c).
Definition int_char (c : ascii) : option Z :=
  let n := ord c in
  if (48 <=? n) && (n <=? 57) then Some (n - 48) else None.

(** The [key == "stockfish"] branch: everything inside its [try], with
    the bare [except: pass].  Returns the new value of [key]. *)
Definition stockfish_branch (stockfish : option Stockfish) : M Engine Key :=
  match stockfish with
  | None => ret KeyStockfish
  | Some sf =>
      match get_best_move sf with
      | None | Some None => ret KeyStockfish
      | Some (Some move) =>
          match String.get 1 move, String.get 0 move with
          | Some m1, Some m0 =>
              match int_char m1 with
              | None => ret KeyStockfish
              | Some r =>
                  fun e =>
                  match on_board (get_piece (r - 1) (ord m0 - ord "a")) e with
                  | Raise _ _ => Return e KeyStockfish
                  | Return e1 x =>
                      let e2 := with_selected e1 (Some x) in
                      match String.get 3 move, String.get 2 move with
                      | Some m3, Some m2 =>
                          match int_char m3 with
                          | None => Return e2 KeyStockfish
                          | Some r' =>
                              Return (with_cursor e2 (r' - 1) (ord m2 - ord "a")) KeyEnter
                          end
                      | _, _ => Return e2 KeyStockfish
                      end
                  end
              end
          | _, _ => ret KeyStockfish
          end
      end
  end.

Definition queue_of (s : Side) (e : Engine) : list string :=
  match s with
  | White => white_birth_queue e
  | Black => black_birth_queue e
  | NoSide => []
  end.

Definition set_queue (s : Side) (q : list string) (e : Engine) : Engine :=
  match s with
  | White => with_queues e q (black_birth_queue e)
  | Black => with_queues e (white_birth_queue e) q
  | NoSide => e
  end.

(** The body of the two birth loops for the square [(i, j)]: the white
    loop reads [birth_counter_white] and [white_birth_queue], the black
    loop their black counterparts. *)
Definition birth (s : Side) (i j : Z) : M Engine unit :=
  do x <- on_board (get_piece i j);
  do piece <- on_board (deref x);
  if side_eqb (side piece) NoSide then
    if birth_counter s piece =? 3 then
      do e <- get;
      match queue_of s e with
      | [] => raise (IndexError "pop from empty list")
      | next_piece :: rest =>
          put (set_queue s rest e) >>
          on_board (set_new_piece i j next_piece s) >>
          modify (fun e => set_queue s (queue_of s e ++ [next_piece]) e)
      end
    else ret tt
  else ret tt.

(** "check if any pieces need to be born" *)
Definition birth_pass : M Engine unit :=
  do e <- get;
  match current_turn e with
  | White => for_ (range 8) (fun i => for_ (range 8) (fun j => birth White i j))
  | Black => for_ (reversed (range 8)) (fun i => for_ (range 8) (fun j => birth Black i j))
  | NoSide => ret tt
  end.

(** "check if any pieces need to die"; [false] is the [return False] of
    the handler. *)
Fixpoint death_loop (pieces : list Ref) : M Engine bool :=
  match pieces with
  | [] => ret true
  | piece :: rest =>
      do p <- on_board (deref piece);
      if death_counter p =? 4 then
        do e <- get;
        do alive <- try_except
          (on_board (kill_piece piece (current_turn e)) >> ret true)
          (fun msg => modify (fun e => with_message e (Some msg)) >> ret false);
        if (alive : bool) then death_loop rest else ret false
      else death_loop rest
  end.

Definition death_pass : M Engine bool :=
  do pieces <- on_board get_pieces;
  death_loop pieces.

Definition flip_turn (t : Side) : Side :=
  if side_eqb t White then Black else White.

(** [Engine.update_state] *)
Definition update_state (key : Key) (stockfish : option Stockfish) : M Engine bool :=
  do key <-
    match key with
    | KeyUp => modify (fun e => with_cursor e ((cursor_row e - 1) mod 8) (cursor_col e)) >> ret key
    | KeyDown => modify (fun e => with_cursor e ((cursor_row e + 1) mod 8) (cursor_col e)) >> ret key
    | KeyLeft => modify (fun e => with_cursor e (cursor_row e) ((cursor_col e - 1) mod 8)) >> ret key
    | KeyRight => modify (fun e => with_cursor e (cursor_row e) ((cursor_col e + 1) mod 8)) >> ret key
    | KeyStockfish => stockfish_branch stockfish
    | _ => ret key
    end;
  match key with
  | KeyEnter =>
      do e <- get;
      match selected_piece e with
      | None =>
          (* select a piece *)
          do x <- on_board (get_piece (cursor_row e) (cursor_col e));
          do p <- on_board (deref x);
          if side_eqb (side p) (current_turn e) then
            do y <- on_board (get_piece (cursor_row e) (cursor_col e));
            modify (fun e => with_selected e (Some y)) >> ret false
          else ret false
      | Some selected =>
          do dest <- on_board (get_piece (cursor_row e) (cursor_col e));
          do valid <- move_is_valid selected dest stockfish;
          if (valid : bool) then
            (* move the selected piece to the cursor *)
            do moved <- try_except
              (on_board (do dest <- get_piece (cursor_row e) (cursor_col e);
                         move_piece selected dest) >> ret true)
              (fun msg => modify (fun e => with_message e (Some msg)) >> ret false);
            if (moved : bool) then
              modify (fun e => with_selected e None) >>
              modify (fun e => with_turn e (flip_turn (current_turn e))) >>
              (* tick all the pieces at the start of the next turn *)
              do e <- get;
              on_board (tick_all (current_turn e) true) >>
              birth_pass >>
              do survived <- death_pass;
              if (survived : bool) then
                (* recalculate nearby pieces for indicators *)
                on_board (tick_all (current_turn e) false) >>
                ret true
              else ret false
            else ret false
          else ret false
      end
  | KeyOther => modify (fun e => with_selected e None) >> ret false
  | _ => ret false
  end.

(** [Engine.__init__] *)
Definition Engine_init : outcome Engine unit :=
  match (Board_init >> tick_all White true) (mkBoard [] []) with
  | Return b _ =>
      Return (mkEngine b 0 0 seed_queue seed_queue None White [] [] None) tt
  | Raise b x =>
      Raise (mkEngine b 0 0 seed_queue seed_queue None White [] [] None) x
  end.

(** ** Observations *)

(** The reference held by a square, and the object behind it. *)
Definition square (b : Board) (r c : Z) : option Ref :=
  match py_getitem (board b) r with
  | Some l => py_getitem l c
  | None => None
  end.

Definition piece_at (b : Board) (r c : Z) : option Piece :=
  match square b r c with
  | Some x => store b !! x
  | None => None
  end.

(** The object [x] stands on the square its own coordinates name. *)
Definition on_its_square (b : Board) (x : Ref) (p : Piece) : Prop :=
  store b !! x = Some p /\ 0 <= row p < 8 /\ 0 <= col p < 8
  /\ square b (row p) (col p) = Some x.


(** The pieces of colour [c] in a list of neighbours, counted as the
    length of a filtered list. *)
Definition neighbours_of (c : Side) (surrounding_pieces : list Piece) : Z :=
  Z.of_nat (length (List.filter (fun q => side_eqb (side q) c) surrounding_pieces)).

(** The state an outcome carries. *)
Definition state_of {S A} (o : outcome S A) : S :=
  match o with
  | Return s _ | Raise s _ => s
  end.

(** [Board(args)] and [Engine(args)] *)
Definition initial_board : Board := state_of new_Board.
Definition initial_engine : Engine := state_of Engine_init.

(** [Board.__init__] creates 64 [Empty] objects and 32 pieces. *)
Definition initial_objects : nat := 96.
#[global] Opaque initial_board initial_engine.

(** What identifies a piece and where it stands.  The counters are the
    only fields a tick rewrites; the invariants of the board speak of the
    four other fields only. *)
Definition layout (p : Piece) : Kind * Side * Z * Z :=
  (kind p, side p, row p, col p).

Definition layouts (b : Board) : list (Kind * Side * Z * Z) :=
  layout <$> store b.

Definition layout_at (b : Board) (r c : Z) : option (Kind * Side * Z * Z) :=
  match square b r c with
  | Some x => layouts b !! x
  | None => None
  end.

(** Eight rows of eight squares. *)
Definition shape (b : Board) : Prop :=
  length <$> board b = replicate 8 8%nat.

(** Every square holds an object whose coordinates are the square's. *)
Definition positions (b : Board) : Prop :=
  forall r c, 0 <= r < 8 -> 0 <= c < 8 ->
    exists k s, layout_at b r c = Some (k, s, r, c).

(** Two squares that hold a King of the same side are one square. *)
Definition one_king (b : Board) : Prop :=
  forall s r c r' c',
    0 <= r < 8 -> 0 <= c < 8 -> 0 <= r' < 8 -> 0 <= c' < 8 ->
    layout_at b r c = Some (King, s, r, c) ->
    layout_at b r' c' = Some (King, s, r', c') ->
    (r, c) = (r', c').

(** The squares that hold a King of side [s], in rank-then-file order. *)
Definition all_squares : list (Z * Z) :=
  flat_map (fun i => map (fun j => (i, j)) (range 8)) (range 8).

Definition is_king_of (s : Side) (p : Piece) : bool :=
  kind_eqb (kind p) King && side_eqb (side p) s.

Definition holds_king (s : Side) (b : Board) (sq : Z * Z) : bool :=
  match piece_at b (fst sq) (snd sq) with
  | Some p => is_king_of s p
  | None => false
  end.

Definition kings (s : Side) (b : Board) : list (Z * Z) :=
  List.filter (holds_king s b) all_squares.

(** The kinds of the pieces of side [s] created after the initial
    position, oldest first.  Objects enter the store in the order of
    their creation and [set_new_piece] is the only code that creates a
    piece with a side after [Board.__init__]: this is the sequence of
    kinds born for [s] in the whole game. *)
Definition born (s : Side) (b : Board) : list Kind :=
  kind <$> filter (fun p => side p = s)
             (drop initial_objects (store b)).

(** Pop the front, push it to the back; [n] times; and the [n] kinds
    popped on the way. *)
Definition rotate1 (q : list string) : list string :=
  match q with
  | [] => []
  | k :: rest => rest ++ [k]
  end.

Definition rotate (n : nat) (q : list string) : list string :=
  Nat.iter n rotate1 q.

Fixpoint spawned (n : nat) (q : list string) : list string :=
  match n with
  | O => []
  | S n' => match q with
            | [] => []
            | k :: rest => k :: spawned n' (rest ++ [k])
            end
  end.

(** The states of a game: [Engine(args)] and what [update_state] returns
    from them, for any key and any answer of the adviser. *)
Inductive reachable : Engine -> Prop :=
| reachable_init : reachable initial_engine
| reachable_step (e e' : Engine) (key : Key) (stockfish : option Stockfish)
    (changed : bool) :
    reachable e ->
    update_state key stockfish e = Return e' changed ->
    reachable e'.

(** The queue of [s] is the seed rotated once per birth, and the births
    so far are the seed read cyclically. *)
Definition queue_ok (s : Side) (e : Engine) : Prop :=
  let n := length (born s (engine_board e)) in
  queue_of s e = rotate n seed_queue
  /\ Some <$> born s (engine_board e) = kind_of_letter <$> spawned n seed_queue.

Definition selected_ok (e : Engine) : Prop :=
  forall x, selected_piece e = Some x ->
    exists p, on_its_square (engine_board e) x p.

Record board_ok (b : Board) : Prop := {
  ok_shape : shape b;
  ok_positions : positions b;
  ok_one_king : one_king b;
  ok_store : (initial_objects <= length (store b))%nat
}.

Record engine_ok (e : Engine) : Prop := {
  ok_board : board_ok (engine_board e);
  ok_selected : selected_ok e;
  ok_white : queue_ok White e;
  ok_black : queue_ok Black e
}.

(** A computation that reads the state and leaves it as it is. *)
Definition readonly {S A} (m : M S A) : Prop :=
  forall s, state_of (m s) = s.

(** Objects with coordinates on the board. *)
Definition in_range_refs (b : Board) (l : list Ref) : Prop :=
  Forall (fun x => exists p, store b !! x = Some p
                             /\ 0 <= row p < 8 /\ 0 <= col p < 8) l.


(** The order in which the birth pass visits the squares: rank by rank
    from rank 1 for White and from rank 8 for Black, each rank from file a
    to file h. *)
Definition scan_order (t : Side) : list (Z * Z) :=
  match t with
  | White => flat_map (fun i => map (fun j => (i, j)) (range 8)) (range 8)
  | Black => flat_map (fun i => map (fun j => (i, j)) (range 8)) (reversed (range 8))
  | NoSide => []
  end.

(** An empty square whose birth counter for [t] is exactly 3. *)
Definition gives_birth (t : Side) (b : Board) (sq : Z * Z) : bool :=
  match piece_at b (fst sq) (snd sq) with
  | Some p => side_eqb (side p) NoSide && (birth_counter t p =? 3)
  | None => false
  end.

(** The square [sq] holds a new piece of side [t] of the kind [letter]
    names. *)
Definition born_at (t : Side) (b : Board) (sq : Z * Z) (letter : string) : Prop :=
  exists k, kind_of_letter letter = Some k
    /\ piece_at b (fst sq) (snd sq)
       = Some (set_position (new_piece k t) (fst sq) (snd sq)).

(** Running the engine on a sequence of keys, without the adviser. *)
Definition play (keys : list Key) (e : Engine) : outcome Engine bool :=
  fold_left (fun o key => match o with
                          | Return e' _ => update_state key None e'
                          | Raise _ _ => o
                          end) keys (Return e false).

(** A game of eighteen moves, as the keys typed: the cursor goes to a
    piece, enter selects it, the cursor goes to the destination, enter
    moves. *)
Definition long_game : list Key :=
  [KeyDown; KeyEnter; KeyUp; KeyUp; KeyUp; KeyLeft; KeyEnter; KeyDown;
   KeyRight; KeyRight; KeyRight; KeyEnter; KeyDown; KeyLeft; KeyLeft; KeyLeft;
   KeyEnter; KeyLeft; KeyLeft; KeyEnter; KeyDown; KeyRight; KeyRight; KeyRight;
   KeyEnter; KeyUp; KeyUp; KeyLeft; KeyLeft; KeyLeft; KeyEnter; KeyUp; KeyUp;
   KeyLeft; KeyEnter; KeyDown; KeyDown; KeyDown; KeyDown; KeyEnter; KeyUp;
   KeyUp; KeyUp; KeyRight; KeyRight; KeyRight; KeyRight; KeyEnter; KeyLeft;
   KeyLeft; KeyLeft; KeyEnter; KeyRight; KeyRight; KeyRight; KeyEnter; KeyDown;
   KeyDown; KeyDown; KeyDown; KeyLeft; KeyLeft; KeyLeft; KeyEnter; KeyRight;
   KeyRight; KeyEnter; KeyDown; KeyDown; KeyDown; KeyDown; KeyRight; KeyRight;
   KeyEnter; KeyDown; KeyDown; KeyDown; KeyDown; KeyLeft; KeyEnter; KeyUp;
   KeyUp; KeyRight; KeyRight; KeyRight; KeyRight; KeyEnter; KeyDown; KeyDown;
   KeyDown; KeyLeft; KeyLeft; KeyLeft; KeyEnter; KeyUp; KeyLeft; KeyEnter;
   KeyDown; KeyDown; KeyDown; KeyLeft; KeyLeft; KeyLeft; KeyEnter; KeyUp;
   KeyUp; KeyUp; KeyRight; KeyRight; KeyEnter; KeyDown; KeyDown; KeyRight;
   KeyRight; KeyRight; KeyEnter; KeyDown; KeyDown; KeyDown; KeyLeft; KeyEnter;
   KeyUp; KeyRight; KeyRight; KeyEnter; KeyDown; KeyDown; KeyRight; KeyRight;
   KeyRight; KeyEnter; KeyDown; KeyDown; KeyDown; KeyDown; KeyRight; KeyRight;
   KeyRight; KeyEnter; KeyDown; KeyDown; KeyLeft; KeyLeft; KeyLeft; KeyEnter;
   KeyUp; KeyUp; KeyRight; KeyRight; KeyRight; KeyRight; KeyEnter; KeyUp;
   KeyUp; KeyRight; KeyEnter; KeyDown; KeyDown; KeyDown; KeyRight; KeyRight;
   KeyRight; KeyRight; KeyEnter; KeyDown; KeyDown; KeyRight; KeyEnter; KeyUp;
   KeyUp; KeyUp; KeyLeft; KeyEnter; KeyUp; KeyUp; KeyEnter; KeyUp; KeyUp;
   KeyUp; KeyRight; KeyRight; KeyEnter; KeyUp; KeyRight; KeyRight; KeyEnter;
   KeyUp; KeyLeft; KeyLeft; KeyLeft; KeyEnter].


(** White selects the rook on a1 and moves it onto the black King on
    e8; then, the game being over, moves the cursor to e3 and presses
    enter again. *)
Definition capture_the_king : list Key :=
  [KeyEnter; KeyUp; KeyRight; KeyRight; KeyRight; KeyRight; KeyEnter].

Definition play_on : list Key := [KeyDown; KeyDown; KeyDown; KeyEnter].

(** Four opening moves, one per game: c2 to c4, h2 to g5, a2 takes g8,
    d2 to d5. *)
Definition open_c2c4 : list Key :=
  [KeyDown; KeyRight; KeyRight; KeyEnter; KeyDown; KeyDown; KeyEnter].

(** A game of six moves after which the white King, crowded on e1 since
    the start, has its death counter at 4 when White's turn begins. *)
Definition king_perishes : list Key :=
  [KeyDown; KeyEnter; KeyDown; KeyDown; KeyDown; KeyRight; KeyRight;
   KeyEnter; KeyDown; KeyDown; KeyDown; KeyLeft; KeyEnter; KeyDown; KeyDown;
   KeyLeft; KeyEnter; KeyUp; KeyEnter; KeyUp; KeyRight; KeyEnter; KeyUp;
   KeyRight; KeyRight; KeyRight; KeyEnter; KeyUp; KeyUp; KeyRight; KeyRight;
   KeyRight; KeyRight; KeyEnter; KeyUp; KeyUp; KeyUp; KeyLeft; KeyLeft;
   KeyEnter; KeyDown; KeyDown; KeyDown; KeyRight; KeyEnter; KeyDown; KeyDown;
   KeyDown; KeyRight; KeyEnter; KeyDown; KeyRight; KeyRight; KeyEnter].

(** ** The turn message of network play *)

(** Bytes are integers from 0 to 255. *)

(** [hashlib.sha256]: SHA-256 as FIPS 180-4 defines it, on words of 32
    bits kept in [Z]. *)
Module SHA256.

Definition w32 (x : Z) : Z := Z.land x 4294967295.
Definition add32 (x y : Z) : Z := w32 (x + y).
Definition rotr (n x : Z) : Z :=
  Z.lor (Z.shiftr x n) (w32 (Z.shiftl x (32 - n))).
Definition Ch (x y z : Z) : Z :=
  Z.lxor (Z.land x y) (Z.land (Z.lxor x 4294967295) z).
Definition Maj (x y z : Z) : Z :=
  Z.lxor (Z.lxor (Z.land x y) (Z.land x z)) (Z.land y z).
Definition Sigma0 (x : Z) : Z := Z.lxor (Z.lxor (rotr 2 x) (rotr 13 x)) (rotr 22 x).
Definition Sigma1 (x : Z) : Z := Z.lxor (Z.lxor (rotr 6 x) (rotr 11 x)) (rotr 25 x).
Definition sigma0 (x : Z) : Z := Z.lxor (Z.lxor (rotr 7 x) (rotr 18 x)) (Z.shiftr x 3).
Definition sigma1 (x : Z) : Z := Z.lxor (Z.lxor (rotr 17 x) (rotr 19 x)) (Z.shiftr x 10).

(** The constants are the first 32 bits of the fractional parts of the
    cube roots (for [K]) and square roots (for [H0]) of the first primes. *)
Definition is_prime (n : Z) : bool :=
  (2 <=? n) && forallb (fun d => negb (n mod d =? 0))
                       (map Z.of_nat (seq 2 (Z.to_nat n - 2))).

Definition primes : list Z :=
  Eval vm_compute in List.filter is_prime (map Z.of_nat (seq 0 312)).

(** The largest [r] below [2 ^ bits] with [r ^ k <= x], bit by bit. *)
Fixpoint root (k x : Z) (bits : nat) (r : Z) : Z :=
  match bits with
  | O => r
  | S b =>
      let r' := r + 2 ^ Z.of_nat b in
      root k x b (if r' ^ k <=? x then r' else r)
  end.

Definition root_fraction (k p : Z) : Z :=
  w32 (root k (p * 2 ^ (32 * k)) 40 0).

Definition K : list Z := Eval vm_compute in map (root_fraction 3) primes.

Definition H0 : list Z := Eval vm_compute in map (root_fraction 2) (take 8 primes).

(** A word of [n] bytes, most significant byte first. *)
Fixpoint be_bytes (n : nat) (x : Z) : list Z :=
  match n with
  | O => []
  | S n' => be_bytes n' (Z.shiftr x 8) ++ [Z.land x 255]
  end.

Definition be_word (bs : list Z) : Z :=
  fold_left (fun acc b => acc * 256 + b) bs 0.

(** The message, a 1 bit, zeros up to 56 modulo 64, the length in bits
    on 8 bytes. *)
Definition pad (msg : list Z) : list Z :=
  let len := Z.of_nat (length msg) in
  let zeros := Z.to_nat ((55 - len) mod 64) in
  msg ++ [128] ++ repeat 0 zeros ++ be_bytes 8 (8 * len).

Fixpoint chunks {A} (n : nat) (fuel : nat) (l : list A) : list (list A) :=
  match fuel with
  | O => []
  | S fuel' =>
      match l with
      | [] => []
      | _ => take n l :: chunks n fuel' (drop n l)
      end
  end.

(** The message schedule; [w] holds [W(t-1)], [W(t-2)], ... *)
Fixpoint schedule (n : nat) (w : list Z) : list Z :=
  match n with
  | O => w
  | S n' =>
      let wt := add32 (add32 (sigma1 (nth 1 w 0)) (nth 6 w 0))
                      (add32 (sigma0 (nth 14 w 0)) (nth 15 w 0)) in
      schedule n' (wt :: w)
  end.

Definition round (st : list Z) (kw : Z * Z) : list Z :=
  match st with
  | [a; b; c; d; e; f; g; h] =>
      let t1 := add32 (add32 (add32 h (Sigma1 e)) (add32 (Ch e f g) (fst kw))) (snd kw) in
      let t2 := add32 (Sigma0 a) (Maj a b c) in
      [add32 t1 t2; a; b; c; add32 d t1; e; f; g]
  | _ => st
  end.

Definition compress (h : list Z) (block : list Z) : list Z :=
  let w16 := map be_word (chunks 4 16 block) in
  let w := rev (schedule 48 (rev w16)) in
  let st := fold_left round (combine K w) h in
  map (fun p => add32 (fst p) (snd p)) (combine h st).

Definition digest (msg : list Z) : list Z :=
  let p := pad msg in
  let h := fold_left compress (chunks 64 (length p) p) H0 in
  flat_map (be_bytes 4) h.

End SHA256.

(** The code points of a string. *)
Definition bytes_of_string (s : string) : list Z :=
  map (fun c => Z.of_N (N_of_ascii c)) (list_ascii_of_string s).

Definition le_bytes (n : nat) (x : Z) : list Z := rev (SHA256.be_bytes n x).

(** [pickle.dumps] of a list of [str], as CPython's pickler writes it
    with protocol 4 (the default from Python 3.8 to 3.13) or 5 (the
    default since 3.14): [PROTO], then in frames [EMPTY_LIST], [MEMOIZE],
    the items ([SHORT_BINUNICODE], [MEMOIZE]) in batches of 1000 between
    [MARK] and [APPENDS] (a single item is followed by [APPEND]), [STOP].
    The pickler looks at the frame before it saves an object: a frame
    that has reached 64 KiB is closed there and the next one begins with
    that object; the last frame is closed after [STOP], and a frame of
    less than 4 bytes gets no header.
    The model covers the strings the engine logs: every string a
    distinct object (each move record is a new f-string) of 2 to 255
    ASCII characters; it answers [None] for a list with another string
    in it. *)
Definition pickle_str (s : string) : option (list Z) :=
  let bs := bytes_of_string s in
  let n := Z.of_nat (length bs) in
  if (2 <=? n) && (n <? 256) && forallb (fun b => b <? 128) bs
  then Some ([140; n] ++ bs ++ [148])
  else None.

Fixpoint pickle_strs (l : list string) : option (list (list Z)) :=
  match l with
  | [] => Some []
  | s :: l' =>
      match pickle_str s, pickle_strs l' with
      | Some x, Some xs => Some (x :: xs)
      | _, _ => None
      end
  end.

(** The bytes written from one look at the frame to the next: the
    opcodes that follow the last item of a batch go with that item. *)
Fixpoint close_batch (batch : list (list Z)) (tail : list Z) : list (list Z) :=
  match batch with
  | [] => []
  | [x] => [x ++ tail]
  | x :: batch' => x :: close_batch batch' tail
  end.

Fixpoint batches (fuel : nat) (items : list (list Z)) : list (list Z) :=
  match fuel with
  | O => []
  | S fuel' =>
      match items with
      | [] => []
      | _ =>
          let rest := drop 1000 items in
          close_batch (take 1000 items)
            (match rest with [] => [101; 46] | _ => [101; 40] end)
          ++ batches fuel' rest
      end
  end.

Definition segments (items : list (list Z)) : list (list Z) :=
  match items with
  | [] => [[93; 148; 46]]
  | [x] => [[93; 148]; x ++ [97; 46]]
  | _ => [93; 148; 40] :: batches (length items) items
  end.

Definition frame (data : list Z) : list Z :=
  let n := Z.of_nat (length data) in
  if 4 <=? n then [149] ++ le_bytes 8 n ++ data else data.

(** [current] holds the open frame, last segment first, and [size] its
    length. *)
Fixpoint frames (segs : list (list Z)) (current : list (list Z)) (size : Z)
  : list Z :=
  match segs with
  | [] => frame (concat (rev current))
  | s :: segs' =>
      if 65536 <=? size
      then frame (concat (rev current)) ++ frames segs' [s] (Z.of_nat (length s))
      else frames segs' (s :: current) (size + Z.of_nat (length s))
  end.

Definition pickle_dumps (protocol : Z) (l : list string) : option (list Z) :=
  match pickle_strs l with
  | None => None
  | Some items => Some ([128; protocol] ++ frames (segments items) [] 0)
  end.

(** [hashlib.sha256(pickle.dumps(engine.recent_moves_str)).digest()[-2:]] *)
Definition hash_lsb (protocol : Z) (recent_moves_str : list string) : option (list Z) :=
  match pickle_dumps protocol recent_moves_str with
  | Some p => let d := SHA256.digest p in Some (drop (length d - 2) d)
  | None => None
  end.

(** What the peer to move sends:
    [ch.to_bytes(2, "big") + ...digest()[-2:]]; [to_bytes] raises
    [OverflowError] outside of [0 <= ch < 65536]. *)
Definition turn_message (protocol : Z) (ch : Z) (recent_moves_str : list string)
  : option (list Z) :=
  if (0 <=? ch) && (ch <? 65536) then
    match hash_lsb protocol recent_moves_str with
    | Some h => Some (SHA256.be_bytes 2 ch ++ h)
    | None => None
    end
  else None.

(** What the other peer makes of [msg]: the key, or the
    [AssertionError] "client and server are out of sync". *)
Inductive received := GotKey (ch : Z) | OutOfSync.

Definition bytes_eqb (a b : list Z) : bool :=
  bool_decide (a = b).

Definition receive (protocol : Z) (msg : list Z) (recent_moves_str : list string)
  : option received :=
  let ch := SHA256.be_word (take 2 msg) in
  let lsb := drop 2 msg in
  match hash_lsb protocol recent_moves_str with
  | Some h => Some (if bytes_eqb lsb h then GotKey ch else OutOfSync)
  | None => None
  end.

(** ** Further observations *)

(** The fields of the engine that the board operations, the ticks and
    the birth and death passes leave alone. *)
Record same_fields (e e' : Engine) : Prop := {
  sf_turn : current_turn e' = current_turn e;
  sf_log : recent_moves_str e' = recent_moves_str e;
  sf_moves : recent_moves e' = recent_moves e;
  sf_cursor_row : cursor_row e' = cursor_row e;
  sf_cursor_col : cursor_col e' = cursor_col e;
  sf_selected : selected_piece e' = selected_piece e
}.

(** The squares of the board next to [(r, c)], in the order in which
    the two loops of [get_surrounding_pieces] visit them. *)
Definition is_on_board (sq : Z * Z) : bool :=
  (0 <=? fst sq) && (fst sq <? 8) && (0 <=? snd sq) && (snd sq <? 8).

Definition around (r c : Z) : list (Z * Z) :=
  List.filter is_on_board
    (flat_map (fun i => flat_map (fun j => if (i =? 0) && (j =? 0) then []
                                           else [(r + i, c + j)]) [-1; 0; 1])
              [-1; 0; 1]).

(** The pieces on those squares. *)
Definition neighbours (b : Board) (r c : Z) : list Piece :=
  omap (fun sq => piece_at b (fst sq) (snd sq)) (around r c).

(** The reference on a square that exists. *)
Definition square_ref (b : Board) (sq : Z * Z) : Ref :=
  default 0%nat (square b (fst sq) (snd sq)).

(** The cursor is on one of the 64 squares. *)
Definition cursor_on_board (e : Engine) : Prop :=
  0 <= cursor_row e < 8 /\ 0 <= cursor_col e < 8.

(** ** [main_loop]: keys, undo and redo *)

(** The key codes of the curses module that the loop compares with. *)
Record Curses := mkCurses {
  KEY_UP : Z;
  KEY_DOWN : Z;
  KEY_LEFT : Z;
  KEY_RIGHT : Z;
  KEY_BACKSPACE : Z
}.

(** Their values in ncurses. *)
Definition ncurses : Curses := mkCurses 259 258 260 261 263.

(** Key codes lie above the characters and differ from one another. *)
Definition key_codes (k : Curses) : Prop :=
  255 < KEY_UP k /\ 255 < KEY_DOWN k /\ 255 < KEY_LEFT k /\ 255 < KEY_RIGHT k
  /\ 255 < KEY_BACKSPACE k
  /\ NoDup [KEY_UP k; KEY_DOWN k; KEY_LEFT k; KEY_RIGHT k; KEY_BACKSPACE k].

(** [Engine.get_cursor]; [flip] is [args.flip]. *)
Definition get_cursor (flip : bool) (e : Engine) : Z * Z :=
  let real_row := if flip then (7 - cursor_row e) * 4 + 7
                  else cursor_row e * 4 + 7 in
  let real_col := cursor_col e * 6 + 4 in
  (real_row, real_col).

(** [Engine.flip_cursor_y] *)
Definition flip_cursor_y (flip : bool) (ch key_up key_down : Z) : Z :=
  if flip then
    if ch =? key_up then key_down
    else if ch =? key_down then key_up
    else ch
  else ch.

(** [list.pop()] *)
Definition py_pop {A} (l : list A) : option (A * list A) :=
  match last l with
  | Some x => Some (x, removelast l)
  | None => None
  end.

(** The variables of [main_loop] that live across iterations.  The
    two lists hold pickled engines; [pickle.loads(pickle.dumps(engine))]
    is a copy of the engine with its own board and pieces, which a value
    of [Engine] is. *)
Record Loop := mkLoop {
  engine : Engine;
  engine_state : list Engine;
  engine_state_redo : list Engine
}.

Definition newline : ascii := "010"%char.

(** An iteration of the loop of [main_loop] from the point where [ch]
    is known, typed or received: [None] when the loop goes on, [Some 0]
    for [return 0]. *)
Definition dispatch (k : Curses) (stockfish : option Stockfish)
    (ch : Z) (l : Loop) : outcome Loop (option Z) :=
  let index_error := IndexError "list index out of range" in
  let update (key : Key) : outcome Loop (option Z) :=
    match update_state key stockfish (engine l) with
    | Return e changed =>
        if changed then Return (mkLoop e (engine_state l ++ [e]) []) None
        else Return (mkLoop e (engine_state l) (engine_state_redo l)) None
    | Raise e x => Raise (mkLoop e (engine_state l) (engine_state_redo l)) x
    end in
  if (ch =? ord newline) || (ch =? ord " ") then update KeyEnter
  else if ch =? ord "s" then update KeyStockfish
  else if ch =? KEY_UP k then update KeyUp
  else if ch =? KEY_DOWN k then update KeyDown
  else if ch =? KEY_LEFT k then update KeyLeft
  else if ch =? KEY_RIGHT k then update KeyRight
  else if (ch =? KEY_BACKSPACE k) || (ch =? ord "u") then
    if 2 <=? Z.of_nat (length (engine_state l)) then
      match py_pop (engine_state l) with
      | None => Raise l (IndexError "pop from empty list")
      | Some (x, states) =>
          let redo := engine_state_redo l ++ [x] in
          match py_getitem states (-1) with
          | None => Raise (mkLoop (engine l) states redo) index_error
          | Some e => Return (mkLoop e states redo) None
          end
      end
    else Return l None
  else if ch =? ord "r" then
    match py_pop (engine_state_redo l) with
    | None => Return l None
    | Some (x, redo) =>
        let states := engine_state l ++ [x] in
        match py_getitem states (-1) with
        | None => Raise (mkLoop (engine l) states redo) index_error
        | Some e => Return (mkLoop e states redo) None
        end
    end
  else if (ch =? 27) || (ch =? ord "q") then Return l (Some 0)
  else update KeyOther.

(** One iteration without a connection, on the key [ch] that [getch]
    returns. *)
Definition main_loop_step (flip : bool) (k : Curses) (stockfish : option Stockfish)
    (ch : Z) (l : Loop) : outcome Loop (option Z) :=
  dispatch k stockfish (flip_cursor_y flip ch (KEY_UP k) (KEY_DOWN k)) l.

(** The loop as [start_cli] enters it without a save file. *)
Definition start_loop : Loop := mkLoop initial_engine [initial_engine] [].

(** Every engine the loop holds is a state of the game, and there is a
    saved state to go back to. *)
Definition history_ok (l : Loop) : Prop :=
  reachable (engine l) /\ engine_state l <> []
  /\ Forall reachable (engine_state l)
  /\ Forall reachable (engine_state_redo l).

(** The same with every cursor on the board. *)
Definition in_play (e : Engine) : Prop := reachable e /\ cursor_on_board e.

Definition loop_ok (l : Loop) : Prop :=
  in_play (engine l) /\ engine_state l <> []
  /\ Forall in_play (engine_state l)
  /\ Forall in_play (engine_state_redo l).

(** ** Kinds and sides *)

(** The kind and the side of every object, in the order of creation. *)
Definition kinds_sides (b : Board) : list (Kind * Side) :=
  (fun p => (kind p, side p)) <$> store b.

(** [Empty] objects have no side, the others have one. *)
Definition sided (x : Kind * Side) : Prop :=
  fst x = EmptySq <-> snd x = NoSide.

Definition sidedb (x : Kind * Side) : bool :=
  Bool.eqb (bool_decide (fst x = EmptySq)) (bool_decide (snd x = NoSide)).

(** [b'] has the objects of [b] with the kinds and sides they had, and
    new objects after them. *)
Definition extends (b b' : Board) : Prop :=
  exists extra, kinds_sides b' = kinds_sides b ++ extra /\ Forall sided extra.

Definition grows {A} (m : M Board A) (b : Board) : Prop :=
  extends b (state_of (m b)).

Definition engine_grows {A} (m : M Engine A) (e : Engine) : Prop :=
  extends (engine_board e) (engine_board (state_of (m e))).

(** ** [main_loop] with a connection *)

(** A peer of a network game: its colour, the protocol [pickle.dumps]
    uses by default in its Python, [args.flip], and the variables of its
    loop. *)
Record Peer := mkPeer {
  my_colour : Side;
  protocol : Z;
  peer_flip : bool;
  peer_loop : Loop
}.

Definition peer_log (p : Peer) : list string :=
  recent_moves_str (engine (peer_loop p)).

Definition with_loop (p : Peer) (l : Loop) : Peer :=
  mkPeer (my_colour p) (protocol p) (peer_flip p) l.

(** [my_colour == engine.current_turn] *)
Definition my_turn (p : Peer) : bool :=
  side_eqb (my_colour p) (current_turn (engine (peer_loop p))).

(** How an iteration of a peer ends. *)
Inductive net_outcome :=
| Went (l : Loop) (r : option Z)     (* the end of the iteration, or [return 0] *)
| OutOfSyncError                     (* the [assert] of the receiving branch *)
| OverflowError                      (* [ch.to_bytes(2, "big")] *)
| EngineError (l : Loop) (x : exn)   (* raised under [update_state] *)
| NoPickle.                          (* a log outside [pickle_str] *)

Definition went (o : outcome Loop (option Z)) : net_outcome :=
  match o with
  | Return l r => Went l r
  | Raise l x => EngineError l x
  end.

(** The branch of the peer to move: the key is typed, flipped and sent
    with the hash of the log, then handled. *)
Definition play_turn (k : Curses) (stockfish : option Stockfish) (ch : Z) (p : Peer)
  : option (list Z) * net_outcome :=
  let ch := flip_cursor_y (peer_flip p) ch (KEY_UP k) (KEY_DOWN k) in
  if (0 <=? ch) && (ch <? 65536) then
    match turn_message (protocol p) ch (peer_log p) with
    | Some msg => (Some msg, went (dispatch k stockfish ch (peer_loop p)))
    | None => (None, NoPickle)
    end
  else (None, OverflowError).

(** The branch of the other peer: the four bytes are received, the
    hash is compared with the hash of its own log, the key is handled. *)
Definition watch_turn (k : Curses) (stockfish : option Stockfish) (msg : list Z)
    (p : Peer) : net_outcome :=
  match receive (protocol p) msg (peer_log p) with
  | Some (GotKey ch) => went (dispatch k stockfish ch (peer_loop p))
  | Some OutOfSync => OutOfSyncError
  | None => NoPickle
  end.

(** Two peers, one key typed by the peer to move. *)
Inductive session :=
| Playing (a b : Peer)    (* both loops go on *)
| Finished                (* both returned 0 *)
| Mismatch                (* the receiver reported "out of sync" *)
| Crashed                 (* another exception ended a loop *)
| Unmodelled              (* a log outside [pickle_str] *)
| Stuck.                  (* both peers, or none, to move; or one left alone *)

Definition exchange (k : Curses) (stockfish : option Stockfish) (ch : Z)
    (sender receiver : Peer) (resume : Peer -> Peer -> session) : session :=
  match play_turn k stockfish ch sender with
  | (None, OverflowError) => Crashed
  | (None, _) => Unmodelled
  | (Some msg, sent) =>
      match watch_turn k stockfish msg receiver with
      | OutOfSyncError => Mismatch
      | NoPickle => Unmodelled
      | OverflowError | EngineError _ _ => Crashed
      | Went l' r' =>
          match sent with
          | Went l r =>
              match r, r' with
              | None, None => resume (with_loop sender l) (with_loop receiver l')
              | Some _, Some _ => Finished
              | _, _ => Stuck
              end
          | _ => Crashed
          end
      end
  end.

Definition turn (k : Curses) (stockfish : option Stockfish) (ch : Z) (a b : Peer)
  : session :=
  match my_turn a, my_turn b with
  | true, false => exchange k stockfish ch a b Playing
  | false, true => exchange k stockfish ch b a (fun b' a' => Playing a' b')
  | _, _ => Stuck
  end.






(** ** The death pass *)



(** * Lemmas on lists and squares *)

Lemma py_getitem_nonneg {A} (l : list A) (i : Z) :
  0 <= i -> py_getitem l i = l !! Z.to_nat i.
Proof.
  intros Hi. unfold py_getitem, py_norm.
  destruct (Z.leb_spec 0 i); [|lia].
  destruct (Z.ltb_spec i (Z.of_nat (length l))); simpl; [done|].
  destruct (Z.ltb_spec i 0); [lia|].
  rewrite andb_false_r. symmetry. apply lookup_ge_None. lia.
Qed.

Lemma py_setitem_nonneg {A} (l : list A) (i : Z) (x y : A) :
  0 <= i -> l !! Z.to_nat i = Some y ->
  py_setitem l i x = Some (<[Z.to_nat i := x]> l)
  /\ py_norm (length l) i = Some (Z.to_nat i).
Proof.
  intros Hi Hl. apply lookup_lt_Some in Hl.
  unfold py_setitem, py_norm.
  destruct (Z.leb_spec 0 i); [|lia].
  destruct (Z.ltb_spec i (Z.of_nat (length l))); simpl; [done|lia].
Qed.

Lemma get_piece_square (b : Board) (r c : Z) :
  get_piece r c b = match square b r c with
                    | Some x => Return b x
                    | None => Raise b (IndexError "list index out of range")
                    end.
Proof.
  unfold get_piece, square.
  destruct (py_getitem (board b) r); [|done].
  by destruct (py_getitem l c).
Qed.

Lemma square_lookup (b : Board) (r c : Z) (x : Ref) :
  0 <= r -> 0 <= c ->
  square b r c = Some x <->
  exists l, board b !! Z.to_nat r = Some l /\ l !! Z.to_nat c = Some x.
Proof.
  intros Hr Hc. unfold square. rewrite py_getitem_nonneg by done.
  destruct (board b !! Z.to_nat r) as [l|].
  - rewrite py_getitem_nonneg by done. split; [eauto|]. by intros (l' & [= <-] & ?).
  - split; [done|]. by intros (l' & ? & ?).
Qed.

(** Writing a square that exists: the store is untouched, the square
    holds the new reference, every other square keeps its own. *)
Lemma set_square_spec (b : Board) (r c : Z) (x y : Ref) :
  0 <= r -> 0 <= c -> square b r c = Some y ->
  exists b', set_square r c x b = Return b' tt
    /\ store b' = store b
    /\ square b' r c = Some x
    /\ (forall r' c', 0 <= r' -> 0 <= c' -> (r', c') <> (r, c) ->
          square b' r' c' = square b r' c')
    /\ length <$> board b' = length <$> board b.
Proof.
  intros Hr Hc Hsq.
  apply square_lookup in Hsq as (l & Hl & Hx); [|done..].
  destruct (py_setitem_nonneg l c x y Hc Hx) as [Hset _].
  destruct (py_setitem_nonneg (board b) r l l Hr Hl) as [_ Hn].
  eexists. unfold set_square.
  rewrite py_getitem_nonneg, Hl, Hset, Hn by done.
  split; [reflexivity|]. split; [done|].
  assert (Hlen : (Z.to_nat r < length (board b))%nat) by by eapply lookup_lt_Some.
  assert (Hlen' : (Z.to_nat c < length l)%nat) by by eapply lookup_lt_Some.
  split; [|split].
  - apply square_lookup; [done..|]. simpl.
    exists (<[Z.to_nat c := x]> l). split.
    + by apply list_lookup_insert_eq.
    + by apply list_lookup_insert_eq.
  - intros r' c' Hr' Hc' Hne. unfold square; simpl.
    rewrite !py_getitem_nonneg by done.
    destruct (decide (Z.to_nat r' = Z.to_nat r)) as [Heq|Heq].
    + rewrite Heq, list_lookup_insert_eq, Hl by done.
      rewrite !py_getitem_nonneg by done.
      apply list_lookup_insert_ne. intros Hcc.
      apply Hne. f_equal; lia.
    + by rewrite list_lookup_insert_ne.
  - simpl. rewrite list_fmap_insert, length_insert.
    apply list_insert_id. by rewrite list_lookup_fmap, Hl.
Qed.

Lemma side_eqb_eq (a b : Side) : side_eqb a b = true <-> a = b.
Proof. destruct a, b; simpl; split; congruence. Qed.

Lemma side_eqb_refl (a : Side) : side_eqb a a = true.
Proof. by destruct a. Qed.

Lemma side_eqb_neq (a b : Side) : side_eqb a b = false <-> a <> b.
Proof. destruct a, b; simpl; split; congruence. Qed.

Lemma count_side_filter (s : Side) (l : list Piece) :
  count_side s l = Z.of_nat (length (List.filter (fun q => side_eqb (side q) s) l)).
Proof.
  induction l as [|p l IH]; simpl; [done|].
  rewrite IH. destruct (side_eqb (side p) s); simpl; lia.
Qed.

(** Running the monad one step. *)
Lemma bind_return {S A B} (m : M S A) (k : A -> M S B) (s s' : S) (a : A) :
  m s = Return s' a -> bind m k s = k a s'.
Proof. unfold bind. by intros ->. Qed.

Lemma bind_raise {S A B} (m : M S A) (k : A -> M S B) (s s' : S) (x : exn) :
  m s = Raise s' x -> bind m k s = Raise s' x.
Proof. unfold bind. by intros ->. Qed.

Lemma deref_some (b : Board) (x : Ref) (p : Piece) :
  store b !! x = Some p -> deref x b = Return b p.
Proof. unfold deref. by intros ->. Qed.

Lemma bind_deref {B} (k : Piece -> M Board B) (b : Board) (x : Ref) (p : Piece) :
  store b !! x = Some p -> bind (deref x) k b = k p b.
Proof. intros H. apply bind_return. by apply deref_some. Qed.

Lemma move_piece_run (b : Board) (source dest : Ref) (s d : Piece) :
  on_its_square b source s -> on_its_square b dest d ->
  piece_move_is_valid s d = true ->
  source <> dest /\ (row s, col s) <> (row d, col d)
  /\ (kind d = King ->
      move_piece source dest b = Raise b (Exception (perish_message d false)))
  /\ (kind d <> King ->
      exists g,
        let e := length (store b) in
        let b' := mkBoard (<[source := set_position s (row d) (col d)]>
                            (<[e := set_position Empty (row s) (col s)]>
                               (store b ++ [Empty]))) g in
        move_piece source dest b = Return b' true
        /\ square b' (row d) (col d) = Some source
        /\ square b' (row s) (col s) = Some e
        /\ (forall r c, 0 <= r -> 0 <= c ->
              (r, c) <> (row d, col d) -> (r, c) <> (row s, col s) ->
              square b' r c = square b r c)
        /\ length <$> g = length <$> board b).
Proof.
  intros (Hs & Hsr & Hsc & Hsq) (Hd & Hdr & Hdc & Hdq) Hvalid.
  assert (Hne : source <> dest).
  { intros ->. rewrite Hs in Hd. injection Hd as ->.
    unfold piece_move_is_valid in Hvalid.
    rewrite side_eqb_refl in Hvalid. by destruct (kind d). }
  assert (Hpos : (row s, col s) <> (row d, col d)).
  { intros [= Hr Hc]. rewrite Hr, Hc in Hsq. congruence. }
  split; [done|]. split; [done|].
  unfold move_piece.
  rewrite (bind_deref _ _ _ _ Hs).
  rewrite (bind_deref _ _ _ _ Hd).
  cbv beta. rewrite Hvalid. change (negb true) with false. cbv beta iota.
  rewrite (bind_return (get_piece _ _) _ b b dest) by (rewrite get_piece_square, Hdq; reflexivity).
  rewrite (bind_deref _ _ _ _ Hd).
  split.
  - intros Hk. apply bind_raise.
    unfold perish. by rewrite Hk.
  - intros Hk.
    rewrite (bind_return (perish _ _) _ b b tt) by (unfold perish; destruct (kind d); done).
    destruct (set_square_spec b (row d) (col d) source dest) as (b1 & E1 & St1 & Sq1 & Fr1 & Sh1);
      [lia..|done|].
    destruct b1 as [st1 g1]; simpl in St1; subst st1.
    rewrite (bind_return (set_square _ _ _) _ _ _ _ E1).
    rewrite (bind_return (alloc _) _ _ (mkBoard (store b ++ [Empty]) g1) (length (store b))) by reflexivity.
    set (b2 := mkBoard (store b ++ [Empty]) g1).
    destruct (set_square_spec b2 (row s) (col s) (length (store b)) source)
      as (b3 & E3 & St3 & Sq3 & Fr3 & Sh3); [lia..| |].
    { change (square (mkBoard (store b) g1) (row s) (col s) = Some source).
      rewrite Fr1 by (done || lia). done. }
    destruct b3 as [st3 g3]; subst b2; simpl in St3; subst st3.
    rewrite (bind_return (set_square _ _ _) _ _ _ _ E3).
    assert (Hlt_s : (source < length (store b))%nat) by by eapply lookup_lt_Some.
    assert (Hlt_d : (dest < length (store b))%nat) by by eapply lookup_lt_Some.
    unfold set_position_at.
    erewrite bind_return; cycle 1.
    { erewrite bind_return by (rewrite get_piece_square, Sq3; reflexivity).
      erewrite bind_return; [reflexivity|].
      apply deref_some. simpl.
      by apply list_lookup_middle. }
    unfold assign at 1.
    erewrite bind_return; cycle 1.
    { apply deref_some. simpl.
      rewrite list_lookup_insert_ne by lia.
      rewrite lookup_app_l by lia. exact Hd. }
    erewrite bind_return; cycle 1.
    { apply deref_some. simpl.
      rewrite list_lookup_insert_ne by lia.
      rewrite lookup_app_l by lia. exact Hs. }
    erewrite bind_return by reflexivity.
    exists g3. simpl.
    split; [reflexivity|].
    split; [|split; [|split]].
    + change (square (mkBoard (store b ++ [Empty]) g3) (row d) (col d) = Some source).
      rewrite Fr3 by (lia || congruence). exact Sq1.
    + exact Sq3.
    + intros r c Hr Hc Hn1 Hn2.
      change (square (mkBoard (store b ++ [Empty]) g3) r c = square b r c).
      rewrite Fr3 by done. by apply Fr1.
    + simpl in Sh3, Sh1. by rewrite Sh3.
Qed.

(** Creating an object and putting it on a square that exists: the
    three statements [alloc], [self.board[r][c] = ...] and
    [self.board[r][c].set_position(r, c)] shared by [kill_piece],
    [set_new_piece] and [move_piece]. *)
Lemma place_run (b : Board) (r c : Z) (q : Piece) (y : Ref) :
  0 <= r -> 0 <= c -> square b r c = Some y ->
  exists g,
    let e := length (store b) in
    let b' := mkBoard (<[e := set_position q r c]> (store b ++ [q])) g in
    (do x <- alloc q; set_square r c x >> set_position_at r c) b = Return b' tt
    /\ square b' r c = Some e
    /\ (forall r' c', 0 <= r' -> 0 <= c' -> (r', c') <> (r, c) ->
          square b' r' c' = square b r' c')
    /\ length <$> g = length <$> board b.
Proof.
  intros Hr Hc Hsq.
  rewrite (bind_return (alloc _) _ _ (mkBoard (store b ++ [q]) (board b))
             (length (store b))) by reflexivity.
  destruct (set_square_spec (mkBoard (store b ++ [q]) (board b))
              r c (length (store b)) y)
    as (b3 & E3 & St3 & Sq3 & Fr3 & Sh3); [lia..|done|].
  destruct b3 as [st3 g3]; simpl in St3; subst st3.
  rewrite (bind_return (set_square _ _ _) _ _ _ _ E3).
  exists g3. simpl. split; [|split; [|split]].
  - unfold set_position_at.
    rewrite (bind_return (get_piece _ _) _ _ (mkBoard (store b ++ [q]) g3)
               (length (store b)))
      by (rewrite get_piece_square, Sq3; reflexivity).
    rewrite (bind_deref _ _ _ q) by by apply list_lookup_middle.
    reflexivity.
  - exact Sq3.
  - intros r' c' Hr' Hc' Hne.
    change (square (mkBoard (store b ++ [q]) g3) r' c' = square b r' c').
    by rewrite Fr3.
  - exact Sh3.
Qed.

(** [kill_piece] acts on the occupant of the square that the
    coordinates of [piece] name. *)
Lemma kill_piece_run (b : Board) (piece x : Ref) (p o : Piece) (turn : Side) :
  store b !! piece = Some p -> 0 <= row p -> 0 <= col p ->
  square b (row p) (col p) = Some x -> store b !! x = Some o ->
  (side p <> turn -> kill_piece piece turn b = Return b tt)
  /\ (side p = turn -> kind o = King ->
      kill_piece piece turn b = Raise b (Exception (perish_message o true)))
  /\ (side p = turn -> kind o <> King ->
      exists g,
        let e := length (store b) in
        let b' := mkBoard (<[e := set_position Empty (row p) (col p)]>
                             (store b ++ [Empty])) g in
        kill_piece piece turn b = Return b' tt
        /\ square b' (row p) (col p) = Some e
        /\ (forall r c, 0 <= r -> 0 <= c -> (r, c) <> (row p, col p) ->
              square b' r c = square b r c)
        /\ length <$> g = length <$> board b).
Proof.
  intros Hp Hr Hc Hsq Ho.
  unfold kill_piece. rewrite (bind_deref _ _ _ _ Hp). cbv beta.
  split; [|split].
  - intros Hne. apply side_eqb_neq in Hne. by rewrite Hne.
  - intros Hs Hk. apply side_eqb_eq in Hs. rewrite Hs.
    rewrite (bind_return (get_piece _ _) _ b b x)
      by (rewrite get_piece_square, Hsq; reflexivity).
    rewrite (bind_deref _ _ _ _ Ho).
    apply bind_raise. unfold perish. by rewrite Hk.
  - intros Hs Hk. apply side_eqb_eq in Hs. rewrite Hs.
    rewrite (bind_return (get_piece _ _) _ b b x)
      by (rewrite get_piece_square, Hsq; reflexivity).
    rewrite (bind_deref _ _ _ _ Ho).
    rewrite (bind_return (perish _ _) _ b b tt)
      by (unfold perish; destruct (kind o); done).
    destruct (place_run b (row p) (col p) Empty x Hr Hc Hsq) as (g & Hrun & Hrest).
    exists g. split; [exact Hrun | exact Hrest].
Qed.

(** [set_new_piece] on a square that exists, for a letter that names a
    kind. *)
Lemma set_new_piece_run (b : Board) (r c : Z) (letter : string) (k : Kind)
    (s : Side) (y : Ref) :
  0 <= r -> 0 <= c -> square b r c = Some y ->
  kind_of_letter letter = Some k ->
  exists g,
    let e := length (store b) in
    let b' := mkBoard (<[e := set_position (new_piece k s) r c]>
                         (store b ++ [new_piece k s])) g in
    set_new_piece r c letter s b = Return b' tt
    /\ square b' r c = Some e
    /\ (forall r' c', 0 <= r' -> 0 <= c' -> (r', c') <> (r, c) ->
          square b' r' c' = square b r' c')
    /\ length <$> g = length <$> board b.
Proof.
  intros Hr Hc Hsq Hk. unfold set_new_piece. rewrite Hk.
  by apply place_run with (y := y).
Qed.

(** * Ticks keep the layout *)

Lemma layout_tick (p : Piece) (ns : list Piece) (t : Side) (f : bool) :
  layout (tick p ns t f) = layout p.
Proof. unfold tick, layout. by repeat case_match. Qed.

Lemma readonly_ret {S A} (a : A) : readonly (@ret S A a).
Proof. by intros s. Qed.

Lemma readonly_bind {S A B} (m : M S A) (k : A -> M S B) :
  readonly m -> (forall a, readonly (k a)) -> readonly (bind m k).
Proof.
  intros Hm Hk s. unfold bind. specialize (Hm s).
  destruct (m s) as [s1 a|s1 x]; simpl in Hm; subst s1; [apply Hk|done].
Qed.

Lemma readonly_deref (x : Ref) : readonly (deref x).
Proof. intros b. unfold deref. by destruct (store b !! x). Qed.

Lemma readonly_get_piece (r c : Z) : readonly (get_piece r c).
Proof. intros b. rewrite get_piece_square. by destruct (square b r c). Qed.

Lemma readonly_map_m {S A B} (f : A -> M S B) (l : list A) :
  (forall x, readonly (f x)) -> readonly (map_m f l).
Proof.
  intros Hf. induction l as [|x l IH]; simpl; [apply readonly_ret|].
  apply readonly_bind; [apply Hf|]. intros y.
  apply readonly_bind; [apply IH|]. intros ys. apply readonly_ret.
Qed.

Lemma readonly_get_surrounding_pieces (x : Ref) :
  readonly (get_surrounding_pieces x).
Proof.
  unfold get_surrounding_pieces.
  apply readonly_bind; [apply readonly_deref|]. intros p.
  apply readonly_bind; [|intros; apply readonly_ret].
  apply readonly_map_m. intros [i j].
  repeat case_match; try apply readonly_ret.
  apply readonly_bind; [apply readonly_get_piece|]. intros; apply readonly_ret.
Qed.

Lemma readonly_return {S A} (m : M S A) (s s' : S) (a : A) :
  readonly m -> m s = Return s' a -> s' = s.
Proof. intros Hm E. specialize (Hm s). by rewrite E in Hm. Qed.

Lemma readonly_raise {S A} (m : M S A) (s s' : S) (x : exn) :
  readonly m -> m s = Raise s' x -> s' = s.
Proof. intros Hm E. specialize (Hm s). by rewrite E in Hm. Qed.

(** Inverting a [bind] that returned. *)
Lemma bind_inv {S A B} (m : M S A) (k : A -> M S B) (s s' : S) (b : B) :
  bind m k s = Return s' b ->
  exists s1 a, m s = Return s1 a /\ k a s1 = Return s' b.
Proof. unfold bind. destruct (m s) as [s1 a|]; [eauto|done]. Qed.

Lemma tick_piece_layout (t : Side) (f : bool) (x : Ref) (b b' : Board) (u : unit) :
  tick_piece t f x b = Return b' u ->
  board b' = board b /\ layouts b' = layouts b.
Proof.
  unfold tick_piece. intros E.
  apply bind_inv in E as (b1 & around & E1 & E).
  apply readonly_return in E1 as ->; [|apply readonly_get_surrounding_pieces].
  apply bind_inv in E as (b1 & p & E1 & E).
  pose proof E1 as Hp.
  apply readonly_return in E1 as ->; [|apply readonly_deref].
  apply bind_inv in E as (b1 & ps & E1 & E).
  apply readonly_return in E1 as ->;
    [|apply readonly_map_m; intros; apply readonly_deref].
  unfold assign in E. injection E as <-. simpl. split; [done|].
  unfold layouts; simpl. rewrite list_fmap_insert, layout_tick.
  apply list_insert_id. rewrite list_lookup_fmap.
  unfold deref in Hp. destruct (store b !! x); [|done].
  by injection Hp as ->.
Qed.

Lemma for_preserves {S A} (I : S -> Prop) (l : list A) (body : A -> M S unit) :
  (forall x s s' u, I s -> body x s = Return s' u -> I s') ->
  forall s s' u, I s -> for_ l body s = Return s' u -> I s'.
Proof.
  intros Hbody. induction l as [|x l IH]; intros s s' u Hs E; simpl in E.
  - by injection E as <-.
  - apply bind_inv in E as (s1 & u1 & E1 & E). eauto.
Qed.

Lemma tick_all_layout (t : Side) (f : bool) (b b' : Board) (u : unit) :
  tick_all t f b = Return b' u ->
  board b' = board b /\ layouts b' = layouts b.
Proof.
  unfold tick_all. intros E.
  apply bind_inv in E as (b1 & pieces & E1 & E).
  injection E1 as <- _.
  revert E. apply (for_preserves (fun b' => board b' = board b /\ layouts b' = layouts b));
    [|done].
  intros x s s' u' [Hb Hl] E. apply tick_piece_layout in E as [-> ->]. done.
Qed.

(** * The invariants of the board *)

Lemma layout_at_layouts (b b' : Board) (r c : Z) :
  board b' = board b -> layouts b' = layouts b ->
  layout_at b' r c = layout_at b r c.
Proof. unfold layout_at, square. by intros -> ->. Qed.

Lemma born_ext (s : Side) (n : nat) (l l' : list Piece) :
  (fun p => (kind p, side p)) <$> l = (fun p => (kind p, side p)) <$> l' ->
  kind <$> filter (fun p => side p = s) (drop n l)
  = kind <$> filter (fun p => side p = s) (drop n l').
Proof.
  intros H.
  assert (HF : Forall2 (fun p p' => kind p = kind p' /\ side p = side p') l l').
  { revert l' H. induction l as [|p l IH]; intros [|p' l'] H;
      try discriminate; [constructor|].
    rewrite !fmap_cons in H.
    constructor; [split; congruence|]. apply IH. congruence. }
  apply (Forall2_drop _ _ _ n) in HF.
  induction HF as [|p p' k k' [Hk Hs] HF IH]; [done|].
  rewrite !filter_cons.
  rewrite Hs. case_decide; rewrite ?fmap_cons, ?Hk, IH; done.
Qed.

Lemma born_layouts (s : Side) (b b' : Board) :
  layouts b' = layouts b -> born s b' = born s b.
Proof.
  intros H. apply born_ext.
  change (fun p => (kind p, side p)) with (fst ∘ fst ∘ layout).
  rewrite !(list_fmap_compose layout). unfold layouts in H. by rewrite H.
Qed.

(** The births recorded by a store that differs from [st ++ [q]] in
    coordinates only. *)
Lemma born_snoc (s : Side) (b : Board) (q : Piece) (st : list Piece)
    (g : list (list Ref)) :
  (initial_objects <= length (store b))%nat ->
  (fun p => (kind p, side p)) <$> st
  = (fun p => (kind p, side p)) <$> (store b ++ [q]) ->
  born s (mkBoard st g)
  = born s b ++ (if decide (side q = s) then [kind q] else []).
Proof.
  intros Hlen H. unfold born.
  change (store (mkBoard st g)) with st. rewrite (born_ext s _ _ _ H).
  rewrite drop_app_le by done.
  rewrite filter_app, fmap_app. f_equal.
  rewrite filter_cons, filter_nil. by case_decide.
Qed.

Lemma board_ok_layouts (b b' : Board) :
  board b' = board b -> layouts b' = layouts b -> board_ok b -> board_ok b'.
Proof.
  intros Hb Hl [Hsh Hpos Hking Hst]. split.
  - unfold shape. by rewrite Hb.
  - intros r c Hr Hc. rewrite (layout_at_layouts b b') by done. by apply Hpos.
  - intros s r c r' c' Hr Hc Hr' Hc'.
    rewrite !(layout_at_layouts b b') by done. by apply Hking.
  - assert (length (layouts b') = length (layouts b)) as H by by rewrite Hl.
    unfold layouts in H. rewrite !length_fmap in H. by rewrite H.
Qed.

Lemma py_getitem_lookup {A} (l : list A) (i : Z) (x : A) :
  py_getitem l i = Some x -> exists n, l !! n = Some x.
Proof. unfold py_getitem. destruct (py_norm (length l) i); [eauto|done]. Qed.

Lemma shape_lookup (b : Board) (i j : nat) (l : list Ref) (x : Ref) :
  shape b -> board b !! i = Some l -> l !! j = Some x ->
  0 <= Z.of_nat i < 8 /\ 0 <= Z.of_nat j < 8
  /\ square b (Z.of_nat i) (Z.of_nat j) = Some x.
Proof.
  intros Hsh Hl Hx.
  assert (Hi : (i < 8)%nat).
  { apply lookup_lt_Some in Hl.
    assert (length (length <$> board b) = 8%nat) as H by by rewrite Hsh.
    rewrite length_fmap in H. lia. }
  assert (Hj : (j < 8)%nat).
  { apply lookup_lt_Some in Hx.
    assert ((length <$> board b) !! i = Some (length l)) as H
      by by rewrite list_lookup_fmap, Hl.
    rewrite Hsh in H. apply lookup_replicate in H as [<- _]. done. }
  split; [lia|]. split; [lia|].
  apply square_lookup; [lia..|]. rewrite !Nat2Z.id. eauto.
Qed.

Lemma square_in_range (b : Board) (r c : Z) (x : Ref) :
  shape b -> square b r c = Some x ->
  exists r' c', 0 <= r' < 8 /\ 0 <= c' < 8 /\ square b r' c' = Some x.
Proof.
  intros Hsh Hsq. unfold square in Hsq.
  destruct (py_getitem (board b) r) as [l|] eqn:Hl; [|done].
  apply py_getitem_lookup in Hl as [i Hi].
  apply py_getitem_lookup in Hsq as [j Hj].
  destruct (shape_lookup b i j l x Hsh Hi Hj) as (? & ? & ?). eauto.
Qed.

Lemma get_pieces_in_range (b : Board) (x : Ref) :
  shape b -> x ∈ concat (board b) ->
  exists r c, 0 <= r < 8 /\ 0 <= c < 8 /\ square b r c = Some x.
Proof.
  intros Hsh Hx. apply list_elem_of_In, in_concat in Hx as (l & Hl & Hx).
  apply list_elem_of_In, list_elem_of_lookup in Hl as [i Hi].
  apply list_elem_of_In, list_elem_of_lookup in Hx as [j Hj].
  destruct (shape_lookup b i j l x Hsh Hi Hj) as (? & ? & ?). eauto.
Qed.

(** An object on a square of a well-formed board stands on the square
    its coordinates name. *)
Lemma positions_on_its_square (b : Board) (r c : Z) (x : Ref) :
  positions b -> 0 <= r < 8 -> 0 <= c < 8 -> square b r c = Some x ->
  exists p, on_its_square b x p /\ row p = r /\ col p = c.
Proof.
  intros Hpos Hr Hc Hsq. destruct (Hpos r c Hr Hc) as (k & s & Hl).
  unfold layout_at in Hl. rewrite Hsq in Hl.
  unfold layouts in Hl. rewrite list_lookup_fmap in Hl.
  destruct (store b !! x) as [p|] eqn:Hp; [|done].
  injection Hl as _ _ Hrow Hcol. exists p.
  unfold on_its_square. rewrite Hrow, Hcol. done.
Qed.

Lemma layout_at_piece_at (b : Board) (r c : Z) :
  layout_at b r c = layout <$> piece_at b r c.
Proof.
  unfold layout_at, piece_at. destruct (square b r c); [|done].
  unfold layouts. by rewrite list_lookup_fmap.
Qed.

(** ** Placing a new object on a square *)

Section Placed.

Variables (b : Board) (r c : Z) (q : Piece) (g : list (list Ref)).

Let e := length (store b).
Let b' := mkBoard (<[e := set_position q r c]> (store b ++ [q])) g.

Hypothesis Hpos : positions b.
Hypothesis Hr : 0 <= r < 8.
Hypothesis Hc : 0 <= c < 8.
Hypothesis Hsq : square b' r c = Some e.
Hypothesis Hframe : forall r' c', 0 <= r' -> 0 <= c' -> (r', c') <> (r, c) ->
  square b' r' c' = square b r' c'.
Hypothesis Hshape : length <$> g = length <$> board b.

Lemma placed_layouts : layouts b' = layouts b ++ [(kind q, side q, r, c)].
Proof.
  unfold layouts, b'; simpl. rewrite list_fmap_insert, fmap_app. simpl.
  replace e with (length (layout <$> store b) + 0)%nat
    by (rewrite length_fmap; unfold e; lia).
  by rewrite insert_app_r.
Qed.

Lemma placed_layout_at_new : layout_at b' r c = Some (kind q, side q, r, c).
Proof.
  unfold layout_at. rewrite Hsq, placed_layouts.
  apply list_lookup_middle. unfold layouts. by rewrite length_fmap.
Qed.

Lemma placed_layout_at_old (r' c' : Z) :
  0 <= r' < 8 -> 0 <= c' < 8 -> (r', c') <> (r, c) ->
  layout_at b' r' c' = layout_at b r' c'.
Proof.
  intros Hr' Hc' Hne. unfold layout_at. rewrite Hframe by (lia || done).
  destruct (Hpos r' c' Hr' Hc') as (k & s & Hl).
  unfold layout_at in Hl. destruct (square b r' c') as [x|]; [|done].
  rewrite placed_layouts. apply lookup_app_l. by eapply lookup_lt_Some.
Qed.

Lemma placed_shape : shape b -> shape b'.
Proof. unfold shape; simpl. by rewrite Hshape. Qed.

Lemma placed_positions : positions b'.
Proof.
  intros r' c' Hr' Hc'.
  destruct (decide ((r', c') = (r, c))) as [[= -> ->]|Hne].
  - rewrite placed_layout_at_new. eauto.
  - rewrite placed_layout_at_old by done. by apply Hpos.
Qed.

Lemma placed_store_old (x : Ref) (p : Piece) :
  store b !! x = Some p -> store b' !! x = Some p.
Proof.
  intros Hx. apply lookup_lt_Some in Hx as Hlt. simpl.
  rewrite list_lookup_insert_ne by (unfold e; lia). by rewrite lookup_app_l.
Qed.

Lemma placed_piece_at_new : piece_at b' r c = Some (set_position q r c).
Proof.
  unfold piece_at. rewrite Hsq. simpl.
  apply list_lookup_insert_eq. rewrite length_app; simpl. unfold e. lia.
Qed.

Lemma placed_piece_at_old (r' c' : Z) :
  0 <= r' < 8 -> 0 <= c' < 8 -> (r', c') <> (r, c) ->
  piece_at b' r' c' = piece_at b r' c'.
Proof.
  intros Hr' Hc' Hne. unfold piece_at. rewrite Hframe by (lia || done).
  destruct (Hpos r' c' Hr' Hc') as (k & s & Hl).
  unfold layout_at in Hl. destruct (square b r' c') as [x|]; [|done].
  unfold layouts in Hl. rewrite list_lookup_fmap in Hl.
  destruct (store b !! x) as [p|] eqn:Hp; [|done].
  by apply placed_store_old.
Qed.

Lemma placed_ok : board_ok b -> kind q <> King -> board_ok b'.
Proof.
  intros Hok Hk. split.
  - apply placed_shape, Hok.
  - apply placed_positions.
  - intros s r1 c1 r2 c2 Hr1 Hc1 Hr2 Hc2 H1 H2.
    destruct (decide ((r1, c1) = (r, c))) as [[= -> ->]|Hne1].
    { rewrite placed_layout_at_new in H1. congruence. }
    destruct (decide ((r2, c2) = (r, c))) as [[= -> ->]|Hne2].
    { rewrite placed_layout_at_new in H2. congruence. }
    rewrite placed_layout_at_old in H1, H2 by done.
    by eapply (ok_one_king b Hok).
  - simpl. rewrite length_insert, length_app. pose proof (ok_store b Hok). lia.
Qed.

Lemma placed_born (s : Side) :
  (initial_objects <= length (store b))%nat ->
  born s b' = born s b ++ (if decide (side q = s) then [kind q] else []).
Proof.
  intros Hlen. apply born_snoc; [done|].
  rewrite list_fmap_insert. apply list_insert_id.
  rewrite list_lookup_fmap. unfold e. by rewrite list_lookup_middle.
Qed.

End Placed.

(** ** Moving a piece *)

Section Moved.

Variables (b : Board) (source dest : Ref) (s d : Piece) (g : list (list Ref)).

Let e := length (store b).
Let b' := mkBoard (<[source := set_position s (row d) (col d)]>
                     (<[e := set_position Empty (row s) (col s)]>
                        (store b ++ [Empty]))) g.

Hypothesis Hok : board_ok b.
Hypothesis Hs : on_its_square b source s.
Hypothesis Hd : on_its_square b dest d.
Hypothesis Hne : (row s, col s) <> (row d, col d).
Hypothesis Hking : kind d <> King.
Hypothesis Hdst : square b' (row d) (col d) = Some source.
Hypothesis Hsrc : square b' (row s) (col s) = Some e.
Hypothesis Hframe : forall r c, 0 <= r -> 0 <= c ->
  (r, c) <> (row d, col d) -> (r, c) <> (row s, col s) ->
  square b' r c = square b r c.
Hypothesis Hshape : length <$> g = length <$> board b.

Lemma moved_source_lt : (source < e)%nat.
Proof. destruct Hs as (H & _). by apply lookup_lt_Some in H. Qed.

Lemma moved_layouts :
  layouts b' = <[source := (kind s, side s, row d, col d)]>
                 (layouts b ++ [(EmptySq, NoSide, row s, col s)]).
Proof.
  unfold layouts, b'; simpl. rewrite !list_fmap_insert, fmap_app. simpl.
  f_equal.
  replace e with (length (layout <$> store b) + 0)%nat
    by (rewrite length_fmap; unfold e; lia).
  by rewrite insert_app_r.
Qed.

Lemma moved_layout_at_dest :
  layout_at b' (row d) (col d) = Some (kind s, side s, row d, col d).
Proof.
  unfold layout_at. rewrite Hdst, moved_layouts.
  apply list_lookup_insert_eq. unfold layouts. rewrite length_app, length_fmap.
  pose proof moved_source_lt. unfold e in *. simpl. lia.
Qed.

Lemma moved_layout_at_source :
  layout_at b' (row s) (col s) = Some (EmptySq, NoSide, row s, col s).
Proof.
  unfold layout_at. rewrite Hsrc, moved_layouts.
  pose proof moved_source_lt.
  rewrite list_lookup_insert_ne by lia.
  apply list_lookup_middle. unfold layouts. by rewrite length_fmap.
Qed.

Lemma moved_layout_at_old (r c : Z) :
  0 <= r < 8 -> 0 <= c < 8 ->
  (r, c) <> (row d, col d) -> (r, c) <> (row s, col s) ->
  layout_at b' r c = layout_at b r c.
Proof.
  intros Hr Hc Hn1 Hn2. unfold layout_at. rewrite Hframe by (lia || done).
  destruct (ok_positions b Hok r c Hr Hc) as (k & s0 & Hl).
  unfold layout_at in Hl. destruct (square b r c) as [x|]; [|done].
  rewrite moved_layouts.
  assert (x <> source).
  { intros ->. destruct Hs as (Hst & _).
    unfold layouts in Hl. rewrite list_lookup_fmap, Hst in Hl.
    injection Hl as _ _ Hrow Hcol. congruence. }
  rewrite list_lookup_insert_ne by done.
  apply lookup_app_l. by eapply lookup_lt_Some.
Qed.

Lemma moved_layout_at_source_before :
  layout_at b (row s) (col s) = Some (kind s, side s, row s, col s).
Proof.
  destruct Hs as (Hst & _ & _ & Hsq). unfold layout_at. rewrite Hsq.
  unfold layouts. by rewrite list_lookup_fmap, Hst.
Qed.

Lemma moved_ok : board_ok b'.
Proof.
  destruct Hs as (_ & Hsr & Hsc & _). destruct Hd as (_ & Hdr & Hdc & _).
  split.
  - unfold shape; simpl. rewrite Hshape. apply Hok.
  - intros r c Hr Hc.
    destruct (decide ((r, c) = (row d, col d))) as [[= -> ->]|Hn1].
    { rewrite moved_layout_at_dest. eauto. }
    destruct (decide ((r, c) = (row s, col s))) as [[= -> ->]|Hn2].
    { rewrite moved_layout_at_source. eauto. }
    rewrite moved_layout_at_old by done. by apply Hok.
  - intros s0 r1 c1 r2 c2 Hr1 Hc1 Hr2 Hc2 H1 H2.
    destruct (decide ((r1, c1) = (row s, col s))) as [[= -> ->]|Hs1].
    { rewrite moved_layout_at_source in H1. congruence. }
    destruct (decide ((r2, c2) = (row s, col s))) as [[= -> ->]|Hs2].
    { rewrite moved_layout_at_source in H2. congruence. }
    pose proof moved_layout_at_source_before as Hbefore.
    destruct (decide ((r1, c1) = (row d, col d))) as [[= -> ->]|Hd1];
      destruct (decide ((r2, c2) = (row d, col d))) as [[= -> ->]|Hd2];
      [done| | |].
    + rewrite moved_layout_at_dest in H1. injection H1 as Hk Hsd.
      rewrite moved_layout_at_old in H2 by done.
      rewrite Hk, Hsd in Hbefore.
      exfalso. apply Hs2.
      by apply (ok_one_king b Hok s0 r2 c2 (row s) (col s)).
    + rewrite moved_layout_at_dest in H2. injection H2 as Hk Hsd.
      rewrite moved_layout_at_old in H1 by done.
      rewrite Hk, Hsd in Hbefore.
      exfalso. apply Hs1.
      by apply (ok_one_king b Hok s0 r1 c1 (row s) (col s)).
    + rewrite moved_layout_at_old in H1, H2 by done.
      by eapply (ok_one_king b Hok).
  - simpl. rewrite !length_insert, length_app. pose proof (ok_store b Hok). lia.
Qed.

Lemma moved_born (s0 : Side) : s0 <> NoSide -> born s0 b' = born s0 b.
Proof.
  intros Hs0. unfold b'. rewrite (born_snoc s0 b Empty); [|apply Hok|].
  - simpl. case_decide; [congruence|]. by rewrite app_nil_r.
  - destruct Hs as (Hst & _). pose proof moved_source_lt.
    rewrite list_fmap_insert. rewrite list_insert_id.
    + rewrite list_fmap_insert. apply list_insert_id.
      rewrite list_lookup_fmap. unfold e. by rewrite list_lookup_middle.
    + rewrite list_lookup_fmap, list_lookup_insert_ne by lia.
      rewrite lookup_app_l by done. by rewrite Hst.
Qed.

End Moved.

(** * The birth queues *)

Lemma rotate_S (n : nat) (q : list string) :
  rotate (S n) q = rotate n (rotate1 q).
Proof. unfold rotate. by rewrite Nat.iter_succ_r. Qed.

Lemma rotate_nil (n : nat) : rotate n [] = [].
Proof. induction n as [|n IH]; [done|]. by rewrite rotate_S. Qed.

Lemma rotate1_length (q : list string) : length (rotate1 q) = length q.
Proof. destruct q; simpl; [done|]. rewrite length_app; simpl; lia. Qed.

Lemma rotate_length (n : nat) (q : list string) : length (rotate n q) = length q.
Proof.
  induction n as [|n IH]; [done|]. unfold rotate in *; simpl.
  by rewrite rotate1_length.
Qed.

Lemma rotate1_elem (q : list string) (x : string) : x ∈ rotate1 q -> x ∈ q.
Proof.
  destruct q as [|k rest]; simpl; [done|].
  rewrite elem_of_app, !elem_of_cons, elem_of_nil. tauto.
Qed.

Lemma rotate_elem (n : nat) (q : list string) (x : string) :
  x ∈ rotate n q -> x ∈ q.
Proof.
  induction n as [|n IH]; [done|]. unfold rotate in *; simpl.
  intros H. by apply IH, rotate1_elem.
Qed.

(** The next birth pops the front of the rotated queue. *)
Lemma spawned_snoc (n : nat) (q : list string) (k : string) (rest : list string) :
  rotate n q = k :: rest -> spawned (S n) q = spawned n q ++ [k].
Proof.
  revert q. induction n as [|n IH]; intros q H.
  - unfold rotate in H; simpl in H. by subst q.
  - rewrite rotate_S in H. destruct q as [|k0 rest0].
    + simpl in H. by rewrite rotate_nil in H.
    + simpl in H. specialize (IH _ H).
      change (spawned (S (S n)) (k0 :: rest0))
        with (k0 :: spawned (S n) (rest0 ++ [k0])).
      rewrite IH. reflexivity.
Qed.





Lemma seed_queue_kinds (x : string) :
  x ∈ seed_queue -> exists k, kind_of_letter x = Some k /\ k <> King.
Proof.
  unfold seed_queue. rewrite !elem_of_cons, elem_of_nil.
  intros H. repeat (destruct H as [->|H]; [eexists; split; [reflexivity|discriminate]|]).
  done.
Qed.

(** * The invariant of the engine *)

Lemma in_range_cases (r : Z) :
  0 <= r < 8 -> r = 0 \/ r = 1 \/ r = 2 \/ r = 3 \/ r = 4 \/ r = 5 \/ r = 6 \/ r = 7.
Proof. lia. Qed.

Ltac each_square r c Hr Hc :=
  apply in_range_cases in Hr; apply in_range_cases in Hc;
  repeat (destruct Hr as [->|Hr]); try subst r;
  repeat (destruct Hc as [->|Hc]); try subst c.

Lemma Engine_init_returns : Engine_init = Return initial_engine tt.
Proof. vm_compute. reflexivity. Qed.

Lemma initial_king_square (s : Side) (r c : Z) :
  0 <= r < 8 -> 0 <= c < 8 ->
  layout_at (engine_board initial_engine) r c = Some (King, s, r, c) ->
  (r, c) = (if side_eqb s White then 0 else 7, 4).
Proof.
  intros Hr Hc. each_square r c Hr Hc; vm_compute; intros H;
    try discriminate; by injection H as <-.
Qed.

Lemma initial_board_ok : board_ok (engine_board initial_engine).
Proof.
  split.
  - vm_compute. reflexivity.
  - intros r c Hr Hc. each_square r c Hr Hc; vm_compute; eauto.
  - intros s r c r' c' Hr Hc Hr' Hc' H1 H2.
    apply initial_king_square in H1, H2; [|done..]. congruence.
  - vm_compute. lia.
Qed.

Lemma initial_engine_ok : engine_ok initial_engine.
Proof.
  split.
  - apply initial_board_ok.
  - intros x H. vm_compute in H. discriminate.
  - split; vm_compute; reflexivity.
  - split; vm_compute; reflexivity.
Qed.

Lemma with_board_id (e : Engine) : with_board e (engine_board e) = e.
Proof. by destruct e. Qed.

Lemma on_board_inv {A} (m : M Board A) (e e' : Engine) (a : A) :
  on_board m e = Return e' a ->
  exists b', m (engine_board e) = Return b' a /\ e' = with_board e b'.
Proof.
  unfold on_board. destruct (m (engine_board e)) as [b' a'|]; [|done].
  intros [= <- <-]. eauto.
Qed.

Lemma on_board_readonly {A} (m : M Board A) (e e' : Engine) (a : A) :
  readonly m -> on_board m e = Return e' a ->
  e' = e /\ m (engine_board e) = Return (engine_board e) a.
Proof.
  intros Hm E. apply on_board_inv in E as (b' & E & ->).
  apply readonly_return in E as Hb; [|done]. subst b'.
  by rewrite with_board_id.
Qed.

Lemma get_piece_inv (r c : Z) (b b' : Board) (x : Ref) :
  get_piece r c b = Return b' x -> square b r c = Some x.
Proof. rewrite get_piece_square. destruct (square b r c); congruence. Qed.

Lemma deref_inv (x : Ref) (b b' : Board) (p : Piece) :
  deref x b = Return b' p -> store b !! x = Some p.
Proof. unfold deref. destruct (store b !! x); congruence. Qed.

Lemma engine_ok_ext (e e' : Engine) :
  engine_board e' = engine_board e ->
  selected_piece e' = selected_piece e ->
  white_birth_queue e' = white_birth_queue e ->
  black_birth_queue e' = black_birth_queue e ->
  engine_ok e -> engine_ok e'.
Proof.
  intros Hb Hs Hw Hk [H1 H2 H3 H4]. split.
  - by rewrite Hb.
  - unfold selected_ok. by rewrite Hs, Hb.
  - unfold queue_ok, queue_of in *. by rewrite Hb, Hw.
  - unfold queue_ok, queue_of in *. by rewrite Hb, Hk.
Qed.

Lemma engine_ok_queue (e : Engine) (s : Side) :
  engine_ok e -> s <> NoSide -> queue_ok s e.
Proof. intros [_ _ Hw Hb] Hs. by destruct s. Qed.

Lemma queue_of_set_queue (s s' : Side) (q : list string) (e : Engine) :
  s <> NoSide ->
  queue_of s' (set_queue s q e) = if decide (s' = s) then q else queue_of s' e.
Proof. intros Hs. by destruct s, s'. Qed.

Lemma set_queue_fields (s : Side) (q : list string) (e : Engine) :
  engine_board (set_queue s q e) = engine_board e
  /\ selected_piece (set_queue s q e) = selected_piece e
  /\ current_turn (set_queue s q e) = current_turn e.
Proof. by destruct s. Qed.

(** One birth keeps the invariant: the new piece is not a King, the
    queue is rotated once and the birth is recorded once. *)
Lemma birth_ok (s : Side) (i j : Z) (e e' : Engine) (u : unit) :
  s <> NoSide -> 0 <= i < 8 -> 0 <= j < 8 ->
  engine_ok e -> selected_piece e = None ->
  birth s i j e = Return e' u ->
  engine_ok e' /\ selected_piece e' = None /\ current_turn e' = current_turn e.
Proof.
  intros Hs Hi Hj Hok Hsel E. unfold birth in E.
  apply bind_inv in E as (e1 & x & E1 & E).
  apply on_board_readonly in E1 as [-> E1]; [|apply readonly_get_piece].
  apply get_piece_inv in E1 as Hsq.
  apply bind_inv in E as (e1 & piece & E2 & E).
  apply on_board_readonly in E2 as [-> E2]; [|apply readonly_deref].
  destruct (side_eqb (side piece) NoSide); [|by injection E as <-].
  destruct (birth_counter s piece =? 3); [|by injection E as <-].
  apply bind_inv in E as (e1 & e0 & E3 & E). injection E3 as <- <-.
  destruct (queue_of s e) as [|letter rest] eqn:Hq; [done|].
  apply bind_inv in E as (e1 & u1 & E3 & E). injection E3 as <- _.
  apply bind_inv in E as (e2 & u2 & E3 & E).
  apply on_board_inv in E3 as (b' & E3 & ->).
  unfold modify in E. injection E as <-.
  destruct (set_queue_fields s rest e) as (Hb1 & Hs1 & Ht1).
  rewrite Hb1 in E3.
  set (e2 := with_board (set_queue s rest e) b') in *.
  assert (Hq2 : queue_of s e2 = rest).
  { transitivity (queue_of s (set_queue s rest e)); [by destruct s|].
    rewrite queue_of_set_queue by done. by rewrite decide_True. }
  rewrite Hq2.
  destruct (engine_ok_queue e s Hok Hs) as [Hrot Hborn].
  set (n := length (born s (engine_board e))) in *.
  destruct (seed_queue_kinds letter) as (k & Hk & Hnk).
  { apply (rotate_elem n). rewrite <- Hrot, Hq. apply list_elem_of_here. }
  destruct (set_new_piece_run (engine_board e) i j letter k s x) as (g & Hrun & Hnew & Hframe & Hshape);
    [lia | lia | done | done |].
  rewrite Hrun in E3. injection E3 as <-.
  pose proof (ok_board e Hok) as Hbok.
  destruct (set_queue_fields s (rest ++ [letter]) e2) as (Hb3 & Hs3 & Ht3).
  split; [|split].
  - assert (Hall : forall s', s' <> NoSide ->
              queue_ok s' (set_queue s (rest ++ [letter]) e2)).
    { intros s' Hs'. unfold queue_ok. rewrite Hb3. unfold e2 at 1 2; simpl.
      rewrite (placed_born (engine_board e) i j (new_piece k s) g s') by apply Hbok; simpl.
      rewrite queue_of_set_queue by done.
      destruct (decide (s' = s)) as [->|Hne].
      - rewrite decide_True by done.
        rewrite length_app; simpl. fold n.
        replace (n + 1)%nat with (S n) by lia.
        change (rotate (S n) seed_queue) with (rotate1 (rotate n seed_queue)).
        rewrite <- Hrot, Hq. split; [done|].
        rewrite (spawned_snoc n seed_queue letter rest) by by rewrite <- Hrot.
        rewrite !fmap_app, Hborn. simpl. by rewrite Hk.
      - rewrite decide_False by done. rewrite app_nil_r.
        destruct (engine_ok_queue e s' Hok Hs') as [Hrot' Hborn'].
        split; [|exact Hborn']. rewrite <- Hrot'. unfold e2.
        destruct s, s'; first [reflexivity | exfalso; (apply Hne || apply Hs || apply Hs'); reflexivity]. }
    split.
    + rewrite Hb3. unfold e2; simpl.
      apply (placed_ok (engine_board e) i j (new_piece k s) g); try done; apply Hbok.
    + intros y Hy. rewrite Hs3 in Hy. unfold e2 in Hy; simpl in Hy.
      rewrite Hs1, Hsel in Hy. discriminate.
    + by apply Hall.
    + by apply Hall.
  - rewrite Hs3. unfold e2; simpl. by rewrite Hs1.
  - rewrite Ht3. unfold e2; simpl. by rewrite Ht1.
Qed.

Lemma range_8_in (i : Z) : i ∈ range 8 -> 0 <= i < 8.
Proof.
  unfold range. simpl. rewrite !elem_of_cons, elem_of_nil. lia.
Qed.

Lemma birth_pass_ok (e e' : Engine) (u : unit) :
  engine_ok e -> selected_piece e = None ->
  birth_pass e = Return e' u ->
  engine_ok e' /\ selected_piece e' = None /\ current_turn e' = current_turn e.
Proof.
  intros Hok Hsel E. unfold birth_pass in E.
  apply bind_inv in E as (e1 & e0 & E1 & E). injection E1 as <- <-.
  set (I := fun e' : Engine =>
    engine_ok e' /\ selected_piece e' = None /\ current_turn e' = current_turn e).
  assert (Hrows : forall (s : Side) (rows : list Z) e1 e2 u',
    s <> NoSide -> (forall i, i ∈ rows -> 0 <= i < 8) -> I e1 ->
    for_ rows (fun i => for_ (range 8) (fun j => birth s i j)) e1 = Return e2 u' ->
    I e2).
  { intros s rows. induction rows as [|i rows IH]; intros e1 e2 u' Hs Hrows HI E1;
      simpl in E1.
    - by injection E1 as <-.
    - apply bind_inv in E1 as (e3 & u3 & E3 & E1).
      apply (IH e3 e2 u'); [done| |  |done].
      + intros i' Hi'. apply Hrows. by apply list_elem_of_further.
      + assert (Hi : 0 <= i < 8) by (apply Hrows; apply list_elem_of_here).
        clear E1 IH. revert HI E3.
        assert (Hcols : forall cols e1 e2 u', (forall j, j ∈ cols -> 0 <= j < 8) ->
          I e1 -> for_ cols (fun j => birth s i j) e1 = Return e2 u' -> I e2).
        { intros cols. induction cols as [|j cols IHc]; intros ea eb ub Hcols HI Ex;
            simpl in Ex.
          - by injection Ex as <-.
          - apply bind_inv in Ex as (ec & uc & Ec & Ex).
            apply (IHc ec eb ub); [|  |done].
            + intros j' Hj'. apply Hcols. by apply list_elem_of_further.
            + destruct HI as (H1 & H2 & H3).
              apply birth_ok in Ec as (H1' & H2' & H3'); [|done| |  |done..].
              * unfold I. by rewrite H3'.
              * done.
              * apply Hcols. apply list_elem_of_here. }
        intros HI E3. by apply (Hcols (range 8) e1 e3 u3); [apply range_8_in|..]. }
  destruct (current_turn e) eqn:Ht.
  - apply (Hrows White (range 8) e e' u); [done|apply range_8_in| |done].
    unfold I. by rewrite Ht.
  - apply (Hrows Black (reversed (range 8)) e e' u); [done| | |done].
    + intros i Hi. apply range_8_in. unfold reversed in Hi.
      apply list_elem_of_In, in_rev in Hi. by apply list_elem_of_In.
    + unfold I. by rewrite Ht.
  - by injection E as <-.
Qed.

Lemma get_pieces_in_range_refs (b : Board) :
  board_ok b -> in_range_refs b (concat (board b)).
Proof.
  intros Hok. apply Forall_forall. intros x Hx.
  apply get_pieces_in_range in Hx as (r & c & Hr & Hc & Hsq); [|apply Hok].
  destruct (positions_on_its_square b r c x) as (p & (Hp & ? & ? & _) & _);
    [apply Hok|done..|]. eauto.
Qed.

Lemma death_loop_ok (pieces : list Ref) (e e' : Engine) (r : bool) :
  engine_ok e -> selected_piece e = None ->
  in_range_refs (engine_board e) pieces ->
  death_loop pieces e = Return e' r ->
  engine_ok e' /\ selected_piece e' = None.
Proof.
  revert e. induction pieces as [|piece rest IH]; intros e Hok Hsel Hin E;
    simpl in E.
  - by injection E as <-.
  - apply Forall_cons in Hin as [(p & Hp & Hr & Hc) Hin].
    apply bind_inv in E as (e1 & p' & E1 & E).
    apply on_board_readonly in E1 as [-> E1]; [|apply readonly_deref].
    apply deref_inv in E1. rewrite Hp in E1. injection E1 as <-.
    destruct (death_counter p =? 4); [|by apply (IH e)].
    apply bind_inv in E as (e1 & e0 & E1 & E). injection E1 as <- <-.
    pose proof (ok_board e Hok) as Hbok.
    destruct (ok_positions _ Hbok (row p) (col p) Hr Hc) as (k & s & Hl).
    unfold layout_at in Hl.
    destruct (square (engine_board e) (row p) (col p)) as [x|] eqn:Hsq; [|done].
    unfold layouts in Hl. rewrite list_lookup_fmap in Hl.
    destruct (store (engine_board e) !! x) as [o|] eqn:Ho; [|done].
    destruct (kill_piece_run (engine_board e) piece x p o (current_turn e)
                Hp (proj1 Hr) (proj1 Hc) Hsq Ho) as (Hnoop & Hking & Hkill).
    apply bind_inv in E as (e1 & alive & E1 & E).
    unfold try_except, bind, on_board in E1.
    destruct (decide (side p = current_turn e)) as [Hside|Hside].
    + destruct (decide (kind o = King)) as [Hk|Hk].
      * rewrite (Hking Hside Hk) in E1. simpl in E1.
        unfold modify, ret in E1. injection E1 as <- <-.
        injection E as <- _. rewrite with_board_id. split; [|done].
        by apply (engine_ok_ext e).
      * destruct (Hkill Hside Hk) as (g & Hrun & Hnew & Hframe & Hshape).
        rewrite Hrun in E1. unfold ret in E1. injection E1 as <- <-.
        apply IH in E; [done| |done|].
        -- split.
           ++ simpl. apply (placed_ok (engine_board e) (row p) (col p) Empty g); try done; apply Hbok.
           ++ intros y Hy. simpl in Hy. congruence.
           ++ destruct (ok_white e Hok) as [Hq Hb]. unfold queue_ok; simpl.
              rewrite (placed_born (engine_board e) (row p) (col p) Empty g) by apply Hbok.
              rewrite decide_False by discriminate.
              rewrite app_nil_r. split; [exact Hq | exact Hb].
           ++ destruct (ok_black e Hok) as [Hq Hb]. unfold queue_ok; simpl.
              rewrite (placed_born (engine_board e) (row p) (col p) Empty g) by apply Hbok.
              rewrite decide_False by discriminate.
              rewrite app_nil_r. split; [exact Hq | exact Hb].
        -- unfold in_range_refs in *. eapply Forall_impl; [exact Hin|].
           intros y (q & Hq & Hqr & Hqc). exists q. split; [|done].
           apply lookup_lt_Some in Hq as Hlt.
           cbn [store engine_board with_board].
           rewrite list_lookup_insert_ne by lia. by rewrite lookup_app_l.
    + rewrite (Hnoop Hside) in E1. unfold ret in E1. injection E1 as <- <-.
      rewrite with_board_id in E. by apply (IH e).
Qed.

Lemma death_pass_ok (e e' : Engine) (r : bool) :
  engine_ok e -> selected_piece e = None ->
  death_pass e = Return e' r ->
  engine_ok e' /\ selected_piece e' = None.
Proof.
  intros Hok Hsel E. unfold death_pass in E.
  apply bind_inv in E as (e1 & pieces & E1 & E).
  apply on_board_inv in E1 as (b' & E1 & ->). injection E1 as <- <-.
  rewrite with_board_id in E.
  apply death_loop_ok in E; [done..|].
  apply get_pieces_in_range_refs, Hok.
Qed.

Lemma tick_all_ok (t : Side) (f : bool) (e e' : Engine) (u : unit) :
  engine_ok e -> selected_piece e = None ->
  on_board (tick_all t f) e = Return e' u ->
  engine_ok e' /\ selected_piece e' = None /\ current_turn e' = current_turn e.
Proof.
  intros [Hb _ [Hwq Hwb] [Hbq Hbb]] Hsel E.
  apply on_board_inv in E as (b' & E & ->).
  apply tick_all_layout in E as [Hg Hl].
  split; [|done]. split.
  - by apply (board_ok_layouts (engine_board e)).
  - intros x Hx. simpl in Hx. congruence.
  - unfold queue_ok. cbn [engine_board with_board].
    rewrite (born_layouts White _ _ Hl). split; [exact Hwq | exact Hwb].
  - unfold queue_ok. cbn [engine_board with_board].
    rewrite (born_layouts Black _ _ Hl). split; [exact Hbq | exact Hbb].
Qed.

Lemma move_is_valid_inv (sel dest : Ref) (sf : option Stockfish)
    (e e1 : Engine) (v : bool) :
  move_is_valid sel dest sf e = Return e1 v ->
  engine_board e1 = engine_board e
  /\ selected_piece e1 = selected_piece e
  /\ white_birth_queue e1 = white_birth_queue e
  /\ black_birth_queue e1 = black_birth_queue e
  /\ current_turn e1 = current_turn e
  /\ game_over_message e1 = game_over_message e
  /\ (v = true ->
      exists s d, store (engine_board e) !! sel = Some s
        /\ store (engine_board e) !! dest = Some d
        /\ piece_move_is_valid s d = true).
Proof.
  unfold move_is_valid. intros E.
  apply bind_inv in E as (e2 & s & E1 & E).
  apply on_board_readonly in E1 as [-> E1]; [|apply readonly_deref].
  apply deref_inv in E1.
  apply bind_inv in E as (e2 & d & E2 & E).
  apply on_board_readonly in E2 as [-> E2]; [|apply readonly_deref].
  apply deref_inv in E2.
  destruct (py_getitem col_labels (col s)); [|done].
  destruct (py_getitem col_labels (col d)); [|done].
  assert (Hacc : forall ms,
    (modify (fun e => with_moves e (recent_moves e ++ [(sel, dest)])
                                   (recent_moves_str e ++ [ms])) >> ret true) e
    = Return e1 v ->
    engine_board e1 = engine_board e
    /\ selected_piece e1 = selected_piece e
    /\ white_birth_queue e1 = white_birth_queue e
    /\ black_birth_queue e1 = black_birth_queue e
    /\ current_turn e1 = current_turn e
    /\ game_over_message e1 = game_over_message e).
  { intros ms H. unfold bind, modify, ret in H. by injection H as <- _. }
  destruct (piece_move_is_valid s d) eqn:Hv.
  - assert (Hex : v = true -> exists s0 d0,
              store (engine_board e) !! sel = Some s0
              /\ store (engine_board e) !! dest = Some d0
              /\ piece_move_is_valid s0 d0 = true) by eauto.
    destruct sf as [sf|]; [destruct (is_move_correct sf) as [[|]|]|].
    + apply Hacc in E. tauto.
    + injection E as <- <-. repeat split; done.
    + apply Hacc in E. tauto.
    + apply Hacc in E. tauto.
  - injection E as <- <-. repeat split; done.
Qed.

Lemma initial_objects_eq : length (store initial_board) = initial_objects.
Proof. vm_compute. reflexivity. Qed.

Lemma select_ok (e : Engine) (r c : Z) (x : Ref) :
  engine_ok e -> square (engine_board e) r c = Some x ->
  engine_ok (with_selected e (Some x)).
Proof.
  intros [Hb Hs Hw Hk] Hsq. split; [exact Hb| |exact Hw|exact Hk].
  intros y Hy. injection Hy as <-. cbn [engine_board with_selected].
  apply square_in_range in Hsq as (r' & c' & Hr & Hc & Hsq); [|apply Hb].
  destruct (positions_on_its_square (engine_board e) r' c' x) as (p & Hp & _);
    [apply Hb|done..|]. eauto.
Qed.

Lemma stockfish_branch_ok (sf : option Stockfish) (e e' : Engine) (k : Key) :
  engine_ok e -> stockfish_branch sf e = Return e' k -> engine_ok e'.
Proof.
  intros Hok E. unfold stockfish_branch in E.
  destruct sf as [sf|]; [|by injection E as <-].
  destruct (get_best_move sf) as [[move|]|]; [|by injection E as <-..].
  destruct (String.get 1 move) as [m1|]; [|by injection E as <-].
  destruct (String.get 0 move) as [m0|]; [|by injection E as <-].
  destruct (int_char m1) as [r|]; [|by injection E as <-].
  destruct (on_board (get_piece (r - 1) (ord m0 - ord "a")) e) as [e1 x|] eqn:E1;
    [|by injection E as <-].
  apply on_board_readonly in E1 as [-> E1]; [|apply readonly_get_piece].
  apply get_piece_inv in E1.
  pose proof (select_ok e _ _ x Hok E1) as Hsel.
  destruct (String.get 3 move) as [m3|]; [|by injection E as <-].
  destruct (String.get 2 move) as [m2|]; [|by injection E as <-].
  destruct (int_char m3) as [r'|]; injection E as <- _; [|done].
  by apply (engine_ok_ext (with_selected e (Some x))).
Qed.

(** The state after an accepted move that captured no King, before the
    ticks: the selection is cleared and the turn is flipped. *)
Lemma moved_engine_ok (e : Engine) (sel dest : Ref) (s d : Piece)
    (g : list (list Ref)) :
  engine_ok e ->
  on_its_square (engine_board e) sel s ->
  on_its_square (engine_board e) dest d ->
  (row s, col s) <> (row d, col d) -> kind d <> King ->
  let b := engine_board e in
  let b' := mkBoard (<[sel := set_position s (row d) (col d)]>
                       (<[length (store b) := set_position Empty (row s) (col s)]>
                          (store b ++ [Empty]))) g in
  square b' (row d) (col d) = Some sel ->
  square b' (row s) (col s) = Some (length (store b)) ->
  (forall r c, 0 <= r -> 0 <= c ->
     (r, c) <> (row d, col d) -> (r, c) <> (row s, col s) ->
     square b' r c = square b r c) ->
  length <$> g = length <$> board b ->
  forall e', engine_board e' = b' -> selected_piece e' = None ->
    white_birth_queue e' = white_birth_queue e ->
    black_birth_queue e' = black_birth_queue e ->
    engine_ok e'.
Proof.
  intros Hok Hs Hd Hne Hk b b' Hdst Hsrc Hframe Hshape e' Hb' Hsel Hw Hbq.
  subst b' b.
  pose proof (ok_board e Hok) as Hbok.
  destruct (ok_white e Hok) as [Hwq Hwb]. destruct (ok_black e Hok) as [Hkq Hkb].
  split.
  - rewrite Hb'. by apply (moved_ok (engine_board e) sel dest s d g).
  - intros x Hx. congruence.
  - unfold queue_ok, queue_of. rewrite Hb', Hw.
    rewrite (moved_born (engine_board e) sel s d g Hbok Hs White)
      by discriminate.
    split; [exact Hwq | exact Hwb].
  - unfold queue_ok, queue_of. rewrite Hb', Hbq.
    rewrite (moved_born (engine_board e) sel s d g Hbok Hs Black)
      by discriminate.
    split; [exact Hkq | exact Hkb].
Qed.

(** [update_state] keeps the invariant, whatever the key and whatever
    the adviser answers. *)
Lemma update_state_ok (key : Key) (sf : option Stockfish) (e e' : Engine)
    (changed : bool) :
  engine_ok e -> update_state key sf e = Return e' changed -> engine_ok e'.
Proof.
  intros Hok E. unfold update_state in E.
  apply bind_inv in E as (e1 & key' & E1 & E).
  assert (Hok1 : engine_ok e1).
  { destruct key;
      try (unfold bind, modify, ret in E1; injection E1 as <- _;
           first [exact Hok | by apply (engine_ok_ext e)]).
    by apply (stockfish_branch_ok sf e e1 key'). }
  clear E1 Hok e key.
  destruct key'; try (injection E as <- _; exact Hok1).
  - (* enter *)
    apply bind_inv in E as (e2 & e0 & Eg & E). injection Eg as <- <-.
    destruct (selected_piece e1) as [sel|] eqn:Hsel.
    + apply bind_inv in E as (e2 & dest & E2 & E).
      apply on_board_readonly in E2 as [-> E2]; [|apply readonly_get_piece].
      apply get_piece_inv in E2 as Hsq.
      apply bind_inv in E as (e2 & valid & E3 & E).
      apply move_is_valid_inv in E3 as (Hb2 & Hs2 & Hw2 & Hk2 & Ht2 & Hm2 & Hv).
      assert (Hok2 : engine_ok e2) by by apply (engine_ok_ext e1).
      destruct valid; [|injection E as <- _; exact Hok2].
      destruct (Hv eq_refl) as (s & d & Hs & Hd & Hvalid).
      apply bind_inv in E as (e3 & moved & E4 & E).
      pose proof (ok_board e1 Hok1) as Hbok.
      destruct (ok_selected e1 Hok1 sel Hsel) as (s' & Hsel_sq).
      assert (s' = s) as -> by (destruct Hsel_sq as (H & _); congruence).
      apply square_in_range in Hsq as Hsq'; [|apply Hbok].
      destruct Hsq' as (r' & c' & Hr' & Hc' & Hsq').
      destruct (positions_on_its_square (engine_board e1) r' c' dest)
        as (d' & Hdest_sq & _); [apply Hbok|done..|].
      assert (d' = d) as -> by (destruct Hdest_sq as (H & _); congruence).
      destruct (move_piece_run (engine_board e1) sel dest s d Hsel_sq Hdest_sq Hvalid)
        as (Hne & Hpos & Hking & Hmove).
      unfold try_except, bind at 1, on_board in E4. rewrite Hb2 in E4.
      rewrite (bind_return (get_piece _ _) _ (engine_board e1) (engine_board e1) dest)
        in E4 by (rewrite get_piece_square, Hsq; reflexivity).
      destruct (decide (kind d = King)) as [Hk|Hk].
      * rewrite (Hking Hk) in E4. simpl in E4.
        unfold bind, modify, ret in E4. injection E4 as <- <-.
        injection E as <- _.
        apply (engine_ok_ext e2); [|done..]. simpl. congruence.
      * destruct (Hmove Hk) as (g & Hrun & Hdst & Hsrc & Hframe & Hshape).
        rewrite Hrun in E4. unfold ret in E4. injection E4 as <- <-.
        apply bind_inv in E as (ea & ua & Ea & E). injection Ea as <- _.
        apply bind_inv in E as (eb & ub & Eb & E). injection Eb as <- _.
        apply bind_inv in E as (ec & e0 & Ec & E). injection Ec as <- <-.
        match type of E with
        | bind _ _ ?e = _ => assert (Hok4 : engine_ok e /\ selected_piece e = None)
        end.
        { split; [|reflexivity].
          eapply (moved_engine_ok e1 sel dest s d g); try done; simpl; congruence. }
        destruct Hok4 as [Hok4 Hsel4].
        apply bind_inv in E as (e5 & u5 & E5 & E).
        apply tick_all_ok in E5 as (Hok5 & Hsel5 & _); [|done..].
        apply bind_inv in E as (e6 & u6 & E6 & E).
        apply birth_pass_ok in E6 as (Hok6 & Hsel6 & _); [|done..].
        apply bind_inv in E as (e7 & survived & E7 & E).
        apply death_pass_ok in E7 as (Hok7 & Hsel7); [|done..].
        destruct survived; [|injection E as <- _; exact Hok7].
        apply bind_inv in E as (e8 & u8 & E8 & E).
        apply tick_all_ok in E8 as (Hok8 & _); [|done..].
        injection E as <- _. exact Hok8.
    + apply bind_inv in E as (e2 & x & E2 & E).
      apply on_board_readonly in E2 as [-> E2]; [|apply readonly_get_piece].
      apply get_piece_inv in E2 as Hsq.
      apply bind_inv in E as (e2 & p & E3 & E).
      apply on_board_readonly in E3 as [-> E3]; [|apply readonly_deref].
      destruct (side_eqb (side p) (current_turn e1));
        [|injection E as <- _; exact Hok1].
      apply bind_inv in E as (e2 & y & E4 & E).
      apply on_board_readonly in E4 as [-> E4]; [|apply readonly_get_piece].
      apply get_piece_inv in E4.
      unfold bind, modify, ret in E. injection E as <- _.
      exact (select_ok e1 _ _ y Hok1 E4).
  - (* other *)
    unfold bind, modify, ret in E. injection E as <- _.
    destruct Hok1 as [Hb _ Hw Hk]. split; [exact Hb| |exact Hw|exact Hk].
    intros x Hx. discriminate.
Qed.

Lemma reachable_ok (e : Engine) : reachable e -> engine_ok e.
Proof.
  induction 1 as [|e e' key sf changed _ IH E].
  - apply initial_engine_ok.
  - by apply (update_state_ok key sf e e' changed).
Qed.

(** * The life cycle of one piece: [Piece.tick] *)

Section Tick.

Variables (p : Piece) (surrounding_pieces : list Piece).

(** C2. On an empty square a counter-updating tick for the turn [c]
    adds one to the birth counter of colour [c] when exactly three
    neighbours have colour [c] and sets it to 0 otherwise, whatever its
    value was; the birth counter of the other colour keeps its value. *)
Theorem tick_empty_birth_counter (c : Side) :
  side p = NoSide -> c <> NoSide ->
  let p' := tick p surrounding_pieces c true in
  (neighbours_of c surrounding_pieces = 3 -> birth_counter c p' = birth_counter c p + 1)
  /\ (neighbours_of c surrounding_pieces <> 3 -> birth_counter c p' = 0)
  /\ birth_counter (flip_turn c) p' = birth_counter (flip_turn c) p.
Proof.
  intros Hside Hc. unfold neighbours_of. rewrite <- count_side_filter.
  unfold tick; simpl. rewrite Hside; simpl.
  destruct c; [| |done]; simpl.
  - destruct (Z.eqb_spec (count_side White surrounding_pieces) 3); simpl; lia.
  - destruct (Z.eqb_spec (count_side Black surrounding_pieces) 3); simpl; lia.
Qed.

(** C3. For an occupied piece of the side to move, a counter-updating
    tick counts the neighbours of the piece's own side only; below 2 or
    above 3 the death counter grows by one, from 2 to 3 it is set to 0.
    An occupied piece of the other side keeps its three counters. *)
Theorem tick_occupied_death_counter (c : Side) :
  side p <> NoSide ->
  let p' := tick p surrounding_pieces c true in
  let same_pieces := neighbours_of (side p) surrounding_pieces in
  (side p = c ->
     (same_pieces < 2 \/ same_pieces > 3 -> death_counter p' = death_counter p + 1)
     /\ (2 <= same_pieces <= 3 -> death_counter p' = 0))
  /\ (side p <> c ->
       death_counter p' = death_counter p
       /\ birth_counter_white p' = birth_counter_white p
       /\ birth_counter_black p' = birth_counter_black p).
Proof.
  intros Hside. unfold neighbours_of. rewrite <- count_side_filter.
  unfold tick; simpl.
  apply side_eqb_neq in Hside as Hs. rewrite Hs.
  split.
  - intros <-. rewrite side_eqb_refl; simpl.
    destruct (Z.ltb_spec (count_side (side p) surrounding_pieces) 2);
      destruct (Z.gtb_spec (count_side (side p) surrounding_pieces) 3);
      simpl; lia.
  - intros Hne.
    assert (side_eqb c (side p) = false) as -> by (apply side_eqb_neq; congruence).
    done.
Qed.

End Tick.

Lemma tick_empty_birth_counter_witness :
  let p := set_position Empty 2 1 in
  let ns := [new_piece Pawn White; new_piece Pawn White; new_piece Pawn White;
             new_piece Pawn Black] in
  birth_counter White (tick p ns White true) = 1
  /\ birth_counter Black (tick p ns White true) = 0.
Proof.
  intros p ns.
  destruct (tick_empty_birth_counter p ns White) as (H3 & _ & Hother);
    [reflexivity | discriminate |].
  split; [apply H3; reflexivity | apply Hother].
Defined.

Lemma tick_occupied_death_counter_witness :
  let p := new_piece Knight White in
  let ns := [new_piece Pawn White; new_piece Pawn Black; new_piece Pawn Black] in
  death_counter (tick p ns White true) = 1
  /\ death_counter (tick p ns Black true) = 0.
Proof.
  intros p ns.
  destruct (tick_occupied_death_counter p ns White) as [Hturn _]; [discriminate|].
  destruct (tick_occupied_death_counter p ns Black) as [_ Hother]; [discriminate|].
  split.
  - apply Hturn; [reflexivity | left; vm_compute; reflexivity].
  - apply Hother. discriminate.
Defined.

(** * [Board.move_piece] and [Board.kill_piece] *)

Ltac on_square := repeat split; vm_compute; congruence.

(** C7. For an accepted move whose destination holds a King,
    [move_piece] raises the capture exception and the board it leaves
    behind is the board it was given, squares and objects alike.  For
    every other accepted move the destination square holds the moving
    piece, whose coordinates are now the destination's; the former
    occupant is no longer the occupant of that square; the source square
    holds a fresh [Empty] placed there; all other squares hold what they
    held. *)
Theorem move_piece_capture_or_relocate (b : Board) (source dest : Ref) (s d : Piece) :
  on_its_square b source s -> on_its_square b dest d ->
  piece_move_is_valid s d = true ->
  (kind d = King ->
     move_piece source dest b = Raise b (Exception (perish_message d false)))
  /\ (kind d <> King ->
      exists b',
        move_piece source dest b = Return b' true
        /\ square b' (row d) (col d) = Some source /\ source <> dest
        /\ (exists s', store b' !! source = Some s'
                       /\ row s' = row d /\ col s' = col d)
        /\ piece_at b' (row s) (col s) = Some (set_position Empty (row s) (col s))
        /\ (forall r c, 0 <= r -> 0 <= c ->
              (r, c) <> (row d, col d) -> (r, c) <> (row s, col s) ->
              square b' r c = square b r c)).
Proof.
  intros Hs Hd Hvalid.
  destruct (move_piece_run b source dest s d Hs Hd Hvalid)
    as (Hne & Hpos & Hking & Hmove).
  split; [exact Hking|].
  intros Hk. destruct (Hmove Hk) as (g & Hrun & Hdst & Hsrc & Hframe & _).
  destruct Hs as (Hs & _). apply lookup_lt_Some in Hs as Hlt.
  eexists. split; [exact Hrun|].
  split; [exact Hdst|]. split; [exact Hne|].
  split; [|split].
  - eexists. split.
    + simpl. apply list_lookup_insert_eq.
      rewrite length_insert, length_app. lia.
    + done.
  - unfold piece_at. rewrite Hsrc. simpl.
    rewrite list_lookup_insert_ne by lia.
    apply list_lookup_insert_eq. rewrite length_app; simpl; lia.
  - exact Hframe.
Qed.

Lemma move_piece_capture_or_relocate_witness :
  move_piece 64 92 initial_board
  = Raise initial_board (Exception "Black king was captured, white wins!").
Proof.
  refine (proj1 (move_piece_capture_or_relocate initial_board 64 92
                   (set_position (new_piece Rook White) 0 0)
                   (set_position (new_piece King Black) 7 4) _ _ _) _);
    [on_square | on_square | reflexivity | reflexivity].
Defined.

(** C10. An accepted move rewrites the row and the column of the moving
    piece and nothing else: its death counter and both birth counters,
    like its kind, its side and its neighbour counts, are what they were
    before the move. *)
Theorem move_piece_keeps_counters (b b' : Board) (source dest : Ref) (s d : Piece) :
  on_its_square b source s -> on_its_square b dest d ->
  move_piece source dest b = Return b' true ->
  exists s', store b' !! source = Some s'
    /\ s' = set_position s (row d) (col d)
    /\ death_counter s' = death_counter s
    /\ birth_counter_white s' = birth_counter_white s
    /\ birth_counter_black s' = birth_counter_black s.
Proof.
  intros Hs Hd Hrun.
  destruct (piece_move_is_valid s d) eqn:Hvalid.
  - destruct (move_piece_run b source dest s d Hs Hd Hvalid)
      as (Hne & Hpos & Hking & Hmove).
    destruct (decide (kind d = King)) as [Hk|Hk].
    + rewrite (Hking Hk) in Hrun. discriminate.
    + destruct (Hmove Hk) as (g & Hrun' & _).
      rewrite Hrun' in Hrun. injection Hrun as <-.
      destruct Hs as (Hs & _). apply lookup_lt_Some in Hs.
      eexists. split; [|done]. simpl.
      apply list_lookup_insert_eq. rewrite length_insert, length_app. lia.
  - destruct Hs as (Hs & _), Hd as (Hd & _).
    unfold move_piece in Hrun.
    rewrite (bind_deref _ _ _ _ Hs), (bind_deref _ _ _ _ Hd), Hvalid in Hrun.
    discriminate.
Qed.

(** C6, as the code has it. [kill_piece] leaves the board as it is when
    the piece is not of the acting side.  For a piece of the acting side
    that is not a King it puts a fresh [Empty] on the piece's square and
    raises nothing.  For a King of the acting side it raises the
    population exception before anything is written: the King is still on
    its square. *)
Theorem kill_piece_spec (b : Board) (piece : Ref) (p : Piece) (turn : Side) :
  on_its_square b piece p ->
  (side p <> turn -> kill_piece piece turn b = Return b tt)
  /\ (side p = turn -> kind p <> King ->
      exists b',
        kill_piece piece turn b = Return b' tt
        /\ piece_at b' (row p) (col p) = Some (set_position Empty (row p) (col p))
        /\ (forall r c, 0 <= r -> 0 <= c -> (r, c) <> (row p, col p) ->
              square b' r c = square b r c)
        /\ (forall x q, store b !! x = Some q -> store b' !! x = Some q))
  /\ (side p = turn -> kind p = King ->
      kill_piece piece turn b = Raise b (Exception (perish_message p true))
      /\ piece_at b (row p) (col p) = Some p).
Proof.
  intros Hp.
  destruct Hp as (Hp & Hr & Hc & Hsq).
  destruct (kill_piece_run b piece piece p p turn Hp (proj1 Hr) (proj1 Hc) Hsq Hp)
    as (Hnoop & Hking & Hkill).
  split; [exact Hnoop|]. split.
  - intros Hs Hk. destruct (Hkill Hs Hk) as (g & Hrun & Hsq' & Hframe & _).
    eexists. split; [exact Hrun|]. split.
    + unfold piece_at. rewrite Hsq'. simpl.
      apply list_lookup_insert_eq. rewrite length_app; simpl; lia.
    + split; [exact Hframe|].
      intros x q Hx. apply lookup_lt_Some in Hx as Hlt. simpl.
      rewrite list_lookup_insert_ne by lia. by rewrite lookup_app_l.
  - intros Hs Hk. split; [by apply Hking|].
    unfold piece_at. by rewrite Hsq.
Qed.

Lemma move_piece_keeps_counters_witness :
  let b := engine_board initial_engine in
  let knight := mkPiece Knight White 0 1 1 0 0 5 0 in
  store b !! 65%nat = Some knight
  /\ exists s', store (state_of (move_piece 65 16 b)) !! 65%nat = Some s'
       /\ s' = mkPiece Knight White 2 0 1 0 0 5 0.
Proof.
  intros b knight. split; [reflexivity|].
  destruct (move_piece_keeps_counters b (state_of (move_piece 65 16 b)) 65 16
              knight (mkPiece EmptySq NoSide 2 0 0 0 0 2 0))
    as (s' & Hs' & Heq & _);
    [on_square | on_square | vm_compute; reflexivity |].
  exists s'. split; [exact Hs' | exact Heq].
Defined.

Lemma kill_piece_spec_witness :
  let b := engine_board initial_engine in
  kill_piece 65 Black b = Return b tt
  /\ (exists b', kill_piece 65 White b = Return b' tt
                 /\ piece_at b' 0 1 = Some (set_position Empty 0 1))
  /\ kill_piece 68 White b = Raise b (Exception "White king perished, black wins!").
Proof.
  intros b.
  destruct (kill_piece_spec b 65 (mkPiece Knight White 0 1 1 0 0 5 0) Black)
    as (Hnoop & _); [on_square|].
  destruct (kill_piece_spec b 65 (mkPiece Knight White 0 1 1 0 0 5 0) White)
    as (_ & Hkill & _); [on_square|].
  destruct (kill_piece_spec b 68 (mkPiece King White 0 4 1 0 0 5 0) White)
    as (_ & _ & Hking); [on_square|].
  split; [apply Hnoop; discriminate|]. split.
  - destruct Hkill as (b' & Hrun & Hat & _); [reflexivity | discriminate |].
    exists b'. split; [exact Hrun | exact Hat].
  - apply Hking; reflexivity.
Defined.

(** C6, as the claim has it, fails for a King: killing the white King
    on the acting side White raises, and the King's square has not been
    replaced with [Empty]. *)
Lemma kill_piece_king_not_removed :
  let b := engine_board initial_engine in
  square b 0 4 = Some 68%nat
  /\ store b !! 68%nat = Some (mkPiece King White 0 4 1 0 0 5 0)
  /\ kill_piece 68 White b = Raise b (Exception "White king perished, black wins!")
  /\ piece_at (state_of (kill_piece 68 White b)) 0 4
     <> Some (set_position Empty 0 4).
Proof. vm_compute. repeat split; congruence. Qed.

(** * Kings and birth queues in the states of a game *)

Lemma all_squares_in_range (sq : Z * Z) :
  sq ∈ all_squares -> 0 <= fst sq < 8 /\ 0 <= snd sq < 8.
Proof.
  assert (H : Forall (fun sq : Z * Z => 0 <= fst sq < 8 /\ 0 <= snd sq < 8) all_squares).
  { apply (bool_decide_unpack _). vm_compute. exact I. }
  rewrite Forall_forall in H. apply H.
Qed.

Lemma all_squares_NoDup : NoDup all_squares.
Proof. apply (bool_decide_unpack _). vm_compute. exact I. Qed.

Lemma filter_at_most_one {A} (P : A -> bool) (l : list A) :
  NoDup l ->
  (forall x y, x ∈ l -> y ∈ l -> P x = true -> P y = true -> x = y) ->
  (length (List.filter P l) <= 1)%nat.
Proof.
  induction l as [|a l IH]; intros Hnd Huniq; simpl; [lia|].
  apply NoDup_cons in Hnd as [Ha Hnd].
  assert (IH' : (length (List.filter P l) <= 1)%nat).
  { apply IH; [done|]. intros x y Hx Hy. apply Huniq; by apply list_elem_of_further. }
  destruct (P a) eqn:Hpa; [|done].
  assert (List.filter P l = []) as ->; [|simpl; lia].
  destruct (List.filter P l) as [|y rest] eqn:Hf; [done|].
  assert (Hy : In y (List.filter P l)) by (rewrite Hf; by left).
  apply filter_In in Hy as [Hy Hpy]. apply list_elem_of_In in Hy.
  exfalso. apply Ha.
  rewrite (Huniq a y); [done|apply list_elem_of_here|by apply list_elem_of_further|done..].
Qed.

Lemma kind_eqb_eq (a b : Kind) : kind_eqb a b = true <-> a = b.
Proof. destruct a, b; simpl; split; congruence. Qed.

Lemma holds_king_layout (s : Side) (b : Board) (r c : Z) :
  positions b -> 0 <= r < 8 -> 0 <= c < 8 ->
  holds_king s b (r, c) = true -> layout_at b r c = Some (King, s, r, c).
Proof.
  intros Hpos Hr Hc H. unfold holds_king in H. simpl in H.
  destruct (Hpos r c Hr Hc) as (k & s0 & Hl). rewrite Hl.
  rewrite layout_at_piece_at in Hl.
  destruct (piece_at b r c) as [p|]; [|done].
  unfold is_king_of in H. apply andb_true_iff in H as [Hk Hs].
  apply kind_eqb_eq in Hk. apply side_eqb_eq in Hs.
  simpl in Hl. unfold layout in Hl. congruence.
Qed.

Lemma one_king_count (s : Side) (b : Board) :
  positions b -> one_king b -> (length (kings s b) <= 1)%nat.
Proof.
  intros Hpos Hone. apply filter_at_most_one; [apply all_squares_NoDup|].
  intros [r c] [r' c'] Hx Hy Hkx Hky.
  apply all_squares_in_range in Hx as [Hr Hc], Hy as [Hr' Hc']. simpl in *.
  apply (Hone s); try done; by apply holds_king_layout.
Qed.

(** C8. In every state of a game each side has at most one King on the
    board, and no letter of either birth queue names a King. *)
Theorem at_most_one_king (e : Engine) :
  reachable e ->
  (length (kings White (engine_board e)) <= 1)%nat
  /\ (length (kings Black (engine_board e)) <= 1)%nat
  /\ Forall (fun letter => kind_of_letter letter <> Some King) (white_birth_queue e)
  /\ Forall (fun letter => kind_of_letter letter <> Some King) (black_birth_queue e).
Proof.
  intros Hr. apply reachable_ok in Hr as [[Hsh Hpos Hone Hst] _ [Hw _] [Hb _]].
  split; [by apply one_king_count|]. split; [by apply one_king_count|].
  assert (Hq : forall n, Forall (fun letter => kind_of_letter letter <> Some King)
                           (rotate n seed_queue)).
  { intros n. apply Forall_forall. intros x Hx.
    apply rotate_elem, seed_queue_kinds in Hx as (k & Hk & Hne). congruence. }
  unfold queue_of in Hw, Hb. rewrite Hw, Hb. split; apply Hq.
Qed.

Lemma play_reachable (keys : list Key) (e e' : Engine) (changed : bool) :
  reachable e -> play keys e = Return e' changed -> reachable e'.
Proof.
  unfold play.
  assert (H : forall o e' changed,
    (forall e0 c0, o = Return e0 c0 -> reachable e0) ->
    fold_left (fun o key => match o with
                            | Return e' _ => update_state key None e'
                            | Raise _ _ => o
                            end) keys o = Return e' changed ->
    reachable e').
  { induction keys as [|key keys IH]; intros o e1 c1 Ho E; simpl in E.
    - by apply (Ho e1 c1).
    - apply IH in E; [done|]. intros e0 c0 E0.
      destruct o as [e2 c2|]; [|done].
      eapply reachable_step; [by eapply Ho|exact E0]. }
  intros Hr E. apply H in E; [done|]. intros e0 c0 [= <- _]. exact Hr.
Qed.

Lemma at_most_one_king_witness :
  let e := state_of (play long_game initial_engine) in
  kings White (engine_board e) = [(3, 1)] /\ kings Black (engine_board e) = [(7, 4)]
  /\ (length (kings White (engine_board e)) <= 1)%nat.
Proof.
  intros e. split; [vm_compute; reflexivity|]. split; [vm_compute; reflexivity|].
  refine (proj1 (at_most_one_king e _)).
  eapply (play_reachable long_game initial_engine e true); [apply reachable_init|].
  vm_compute. reflexivity.
Defined.







(** * The birth pass *)

Lemma for_app {S A} (l1 l2 : list A) (f : A -> M S unit) (s : S) :
  for_ (l1 ++ l2) f s = (for_ l1 f >> for_ l2 f) s.
Proof.
  revert s. induction l1 as [|x l1 IH]; intros s; simpl; [reflexivity|].
  unfold bind. destruct (f x s) as [s1 u|]; [|reflexivity].
  rewrite IH. reflexivity.
Qed.

Lemma for_map {S A B} (g : A -> B) (l : list A) (f : B -> M S unit) (s : S) :
  for_ (map g l) f s = for_ l (fun x => f (g x)) s.
Proof.
  revert s. induction l as [|x l IH]; intros s; simpl; [done|].
  unfold bind. destruct (f (g x) s); [apply IH|done].
Qed.

Lemma for_nested {S A B} (rows : list A) (cols : list B)
    (f : A -> B -> M S unit) (s : S) :
  for_ rows (fun i => for_ cols (fun j => f i j)) s
  = for_ (flat_map (fun i => map (fun j => (i, j)) cols) rows)
         (fun sq => f (fst sq) (snd sq)) s.
Proof.
  revert s. induction rows as [|i rows IH]; intros s; simpl; [done|].
  rewrite for_app. unfold bind. rewrite for_map. simpl.
  destruct (for_ cols (fun j => f i j) s); [apply IH|done].
Qed.

Lemma positions_piece_at (b : Board) (r c : Z) :
  positions b -> 0 <= r < 8 -> 0 <= c < 8 ->
  exists x p, square b r c = Some x /\ store b !! x = Some p
              /\ piece_at b r c = Some p.
Proof.
  intros Hpos Hr Hc. destruct (Hpos r c Hr Hc) as (k & s & Hl).
  unfold layout_at in Hl. unfold piece_at.
  destruct (square b r c) as [x|]; [|done].
  unfold layouts in Hl. rewrite list_lookup_fmap in Hl.
  destruct (store b !! x) as [p|] eqn:Hp; [|done]. by exists x, p.
Qed.

(** One step of the birth loops, run to its result. *)
Lemma birth_run (t : Side) (i j : Z) (e : Engine) :
  t <> NoSide -> 0 <= i < 8 -> 0 <= j < 8 ->
  positions (engine_board e) ->
  (gives_birth t (engine_board e) (i, j) = false -> birth t i j e = Return e tt)
  /\ (forall letter rest k,
        gives_birth t (engine_board e) (i, j) = true ->
        queue_of t e = letter :: rest -> kind_of_letter letter = Some k ->
        exists g,
          let b := engine_board e in
          let b' := mkBoard (<[length (store b) := set_position (new_piece k t) i j]>
                               (store b ++ [new_piece k t])) g in
          birth t i j e
          = Return (set_queue t (rest ++ [letter]) (with_board e b')) tt
          /\ square b' i j = Some (length (store b))
          /\ (forall r' c', 0 <= r' -> 0 <= c' -> (r', c') <> (i, j) ->
                square b' r' c' = square b r' c')
          /\ length <$> g = length <$> board b).
Proof.
  intros Ht Hi Hj Hpos.
  destruct (positions_piece_at _ i j Hpos Hi Hj) as (x & p & Hsq & Hp & Hat).
  unfold gives_birth, birth. simpl fst. simpl snd. rewrite Hat.
  assert (E1 : on_board (get_piece i j) e = Return e x).
  { unfold on_board. rewrite get_piece_square, Hsq. by rewrite with_board_id. }
  assert (E2 : on_board (deref x) e = Return e p).
  { unfold on_board. rewrite (deref_some _ _ _ Hp). by rewrite with_board_id. }
  rewrite (bind_return _ _ _ _ _ E1), (bind_return _ _ _ _ _ E2).
  split.
  - intros Hg. destruct (side_eqb (side p) NoSide); [|done].
    simpl in Hg. by rewrite Hg.
  - intros letter rest k Hg Hq Hk.
    apply andb_true_iff in Hg as [Hg1 Hg2]. rewrite Hg1, Hg2.
    destruct (set_new_piece_run (engine_board e) i j letter k t x)
      as (g & Hrun & Hnew & Hframe & Hshape); [lia|lia|done|done|].
    exists g. split; [|done].
    unfold bind, get, put, modify, on_board. rewrite Hq.
    destruct (set_queue_fields t rest e) as (Hb1 & _). rewrite Hb1, Hrun.
    f_equal. destruct t, e; try done; simpl in *; by rewrite Hq.
Qed.

Lemma flip_turn_ne (t : Side) : t <> NoSide -> flip_turn t <> t /\ flip_turn t <> NoSide.
Proof. by destruct t. Qed.

Lemma births_run (t : Side) (l : list (Z * Z)) :
  t <> NoSide -> NoDup l ->
  (forall sq, sq ∈ l -> 0 <= fst sq < 8 /\ 0 <= snd sq < 8) ->
  forall e,
    shape (engine_board e) -> positions (engine_board e) ->
    queue_of t e <> [] ->
    Forall (fun x => is_Some (kind_of_letter x)) (queue_of t e) ->
    let B := List.filter (gives_birth t (engine_board e)) l in
    exists e',
      for_ l (fun sq => birth t (fst sq) (snd sq)) e = Return e' tt
      /\ shape (engine_board e') /\ positions (engine_board e')
      /\ queue_of t e' = rotate (length B) (queue_of t e)
      /\ queue_of (flip_turn t) e' = queue_of (flip_turn t) e
      /\ current_turn e' = current_turn e
      /\ (forall k sq letter, B !! k = Some sq ->
            spawned (length B) (queue_of t e) !! k = Some letter ->
            born_at t (engine_board e') sq letter)
      /\ (forall r c, 0 <= r < 8 -> 0 <= c < 8 -> ~ In (r, c) B ->
            piece_at (engine_board e') r c = piece_at (engine_board e) r c).
Proof.
  intros Ht. induction l as [|[i j] l IH]; intros Hnd Hin e Hsh Hpos Hq Hvalid B.
  - exists e. subst B. simpl. repeat split; try done.
  - apply NoDup_cons in Hnd as [Hnotin Hnd].
    assert (Hin' : forall sq, sq ∈ l -> 0 <= fst sq < 8 /\ 0 <= snd sq < 8)
      by (intros sq Hsq; apply Hin; by apply list_elem_of_further).
    destruct (Hin (i, j)) as [Hi Hj]; [apply list_elem_of_here|]. simpl in Hi, Hj.
    destruct (birth_run t i j e Ht Hi Hj Hpos) as [Hno Hyes].
    subst B. simpl List.filter. simpl for_.
    destruct (gives_birth t (engine_board e) (i, j)) eqn:Hg.
    + destruct (queue_of t e) as [|letter rest] eqn:Hqe; [done|].
      apply Forall_cons in Hvalid as [[k Hk] Hvalid].
      destruct (Hyes letter rest k eq_refl eq_refl Hk)
        as (g & Hrun & Hnew & Hframe & Hshape).
      set (b' := mkBoard (<[length (store (engine_board e)) :=
                             set_position (new_piece k t) i j]>
                            (store (engine_board e) ++ [new_piece k t])) g) in *.
      set (e1 := set_queue t (rest ++ [letter]) (with_board e b')) in *.
      destruct (set_queue_fields t (rest ++ [letter]) (with_board e b'))
        as (Hb1 & _ & Ht1).
      fold e1 in Hb1, Ht1. simpl in Hb1, Ht1.
      assert (Hq1 : queue_of t e1 = rest ++ [letter]).
      { unfold e1. rewrite queue_of_set_queue by done. by rewrite decide_True. }
      destruct (flip_turn_ne t Ht) as [Hf1 Hf2].
      assert (Hq1' : queue_of (flip_turn t) e1 = queue_of (flip_turn t) e).
      { unfold e1. rewrite queue_of_set_queue by done.
        rewrite decide_False by done. by destruct (flip_turn t). }
      assert (Hold : forall r c, 0 <= r < 8 -> 0 <= c < 8 -> (r, c) <> (i, j) ->
                piece_at b' r c = piece_at (engine_board e) r c).
      { intros r c Hr Hc Hne.
        by apply (placed_piece_at_old (engine_board e) i j (new_piece k t) g). }
      assert (Hfilter : List.filter (gives_birth t (engine_board e1)) l
                        = List.filter (gives_birth t (engine_board e)) l).
      { apply filter_ext_in. intros [r c] Hsq. apply list_elem_of_In in Hsq.
        unfold gives_birth. simpl. rewrite Hb1.
        destruct (Hin' _ Hsq) as [Hr Hc]. rewrite Hold; [done..|].
        intros [= -> ->]. done. }
      destruct (IH Hnd Hin' e1) as (e' & Hfor & Hsh' & Hpos' & Hq' & Hqo' & Ht' & Hborn & Hfr).
      { rewrite Hb1. by apply (placed_shape (engine_board e) i j (new_piece k t) g). }
      { rewrite Hb1.
        by apply (placed_positions (engine_board e) i j (new_piece k t) g). }
      { rewrite Hq1. by destruct rest. }
      { rewrite Hq1. apply Forall_app. split; [done|]. by repeat constructor. }
      rewrite Hfilter in Hq', Hborn, Hfr.
      exists e'. rewrite (bind_return _ _ _ _ _ Hrun).
      split; [exact Hfor|]. split; [done|]. split; [done|].
      split; [|split; [|split; [|split]]].
      * rewrite Hq', Hq1. simpl length. by rewrite rotate_S.
      * by rewrite Hqo'.
      * by rewrite Ht'.
      * intros [|n] sq letter0 Hsq Hsp; simpl in Hsq, Hsp.
        -- injection Hsq as <-. injection Hsp as <-.
           exists k. split; [done|]. simpl.
           rewrite Hfr; [|done..|].
           ++ rewrite Hb1.
              by apply (placed_piece_at_new (engine_board e) i j (new_piece k t) g).
           ++ intros Hx. apply filter_In in Hx as [Hx _].
              by apply Hnotin, list_elem_of_In.
        -- rewrite Hq1 in Hborn. by apply (Hborn n).
      * intros r c Hr Hc Hx. simpl in Hx.
        rewrite Hfr; [|done..|tauto]. rewrite Hb1. apply Hold; [done..|].
        intros Heq. apply Hx. by left.
    + destruct (IH Hnd Hin' e) as (e' & Hfor & Hrest); [done..|].
      exists e'. rewrite (bind_return _ _ _ _ _ (Hno eq_refl)). done.
Qed.

Lemma scan_order_NoDup (t : Side) : NoDup (scan_order t).
Proof. destruct t; apply (bool_decide_unpack _); vm_compute; exact I. Qed.

Lemma scan_order_in_range (t : Side) (sq : Z * Z) :
  sq ∈ scan_order t -> 0 <= fst sq < 8 /\ 0 <= snd sq < 8.
Proof.
  assert (H : Forall (fun sq : Z * Z => 0 <= fst sq < 8 /\ 0 <= snd sq < 8)
                (scan_order t)).
  { destruct t; apply (bool_decide_unpack _); vm_compute; exact I. }
  rewrite Forall_forall in H. apply H.
Qed.



(** * After the game is over *)

(** C1 fails on the code. [update_state] never reads
    [game_over_message]: once White has captured the black King and the
    message is set, the next enter moves the selected rook from a1 to e3,
    runs the turn resolution, hands the turn to Black and reports a state
    change. *)
Theorem moves_accepted_after_game_over :
  let e1 := state_of (play capture_the_king initial_engine) in
  let e2 := state_of (play play_on e1) in
  play capture_the_king initial_engine = Return e1 false
  /\ game_over_message e1 = Some "Black king was captured, white wins!"
  /\ current_turn e1 = White
  /\ str_piece <$> piece_at (engine_board e1) 0 0 = Some "R"
  /\ str_piece <$> piece_at (engine_board e1) 2 4 = Some " "
  /\ play play_on e1 = Return e2 true
  /\ game_over_message e2 = Some "Black king was captured, white wins!"
  /\ current_turn e2 = Black
  /\ str_piece <$> piece_at (engine_board e2) 0 0 = Some " "
  /\ str_piece <$> piece_at (engine_board e2) 2 4 = Some "R"
  /\ birth_counter_black <$> piece_at (engine_board e1) 5 1 = Some 0
  /\ birth_counter_black <$> piece_at (engine_board e2) 5 1 = Some 1
  /\ recent_moves_str e2 = ["Ra1->ke8"; "Ra1-> e3"].
Proof. vm_compute. repeat split; reflexivity. Qed.

(** * The turn message *)









(** * What one call of [update_state] changes *)

Lemma same_fields_refl (e : Engine) : same_fields e e.
Proof. by split. Qed.

Lemma same_fields_trans (e1 e2 e3 : Engine) :
  same_fields e1 e2 -> same_fields e2 e3 -> same_fields e1 e3.
Proof. intros [] []. split; congruence. Qed.

Lemma on_board_fields {A} (m : M Board A) (e e' : Engine) (a : A) :
  on_board m e = Return e' a ->
  same_fields e e' /\ game_over_message e' = game_over_message e
  /\ white_birth_queue e' = white_birth_queue e
  /\ black_birth_queue e' = black_birth_queue e.
Proof. intros E. apply on_board_inv in E as (b' & _ & ->). by repeat split. Qed.

Lemma set_queue_same_fields (s : Side) (q : list string) (e : Engine) :
  same_fields e (set_queue s q e)
  /\ game_over_message (set_queue s q e) = game_over_message e.
Proof. by destruct s. Qed.

Lemma birth_fields (s : Side) (i j : Z) (e e' : Engine) (u : unit) :
  birth s i j e = Return e' u ->
  same_fields e e' /\ game_over_message e' = game_over_message e.
Proof.
  intros E. unfold birth in E.
  apply bind_inv in E as (e1 & x & E1 & E).
  apply on_board_readonly in E1 as [-> E1]; [|apply readonly_get_piece].
  apply bind_inv in E as (e1 & piece & E2 & E).
  apply on_board_readonly in E2 as [-> E2]; [|apply readonly_deref].
  destruct (side_eqb (side piece) NoSide); [|by injection E as <-].
  destruct (birth_counter s piece =? 3); [|by injection E as <-].
  apply bind_inv in E as (e1 & e0 & E3 & E). injection E3 as <- <-.
  destruct (queue_of s e) as [|letter rest]; [done|].
  apply bind_inv in E as (e1 & u1 & E3 & E). injection E3 as <- _.
  apply bind_inv in E as (e2 & u2 & E3 & E).
  apply on_board_fields in E3 as (F2 & M2 & _).
  unfold modify in E. injection E as <-.
  destruct (set_queue_same_fields s rest e) as [F1 M1].
  destruct (set_queue_same_fields s (queue_of s e2 ++ [letter]) e2) as [F3 M3].
  split; [|congruence].
  eapply same_fields_trans; [exact F1|]. eapply same_fields_trans; [exact F2|exact F3].
Qed.

Lemma birth_pass_fields (e e' : Engine) (u : unit) :
  birth_pass e = Return e' u ->
  same_fields e e' /\ game_over_message e' = game_over_message e.
Proof.
  intros E. unfold birth_pass in E.
  apply bind_inv in E as (e1 & e0 & E1 & E). injection E1 as <- <-.
  set (I := fun e' : Engine =>
    same_fields e e' /\ game_over_message e' = game_over_message e).
  assert (Hloops : forall (s : Side) (rows : list Z),
    for_ rows (fun i => for_ (range 8) (fun j => birth s i j)) e = Return e' u ->
    I e').
  { intros s rows. apply (for_preserves I); [|split; [apply same_fields_refl|done]].
    intros i e1 e2 u1 HI. apply (for_preserves I); [|exact HI].
    intros j e3 e4 u2 [F M] Eb. apply birth_fields in Eb as [F' M'].
    split; [by eapply same_fields_trans|congruence]. }
  destruct (current_turn e); [by eapply Hloops..|].
  injection E as <-. split; [apply same_fields_refl|done].
Qed.

Lemma death_loop_fields (pieces : list Ref) (e e' : Engine) (r : bool) :
  death_loop pieces e = Return e' r ->
  same_fields e e'
  /\ (if r then game_over_message e' = game_over_message e
      else is_Some (game_over_message e')).
Proof.
  revert e. induction pieces as [|piece rest IH]; intros e E; simpl in E.
  - injection E as <- <-. split; [apply same_fields_refl|done].
  - apply bind_inv in E as (e1 & p & E1 & E).
    apply on_board_readonly in E1 as [-> E1]; [|apply readonly_deref].
    destruct (death_counter p =? 4); [|by apply IH].
    apply bind_inv in E as (e1 & e0 & E1' & E). injection E1' as <- <-.
    apply bind_inv in E as (e1 & alive & E2 & E).
    unfold try_except, bind in E2.
    destruct (on_board (kill_piece piece (current_turn e)) e) as [e2 u|e2 x] eqn:Ek.
    + unfold ret in E2. injection E2 as <- <-.
      apply on_board_fields in Ek as (F & M & _).
      apply IH in E as [F' M'].
      split; [by eapply same_fields_trans|].
      destruct r; [congruence|done].
    + destruct (str_exn x) as [msg|] eqn:Hx; [|done].
      unfold modify, ret in E2. injection E2 as <- <-.
      injection E as <- <-.
      unfold on_board in Ek.
      destruct (kill_piece piece (current_turn e) (engine_board e)); [done|].
      injection Ek as <- _. split; [by split|]. simpl. eauto.
Qed.

Lemma death_pass_fields (e e' : Engine) (r : bool) :
  death_pass e = Return e' r ->
  same_fields e e'
  /\ (if r then game_over_message e' = game_over_message e
      else is_Some (game_over_message e')).
Proof.
  intros E. unfold death_pass in E.
  apply bind_inv in E as (e1 & pieces & E1 & E).
  apply on_board_readonly in E1 as [-> _]; [|by intros b].
  by apply (death_loop_fields pieces).
Qed.

Lemma stockfish_branch_fields (sf : option Stockfish) (e e' : Engine) (k : Key) :
  stockfish_branch sf e = Return e' k ->
  engine_board e' = engine_board e
  /\ current_turn e' = current_turn e
  /\ recent_moves_str e' = recent_moves_str e
  /\ game_over_message e' = game_over_message e
  /\ white_birth_queue e' = white_birth_queue e
  /\ black_birth_queue e' = black_birth_queue e
  /\ (k = KeyStockfish \/ k = KeyEnter /\ is_Some (selected_piece e')).
Proof.
  intros E. unfold stockfish_branch in E.
  destruct sf as [sf|]; [|injection E as <- <-; tauto].
  destruct (get_best_move sf) as [[move|]|]; [|injection E as <- <-; tauto..].
  destruct (String.get 1 move) as [m1|]; [|injection E as <- <-; tauto].
  destruct (String.get 0 move) as [m0|]; [|injection E as <- <-; tauto].
  destruct (int_char m1) as [r|]; [|injection E as <- <-; tauto].
  destruct (on_board (get_piece (r - 1) (ord m0 - ord "a")) e) as [e1 x|] eqn:E1;
    [|injection E as <- <-; tauto].
  apply on_board_readonly in E1 as [-> E1]; [|apply readonly_get_piece].
  destruct (String.get 3 move) as [m3|]; [|injection E as <- <-; simpl; tauto].
  destruct (String.get 2 move) as [m2|]; [|injection E as <- <-; simpl; tauto].
  destruct (int_char m3) as [r'|]; injection E as <- <-; simpl; [|tauto].
  repeat split; try done. right. split; [done|]. eauto.
Qed.

(** The two ways [update_state] can return from a well-formed state:
    without touching the board, the queues or the turn; or after an
    accepted move. *)
Lemma update_state_cases (key : Key) (sf : option Stockfish) (e e' : Engine)
    (c : bool) :
  engine_ok e -> update_state key sf e = Return e' c ->
  (c = false /\ current_turn e' = current_turn e
   /\ engine_board e' = engine_board e
   /\ white_birth_queue e' = white_birth_queue e
   /\ black_birth_queue e' = black_birth_queue e
   /\ (recent_moves_str e' = recent_moves_str e
       /\ game_over_message e' = game_over_message e
       \/ (exists record, recent_moves_str e' = recent_moves_str e ++ [record])
          /\ is_Some (game_over_message e') /\ is_Some (selected_piece e')))
  \/ (current_turn e' = flip_turn (current_turn e)
      /\ selected_piece e' = None
      /\ (exists record, recent_moves_str e' = recent_moves_str e ++ [record])
      /\ (if c then game_over_message e' = game_over_message e
          else is_Some (game_over_message e'))).
Proof.
  intros Hok E. unfold update_state in E.
  apply bind_inv in E as (e1 & key' & E1 & E).
  assert (H1 : engine_ok e1 /\ engine_board e1 = engine_board e
               /\ current_turn e1 = current_turn e
               /\ recent_moves_str e1 = recent_moves_str e
               /\ game_over_message e1 = game_over_message e
               /\ white_birth_queue e1 = white_birth_queue e
               /\ black_birth_queue e1 = black_birth_queue e).
  { destruct key;
      try (unfold bind, modify, ret in E1; injection E1 as <- _;
           split; [first [exact Hok | by apply (engine_ok_ext e)]|done]).
    split; [by apply (stockfish_branch_ok sf e e1 key')|].
    apply stockfish_branch_fields in E1. tauto. }
  destruct H1 as (Hok1 & Hb1 & Ht1 & Hl1 & Hm1 & Hw1 & Hk1).
  rewrite <- Ht1, <- Hb1, <- Hl1, <- Hm1, <- Hw1, <- Hk1.
  clear E1 Hok Hb1 Ht1 Hl1 Hm1 Hw1 Hk1 e key.
  destruct key'; try (injection E as <- <-; left; tauto).
  - apply bind_inv in E as (e2 & e0 & Eg & E). injection Eg as <- <-.
    destruct (selected_piece e1) as [sel|] eqn:Hsel.
    + apply bind_inv in E as (e2 & dest & E2 & E).
      apply on_board_readonly in E2 as [-> E2]; [|apply readonly_get_piece].
      apply get_piece_inv in E2 as Hsq.
      apply bind_inv in E as (e2 & valid & E3 & E).
      assert (Hlog : valid = true ->
                exists record, recent_moves_str e2 = recent_moves_str e1 ++ [record]).
      { intros ->. unfold move_is_valid in E3.
        apply bind_inv in E3 as (e3 & s & E31 & E3).
        apply on_board_readonly in E31 as [-> E31]; [|apply readonly_deref].
        apply bind_inv in E3 as (e3 & d & E32 & E3).
        apply on_board_readonly in E32 as [-> E32]; [|apply readonly_deref].
        destruct (py_getitem col_labels (col s)); [|done].
        destruct (py_getitem col_labels (col d)); [|done].
        destruct (piece_move_is_valid s d); [|done].
        destruct sf as [sf|]; [destruct (is_move_correct sf) as [[|]|]|];
          try done; unfold bind, modify, ret in E3; injection E3 as <-; simpl; eauto. }
      assert (Hsame : valid = false -> recent_moves_str e2 = recent_moves_str e1).
      { intros ->. unfold move_is_valid in E3.
        apply bind_inv in E3 as (e3 & s & E31 & E3).
        apply on_board_readonly in E31 as [-> E31]; [|apply readonly_deref].
        apply bind_inv in E3 as (e3 & d & E32 & E3).
        apply on_board_readonly in E32 as [-> E32]; [|apply readonly_deref].
        destruct (py_getitem col_labels (col s)); [|done].
        destruct (py_getitem col_labels (col d)); [|done].
        destruct (piece_move_is_valid s d); [|by injection E3 as <-].
        destruct sf as [sf|]; [destruct (is_move_correct sf) as [[|]|]|];
          try done; by injection E3 as <-. }
      apply move_is_valid_inv in E3 as (Hb2 & Hs2 & Hw2 & Hk2 & Ht2 & Hm2 & Hv).
      assert (Hok2 : engine_ok e2) by by apply (engine_ok_ext e1).
      destruct valid.
      2:{ injection E as <- <-. left. rewrite Hsame by done. tauto. }
      destruct (Hlog eq_refl) as (record & Hrec).
      destruct (Hv eq_refl) as (s & d & Hs & Hd & Hvalid).
      apply bind_inv in E as (e3 & moved & E4 & E).
      pose proof (ok_board e1 Hok1) as Hbok.
      destruct (ok_selected e1 Hok1 sel Hsel) as (s' & Hsel_sq).
      assert (s' = s) as -> by (destruct Hsel_sq as (H & _); congruence).
      apply square_in_range in Hsq as Hsq'; [|apply Hbok].
      destruct Hsq' as (r' & c' & Hr' & Hc' & Hsq').
      destruct (positions_on_its_square (engine_board e1) r' c' dest)
        as (d' & Hdest_sq & _); [apply Hbok|done..|].
      assert (d' = d) as -> by (destruct Hdest_sq as (H & _); congruence).
      destruct (move_piece_run (engine_board e1) sel dest s d Hsel_sq Hdest_sq Hvalid)
        as (Hne & Hpos & Hking & Hmove).
      unfold try_except, bind at 1, on_board in E4. rewrite Hb2 in E4.
      rewrite (bind_return (get_piece _ _) _ (engine_board e1) (engine_board e1) dest)
        in E4 by (rewrite get_piece_square, Hsq; reflexivity).
      destruct (decide (kind d = King)) as [Hk|Hk].
      * rewrite (Hking Hk) in E4. simpl in E4.
        unfold bind, modify, ret in E4. injection E4 as <- <-.
        injection E as <- <-. left. simpl.
        repeat split; try done. right. rewrite Hs2.
        split; [eauto|]. split; eauto.
      * destruct (Hmove Hk) as (g & Hrun & Hdst & Hsrc & Hframe & Hshape).
        rewrite Hrun in E4. unfold ret in E4. injection E4 as <- <-.
        apply bind_inv in E as (ea & ua & Ea & E). injection Ea as <- _.
        apply bind_inv in E as (eb & ub & Eb & E). injection Eb as <- _.
        apply bind_inv in E as (ec & e0 & Ec & E). injection Ec as <- <-.
        apply bind_inv in E as (e5 & u5 & E5 & E).
        apply on_board_fields in E5 as (F5 & M5 & _).
        apply bind_inv in E as (e6 & u6 & E6 & E).
        apply birth_pass_fields in E6 as (F6 & M6).
        apply bind_inv in E as (e7 & survived & E7 & E).
        apply death_pass_fields in E7 as (F7 & M7).
        right.
        match type of F5 with
        | same_fields ?a _ => assert (F : same_fields a e7)
        end.
        { eapply same_fields_trans; [exact F5|].
          eapply same_fields_trans; [exact F6|exact F7]. }
        destruct survived.
        -- apply bind_inv in E as (e8 & u8 & E8 & E).
           apply on_board_fields in E8 as (F8 & M8 & _).
           injection E as <- <-.
           pose proof (same_fields_trans _ _ _ F F8) as [Ft Fl _ _ _ Fs].
           simpl in Ft, Fl, Fs, M5.
           rewrite Ft, Fs, Fl, Ht2. repeat split; [eauto|]. congruence.
        -- injection E as <- <-. destruct F as [Ft Fl _ _ _ Fs].
           simpl in Ft, Fl, Fs. rewrite Ft, Fs, Fl, Ht2. repeat split; [eauto|done].
    + left.
      apply bind_inv in E as (e2 & x & E2 & E).
      apply on_board_readonly in E2 as [-> E2]; [|apply readonly_get_piece].
      apply bind_inv in E as (e2 & p & E3 & E).
      apply on_board_readonly in E3 as [-> E3]; [|apply readonly_deref].
      destruct (side_eqb (side p) (current_turn e1));
        [|injection E as <- <-; tauto].
      apply bind_inv in E as (e2 & y & E4 & E).
      apply on_board_readonly in E4 as [-> E4]; [|apply readonly_get_piece].
      unfold bind, modify, ret in E. injection E as <- <-. simpl. tauto.
Qed.

(** X1. When [update_state] reports a state change, a move has been
    made: the turn went to the other side, nothing is selected, the move
    log is one record longer and the game-over message is what it was. *)
Theorem state_change_is_a_move (key : Key) (sf : option Stockfish)
    (e e' : Engine) :
  reachable e -> update_state key sf e = Return e' true ->
  current_turn e' = flip_turn (current_turn e)
  /\ selected_piece e' = None
  /\ (exists record, recent_moves_str e' = recent_moves_str e ++ [record])
  /\ game_over_message e' = game_over_message e.
Proof.
  intros Hr E. apply reachable_ok in Hr.
  destruct (update_state_cases key sf e e' true Hr E) as [(H & _)|H]; [done|tauto].
Qed.

Lemma state_change_is_a_move_witness :
  let e := state_of (play (removelast open_c2c4) initial_engine) in
  let e' := state_of (update_state KeyEnter None e) in
  current_turn e = White /\ current_turn e' = Black
  /\ recent_moves_str e' = recent_moves_str e ++ ["Pc2-> c4"].
Proof.
  intros e e'.
  destruct (state_change_is_a_move KeyEnter None e e') as (Ht & _ & _ & _).
  - eapply (play_reachable (removelast open_c2c4) initial_engine e false);
      [apply reachable_init|vm_compute; reflexivity].
  - vm_compute. reflexivity.
  - split; [vm_compute; reflexivity|]. split; [exact Ht|vm_compute; reflexivity].
Defined.

(** X2. When [update_state] reports no state change, either the board,
    both queues and the turn are what they were, or a move was made and
    the death pass ended the game: the turn has gone to the other side
    and the game-over message is set. *)
Theorem no_state_change (key : Key) (sf : option Stockfish) (e e' : Engine) :
  reachable e -> update_state key sf e = Return e' false ->
  (current_turn e' = current_turn e
   /\ engine_board e' = engine_board e
   /\ white_birth_queue e' = white_birth_queue e
   /\ black_birth_queue e' = black_birth_queue e)
  \/ (current_turn e' = flip_turn (current_turn e)
      /\ is_Some (game_over_message e')).
Proof.
  intros Hr E. apply reachable_ok in Hr.
  destruct (update_state_cases key sf e e' false Hr E) as [H|H]; [left|right]; tauto.
Qed.

Lemma no_state_change_witness :
  let e := state_of (play (removelast king_perishes) initial_engine) in
  let e' := state_of (update_state KeyEnter None e) in
  update_state KeyEnter None e = Return e' false
  /\ current_turn e = Black /\ current_turn e' = White
  /\ game_over_message e' = Some "White king perished, black wins!"
  /\ (current_turn e' = current_turn e \/ is_Some (game_over_message e')).
Proof.
  intros e e'.
  assert (E : update_state KeyEnter None e = Return e' false)
    by (vm_compute; reflexivity).
  split; [exact E|]. do 3 (split; [vm_compute; reflexivity|]).
  destruct (no_state_change KeyEnter None e e') as [(H & _)|(_ & H)].
  - eapply (play_reachable (removelast king_perishes) initial_engine e false);
      [apply reachable_init|vm_compute; reflexivity].
  - exact E.
  - by left.
  - by right.
Defined.

(** X3. Once set, the game-over message stays set: no call of
    [update_state] clears it. *)
Theorem game_over_message_stays (key : Key) (sf : option Stockfish)
    (e e' : Engine) (c : bool) :
  reachable e -> update_state key sf e = Return e' c ->
  is_Some (game_over_message e) -> is_Some (game_over_message e').
Proof.
  intros Hr E Hm. apply reachable_ok in Hr.
  destruct (update_state_cases key sf e e' c Hr E)
    as [(_ & _ & _ & _ & _ & [[_ H]|(_ & H & _)])|(_ & _ & _ & H)].
  - by rewrite H.
  - exact H.
  - destruct c; [by rewrite H|exact H].
Qed.

Lemma game_over_message_stays_witness :
  let e := state_of (play capture_the_king initial_engine) in
  is_Some (game_over_message (state_of (play play_on e))).
Proof.
  intros e.
  assert (Hr : reachable e).
  { eapply (play_reachable capture_the_king initial_engine e false);
      [apply reachable_init|vm_compute; reflexivity]. }
  set (e3 := state_of (play (removelast play_on) e)).
  apply (game_over_message_stays KeyEnter None e3 _ true).
  - eapply (play_reachable (removelast play_on) e e3 false);
      [exact Hr|vm_compute; reflexivity].
  - vm_compute. reflexivity.
  - vm_compute. eauto.
Defined.

Lemma reachable_turn (e : Engine) :
  reachable e -> current_turn e = White \/ current_turn e = Black.
Proof.
  induction 1 as [|e e' key sf c Hr IH E].
  - left. vm_compute. reflexivity.
  - apply reachable_ok in Hr.
    destruct (update_state_cases key sf e e' c Hr E) as [(_ & H & _)|(H & _)];
      rewrite H; [exact IH|].
    destruct (current_turn e); simpl; tauto.
Qed.

(** X4. In every state of a game the side to move is White or Black. *)
Theorem turn_is_white_or_black (e : Engine) :
  reachable e -> current_turn e = White \/ current_turn e = Black.
Proof. exact (reachable_turn e). Qed.

Lemma turn_is_white_or_black_witness :
  current_turn (state_of (play long_game initial_engine)) = White
  \/ current_turn (state_of (play long_game initial_engine)) = Black.
Proof.
  apply turn_is_white_or_black.
  eapply (play_reachable long_game initial_engine _ true);
    [apply reachable_init|vm_compute; reflexivity].
Defined.

(** * Neighbours *)

Lemma around_facts (r c : Z) :
  0 <= r < 8 -> 0 <= c < 8 ->
  Forall (fun sq : Z * Z => 0 <= fst sq < 8 /\ 0 <= snd sq < 8 /\ sq <> (r, c)
                            /\ Z.abs (fst sq - r) <= 1 /\ Z.abs (snd sq - c) <= 1)
         (around r c)
  /\ Forall (fun sq : Z * Z =>
               sq <> (r, c) -> Z.abs (fst sq - r) <= 1 -> Z.abs (snd sq - c) <= 1 ->
               sq ∈ around r c) all_squares
  /\ NoDup (around r c)
  /\ (3 <= length (around r c) <= 8)%nat.
Proof.
  intros Hr Hc. each_square r c Hr Hc;
    (split; [apply (bool_decide_unpack _); vm_compute; exact I|]);
    (split; [apply (bool_decide_unpack _); vm_compute; exact I|]);
    (split; [apply (bool_decide_unpack _); vm_compute; exact I|]);
    vm_compute; lia.
Qed.

Lemma map_m_pure {S A B} (f : A -> M S B) (g : A -> B) (l : list A) (s : S) :
  (forall a, a ∈ l -> f a s = Return s (g a)) ->
  map_m f l s = Return s (map g l).
Proof.
  induction l as [|a l IH]; intros Hf; simpl; [done|].
  rewrite (bind_return (f a) _ s s (g a)) by (apply Hf, list_elem_of_here).
  rewrite (bind_return (map_m f l) _ s s (map g l)); [done|].
  apply IH. intros a' Ha'. by apply Hf, list_elem_of_further.
Qed.

Lemma positions_square_ref (b : Board) (r c : Z) :
  positions b -> 0 <= r < 8 -> 0 <= c < 8 ->
  square b r c = Some (square_ref b (r, c)).
Proof.
  intros Hpos Hr Hc.
  destruct (positions_piece_at b r c Hpos Hr Hc) as (x & p & Hsq & _).
  unfold square_ref. simpl. by rewrite Hsq.
Qed.

Lemma surrounding_run (b : Board) (x : Ref) (p : Piece) :
  positions b -> on_its_square b x p ->
  get_surrounding_pieces x b
  = Return b (map (square_ref b) (around (row p) (col p))).
Proof.
  intros Hpos (Hp & Hr & Hc & _).
  unfold get_surrounding_pieces. rewrite (bind_deref _ _ _ _ Hp).
  set (g := fun ij : Z * Z =>
    if (fst ij =? 0) && (snd ij =? 0) then []
    else if (0 <=? row p + fst ij) && (row p + fst ij <? 8)
            && (0 <=? col p + snd ij) && (col p + snd ij <? 8)
    then [square_ref b (row p + fst ij, col p + snd ij)] else []).
  erewrite bind_return; cycle 1.
  { apply (map_m_pure _ g). intros [i j] _. unfold g. simpl.
    destruct ((i =? 0) && (j =? 0)); [done|].
    destruct ((0 <=? row p + i) && (row p + i <? 8)
              && (0 <=? col p + j) && (col p + j <? 8)) eqn:Hin; [|done].
    rewrite (bind_return (get_piece _ _) _ b b (square_ref b (row p + i, col p + j)));
      [done|].
    rewrite get_piece_square, positions_square_ref; [done|done|lia..]. }
  unfold ret. f_equal. subst g.
  revert Hr Hc. generalize (row p) (col p). intros r c Hr Hc.
  each_square r c Hr Hc; reflexivity.
Qed.

Lemma all_squares_complete (r c : Z) :
  0 <= r < 8 -> 0 <= c < 8 -> (r, c) ∈ all_squares.
Proof.
  intros Hr Hc. each_square r c Hr Hc; apply (bool_decide_unpack _); vm_compute; exact I.
Qed.

(** Two squares that hold the same object are one square. *)
Lemma positions_injective (b : Board) (r c r' c' : Z) (x : Ref) :
  positions b -> 0 <= r < 8 -> 0 <= c < 8 -> 0 <= r' < 8 -> 0 <= c' < 8 ->
  square b r c = Some x -> square b r' c' = Some x -> (r, c) = (r', c').
Proof.
  intros Hpos Hr Hc Hr' Hc' H1 H2.
  destruct (positions_on_its_square b r c x Hpos Hr Hc H1) as (p & (Hp & _) & <- & <-).
  destruct (positions_on_its_square b r' c' x Hpos Hr' Hc' H2) as (p' & (Hp' & _) & <- & <-).
  congruence.
Qed.

(** X5. On a well-formed board [get_surrounding_pieces] returns, for a
    piece standing on its square, the occupants of exactly the squares of
    the board at distance one from it: between 3 and 8 of them, and never
    the piece itself. *)
Theorem surrounding_pieces_spec (b : Board) (x : Ref) (p : Piece) :
  positions b -> on_its_square b x p ->
  exists refs,
    get_surrounding_pieces x b = Return b refs
    /\ (3 <= length refs <= 8)%nat
    /\ (x ∉ refs)
    /\ (forall y, (y ∈ refs) <->
          (exists r c, 0 <= r < 8 /\ 0 <= c < 8 /\ (r, c) <> (row p, col p)
             /\ Z.abs (r - row p) <= 1 /\ Z.abs (c - col p) <= 1
             /\ square b r c = Some y)).
Proof.
  intros Hpos Hx. pose proof Hx as (Hp & Hr & Hc & Hsq).
  destruct (around_facts (row p) (col p) Hr Hc) as (Hin & Hall & _ & Hlen).
  rewrite Forall_forall in Hin. rewrite Forall_forall in Hall.
  assert (Hmem : forall y, (y ∈ map (square_ref b) (around (row p) (col p))) <->
            (exists r c, 0 <= r < 8 /\ 0 <= c < 8 /\ (r, c) <> (row p, col p)
               /\ Z.abs (r - row p) <= 1 /\ Z.abs (c - col p) <= 1
               /\ square b r c = Some y)).
  { intros y. rewrite list_elem_of_In, in_map_iff. split.
    - intros ([r c] & <- & Hsq'). apply list_elem_of_In in Hsq'.
      destruct (Hin _ Hsq') as (Hr' & Hc' & Hne & Hdr & Hdc). simpl in *.
      exists r, c. do 5 (split; [done|]). by apply positions_square_ref.
    - intros (r & c & Hr' & Hc' & Hne & Hdr & Hdc & Hy).
      exists (r, c). split.
      + rewrite positions_square_ref in Hy by done. by injection Hy.
      + apply list_elem_of_In. apply (Hall (r, c)); try done.
        by apply all_squares_complete. }
  exists (map (square_ref b) (around (row p) (col p))).
  split; [by apply surrounding_run|]. split; [by rewrite length_map|].
  split; [|exact Hmem].
  intros Hself. apply Hmem in Hself as (r & c & Hr' & Hc' & Hne & _ & _ & Hy).
  apply Hne. by apply (positions_injective b r c (row p) (col p) x).
Qed.

Lemma surrounding_pieces_spec_witness :
  get_surrounding_pieces 64 initial_board = Return initial_board [65; 72; 73]%nat
  /\ exists refs, get_surrounding_pieces 64 initial_board = Return initial_board refs
       /\ (3 <= length refs <= 8)%nat.
Proof.
  split; [vm_compute; reflexivity|].
  destruct (surrounding_pieces_spec initial_board 64
              (set_position (new_piece Rook White) 0 0)) as (refs & H & Hlen & _).
  - intros r c Hr Hc. each_square r c Hr Hc; vm_compute; eauto.
  - on_square.
  - exists refs. by split.
Defined.

(** * All pieces tick at once *)

Lemma count_side_sides (s : Side) (ns ns' : list Piece) :
  side <$> ns = side <$> ns' -> count_side s ns = count_side s ns'.
Proof.
  revert ns'. induction ns as [|p ns IH]; intros [|p' ns'] H; try done.
  rewrite !fmap_cons in H. injection H as Hs H. simpl. by rewrite Hs, (IH ns').
Qed.

Lemma tick_sides (p : Piece) (ns ns' : list Piece) (t : Side) (f : bool) :
  side <$> ns = side <$> ns' -> tick p ns t f = tick p ns' t f.
Proof.
  intros H. unfold tick.
  by rewrite !(count_side_sides _ ns ns' H).
Qed.

Lemma neighbours_refs (b : Board) (r c : Z) :
  positions b -> 0 <= r < 8 -> 0 <= c < 8 ->
  map (fun y => default Empty (store b !! y)) (map (square_ref b) (around r c))
  = neighbours b r c
  /\ Forall (fun y => is_Some (store b !! y)) (map (square_ref b) (around r c)).
Proof.
  intros Hpos Hr Hc.
  destruct (around_facts r c Hr Hc) as (Hin & _).
  unfold neighbours. induction Hin as [|[r' c'] l (Hr' & Hc' & _) Hin IH]; [done|].
  destruct (positions_piece_at b r' c' Hpos Hr' Hc') as (x & q & Hsq & Hq & Hat).
  destruct IH as [IH1 IH2]. simpl in *.
  assert (square_ref b (r', c') = x) as -> by (unfold square_ref; simpl; by rewrite Hsq).
  rewrite Hat, Hq. simpl. rewrite IH1. split; [done|]. constructor; eauto.
Qed.

Lemma tick_piece_run (t : Side) (f : bool) (b : Board) (x : Ref) (p : Piece) :
  positions b -> on_its_square b x p ->
  tick_piece t f x b
  = Return (mkBoard (<[x := tick p (neighbours b (row p) (col p)) t f]> (store b))
                    (board b)) tt.
Proof.
  intros Hpos Hx. pose proof Hx as (Hp & Hr & Hc & _).
  unfold tick_piece.
  rewrite (bind_return _ _ _ _ _ (surrounding_run b x p Hpos Hx)).
  rewrite (bind_deref _ _ _ _ Hp).
  destruct (neighbours_refs b (row p) (col p) Hpos Hr Hc) as [Hns Hall].
  erewrite bind_return; cycle 1.
  { apply (map_m_pure _ (fun y => default Empty (store b !! y))).
    intros y Hy. rewrite Forall_forall in Hall. apply list_elem_of_In in Hy.
    destruct (Hall y) as [q Hq]; [by apply list_elem_of_In|].
    rewrite (deref_some _ _ _ Hq), Hq. done. }
  by rewrite Hns.
Qed.

Lemma piece_at_layouts (b b' : Board) (r c : Z) :
  board b' = board b -> layouts b' = layouts b ->
  layout <$> piece_at b' r c = layout <$> piece_at b r c.
Proof.
  intros Hb Hl. rewrite <- !layout_at_piece_at. by apply layout_at_layouts.
Qed.

Lemma neighbours_sides (b b' : Board) (r c : Z) :
  board b' = board b -> layouts b' = layouts b ->
  side <$> neighbours b' r c = side <$> neighbours b r c.
Proof.
  intros Hb Hl. unfold neighbours.
  induction (around r c) as [|[r' c'] l IH]; [done|]. simpl.
  pose proof (piece_at_layouts b b' r' c' Hb Hl) as H.
  destruct (piece_at b' r' c') as [q'|], (piece_at b r' c') as [q|];
    try done.
  change (side q' :: (side <$> omap (fun sq => piece_at b' (fst sq) (snd sq)) l)
          = side q :: (side <$> omap (fun sq => piece_at b (fst sq) (snd sq)) l)).
  rewrite IH. f_equal. simpl in H. unfold layout in H. congruence.
Qed.

Lemma positions_layouts (b b' : Board) :
  board b' = board b -> layouts b' = layouts b -> positions b -> positions b'.
Proof.
  intros Hb Hl Hpos r c Hr Hc. rewrite (layout_at_layouts b b') by done.
  by apply Hpos.
Qed.

(** The loop of [tick_all] over objects that stand on their squares,
    each of them once. *)
Lemma tick_loop (t : Side) (f : bool) (b0 : Board) :
  positions b0 ->
  forall l, NoDup l -> (forall x, x ∈ l -> exists p, on_its_square b0 x p) ->
  forall b1, board b1 = board b0 -> layouts b1 = layouts b0 ->
    (forall x, x ∈ l -> store b1 !! x = store b0 !! x) ->
    exists b2,
      for_ l (tick_piece t f) b1 = Return b2 tt
      /\ board b2 = board b0 /\ layouts b2 = layouts b0
      /\ (forall x p, x ∈ l -> store b0 !! x = Some p ->
            store b2 !! x = Some (tick p (neighbours b0 (row p) (col p)) t f))
      /\ (forall y, y ∉ l -> store b2 !! y = store b1 !! y).
Proof.
  intros Hpos. induction l as [|x l IH]; intros Hnd Hon b1 Hb Hl Hst.
  - exists b1. simpl. split; [done|]. split; [done|]. split; [done|].
    split; [|done]. intros x p Hx. by apply elem_of_nil in Hx.
  - apply NoDup_cons in Hnd as [Hx Hnd].
    destruct (Hon x) as (p & Hp0 & Hr & Hc & Hsq0); [apply list_elem_of_here|].
    assert (Hp1 : store b1 !! x = Some p)
      by (rewrite Hst; [done|apply list_elem_of_here]).
    assert (Hon1 : on_its_square b1 x p).
    { split; [done|]. split; [done|]. split; [done|]. unfold square. by rewrite Hb. }
    pose proof (positions_layouts b0 b1 Hb Hl Hpos) as Hpos1.
    pose proof (tick_piece_run t f b1 x p Hpos1 Hon1) as Hrun.
    rewrite (tick_sides p _ (neighbours b0 (row p) (col p)))
      in Hrun by by apply neighbours_sides.
    set (p' := tick p (neighbours b0 (row p) (col p)) t f) in *.
    set (b1' := mkBoard (<[x := p']> (store b1)) (board b1)) in *.
    assert (Hlt : (x < length (store b1))%nat) by by eapply lookup_lt_Some.
    destruct (IH Hnd (fun y Hy => Hon y (list_elem_of_further _ _ _ Hy)) b1')
      as (b2 & Hfor & Hb2 & Hl2 & Hdone & Hother).
    { done. }
    { rewrite <- Hl. unfold layouts, b1'; simpl.
      rewrite list_fmap_insert. apply list_insert_id.
      rewrite list_lookup_fmap, Hp1. unfold p'. by rewrite layout_tick. }
    { intros y Hy. unfold b1'; simpl.
      rewrite list_lookup_insert_ne by (intros ->; done).
      apply Hst. by apply list_elem_of_further. }
    exists b2. simpl for_. rewrite (bind_return _ _ _ _ _ Hrun).
    split; [exact Hfor|]. split; [done|]. split; [done|]. split.
    + intros y q Hy Hq. apply elem_of_cons in Hy as [->|Hy]; [|by apply Hdone].
      rewrite Hother by done. unfold b1'; simpl.
      rewrite list_lookup_insert_eq by done.
      rewrite Hp0 in Hq. by injection Hq as <-.
    + intros y Hy. apply not_elem_of_cons in Hy as [Hne Hy].
      rewrite Hother by done. unfold b1'; simpl.
      by rewrite list_lookup_insert_ne.
Qed.

Lemma NoDup_concat_inj {A} (g : list (list A)) :
  (forall i j i' j' l l' x,
     g !! i = Some l -> l !! j = Some x -> g !! i' = Some l' -> l' !! j' = Some x ->
     i = i' /\ j = j') ->
  NoDup (concat g).
Proof.
  induction g as [|l g IH]; intros Hinj; simpl; [constructor|].
  apply NoDup_app. split; [|split].
  - apply NoDup_alt. intros j j' x Hj Hj'.
    by destruct (Hinj 0%nat j 0%nat j' l l x eq_refl Hj eq_refl Hj').
  - intros x Hx Hx'.
    apply list_elem_of_lookup in Hx as [j Hj].
    apply list_elem_of_In, in_concat in Hx' as (l' & Hl' & Hx').
    apply list_elem_of_In, list_elem_of_lookup in Hl' as [i' Hi'].
    apply list_elem_of_In, list_elem_of_lookup in Hx' as [j' Hj'].
    by destruct (Hinj 0%nat j (S i') j' l l' x eq_refl Hj Hi' Hj').
  - apply IH. intros i j i' j' l1 l2 x H1 H2 H3 H4.
    destruct (Hinj (S i) j (S i') j' l1 l2 x H1 H2 H3 H4) as [? ?]. split; lia.
Qed.

Lemma get_pieces_NoDup (b : Board) :
  shape b -> positions b -> NoDup (concat (board b)).
Proof.
  intros Hsh Hpos. apply NoDup_concat_inj.
  intros i j i' j' l l' x Hl Hx Hl' Hx'.
  destruct (shape_lookup b i j l x Hsh Hl Hx) as (Hi & Hj & Hsq).
  destruct (shape_lookup b i' j' l' x Hsh Hl' Hx') as (Hi' & Hj' & Hsq').
  pose proof (positions_injective b _ _ _ _ x Hpos Hi Hj Hi' Hj' Hsq Hsq') as H.
  injection H as H1 H2. lia.
Qed.

Lemma square_in_pieces (b : Board) (r c : Z) (x : Ref) :
  0 <= r -> 0 <= c -> square b r c = Some x -> x ∈ concat (board b).
Proof.
  intros Hr Hc Hsq. apply square_lookup in Hsq as (l & Hl & Hx); [|done..].
  apply list_elem_of_In, in_concat. exists l.
  split; apply list_elem_of_In, list_elem_of_lookup; eauto.
Qed.

Lemma tick_all_run (t : Side) (f : bool) (b : Board) :
  shape b -> positions b ->
  exists b',
    tick_all t f b = Return b' tt
    /\ board b' = board b
    /\ length (store b') = length (store b)
    /\ (forall r c p, 0 <= r < 8 -> 0 <= c < 8 -> piece_at b r c = Some p ->
          piece_at b' r c = Some (tick p (neighbours b r c) t f)).
Proof.
  intros Hsh Hpos.
  destruct (tick_loop t f b Hpos (concat (board b)) (get_pieces_NoDup b Hsh Hpos))
    with (b1 := b) as (b' & Hfor & Hb & Hl & Hdone & _); try done.
  { intros x Hx. apply get_pieces_in_range in Hx as (r & c & Hr & Hc & Hsq); [|done].
    destruct (positions_on_its_square b r c x Hpos Hr Hc Hsq) as (p & Hp & _). eauto. }
  exists b'. split; [exact Hfor|]. split; [done|]. split.
  - assert (H : length (layouts b') = length (layouts b)) by by rewrite Hl.
    unfold layouts in H. by rewrite !length_fmap in H.
  - intros r c p Hr Hc Hat. unfold piece_at in *. unfold square in *. rewrite Hb.
    fold (square b r c) in *.
    destruct (square b r c) as [x|] eqn:Hsq; [|done].
    destruct (positions_on_its_square b r c x Hpos Hr Hc Hsq) as (p0 & (Hp0 & _) & Hrow & Hcol).
    assert (p0 = p) as -> by congruence.
    rewrite <- Hrow, <- Hcol. apply Hdone; [|done].
    apply (square_in_pieces b r c); [lia|lia|done].
Qed.

(** X6. On a well-formed board [tick_all] returns, leaves every square
    with the object it held and creates none, and has ticked every piece
    of the board exactly once against its neighbours as they stood: the
    piece on a square afterwards is [tick] of the piece that was there,
    with the neighbours of the board before the pass. *)
Theorem tick_all_at_once (t : Side) (f : bool) (b : Board) :
  shape b -> positions b ->
  exists b',
    tick_all t f b = Return b' tt
    /\ board b' = board b
    /\ length (store b') = length (store b)
    /\ (forall r c p, 0 <= r < 8 -> 0 <= c < 8 -> piece_at b r c = Some p ->
          piece_at b' r c = Some (tick p (neighbours b r c) t f)).
Proof. exact (tick_all_run t f b). Qed.

Lemma tick_all_at_once_witness :
  exists b', tick_all Black true initial_board = Return b' tt
    /\ birth_counter_black <$> piece_at b' 5 3 = Some 1
    /\ death_counter <$> piece_at b' 7 3 = Some 1
    /\ death_counter <$> piece_at b' 0 3 = Some 0.
Proof.
  destruct (tick_all_at_once Black true initial_board) as (b' & Hrun & _ & _ & Hat).
  - vm_compute. reflexivity.
  - intros r c Hr Hc. each_square r c Hr Hc; vm_compute; eauto.
  - exists b'. split; [exact Hrun|].
    split; [|split].
    + erewrite (Hat 5 3); [|lia|lia|vm_compute; reflexivity]. vm_compute. reflexivity.
    + erewrite (Hat 7 3); [|lia|lia|vm_compute; reflexivity]. vm_compute. reflexivity.
    + erewrite (Hat 0 3); [|lia|lia|vm_compute; reflexivity]. vm_compute. reflexivity.
Defined.

(** ** [update_state] returns *)

Lemma on_board_get_piece (e : Engine) (r c : Z) (x : Ref) :
  square (engine_board e) r c = Some x -> on_board (get_piece r c) e = Return e x.
Proof.
  intros H. unfold on_board. rewrite get_piece_square, H. by rewrite with_board_id.
Qed.

Lemma on_board_deref (e : Engine) (x : Ref) (p : Piece) :
  store (engine_board e) !! x = Some p -> on_board (deref x) e = Return e p.
Proof.
  intros H. unfold on_board. rewrite (deref_some _ _ _ H). by rewrite with_board_id.
Qed.

Lemma col_label_some (c : Z) : 0 <= c < 8 -> is_Some (py_getitem col_labels c).
Proof.
  intros H.
  assert (c = 0 \/ c = 1 \/ c = 2 \/ c = 3 \/ c = 4 \/ c = 5 \/ c = 6 \/ c = 7)
    as Hc by lia.
  repeat (destruct Hc as [->|Hc]; [eexists; reflexivity|]).
  subst c. eexists; reflexivity.
Qed.

Lemma move_is_valid_run (sel dest : Ref) (sf : option Stockfish) (e : Engine)
    (s d : Piece) :
  store (engine_board e) !! sel = Some s ->
  store (engine_board e) !! dest = Some d ->
  0 <= col s < 8 -> 0 <= col d < 8 ->
  exists e1 v,
    move_is_valid sel dest sf e = Return e1 v
    /\ cursor_row e1 = cursor_row e /\ cursor_col e1 = cursor_col e.
Proof.
  intros Hs Hd Hcs Hcd. unfold move_is_valid.
  rewrite (bind_return (on_board (deref sel)) _ e e s (on_board_deref e sel s Hs)).
  rewrite (bind_return (on_board (deref dest)) _ e e d (on_board_deref e dest d Hd)).
  destruct (col_label_some _ Hcs) as [ls ->].
  destruct (col_label_some _ Hcd) as [ld ->].
  destruct (piece_move_is_valid s d); [|by eexists _, _].
  destruct sf as [sf|]; [destruct (is_move_correct sf) as [[]|]|];
    by eexists _, _.
Qed.

Lemma tick_all_returns (t : Side) (f : bool) (e : Engine) :
  engine_ok e -> selected_piece e = None ->
  exists e',
    on_board (tick_all t f) e = Return e' tt
    /\ engine_ok e' /\ selected_piece e' = None /\ same_fields e e'.
Proof.
  intros Hok Hsel.
  destruct (tick_all_run t f (engine_board e)) as (b' & Hrun & _);
    [apply Hok..|].
  assert (E : on_board (tick_all t f) e = Return (with_board e b') tt)
    by (unfold on_board; by rewrite Hrun).
  exists (with_board e b'). split; [exact E|].
  destruct (tick_all_ok t f e _ tt Hok Hsel E) as (H1 & H2 & _).
  destruct (on_board_fields _ _ _ _ E) as (H3 & _).
  done.
Qed.

Lemma queue_usable (s : Side) (e : Engine) :
  engine_ok e -> s <> NoSide ->
  queue_of s e <> []
  /\ Forall (fun x => is_Some (kind_of_letter x)) (queue_of s e).
Proof.
  intros Hok Hs. destruct (engine_ok_queue e s Hok Hs) as [Hq _].
  rewrite Hq. split.
  - intros H. apply (f_equal length) in H. rewrite rotate_length in H.
    vm_compute in H. discriminate.
  - apply Forall_forall. intros x Hx. apply rotate_elem in Hx.
    destruct (seed_queue_kinds x Hx) as (k & -> & _). by eexists.
Qed.

Lemma birth_pass_returns (e : Engine) :
  engine_ok e -> selected_piece e = None -> current_turn e <> NoSide ->
  exists e',
    birth_pass e = Return e' tt
    /\ engine_ok e' /\ selected_piece e' = None /\ same_fields e e'.
Proof.
  intros Hok Hsel Ht.
  destruct (queue_usable _ e Hok Ht) as [Hq Hvalid].
  destruct (births_run (current_turn e) (scan_order (current_turn e)) Ht
              (scan_order_NoDup _) (scan_order_in_range _) e
              (ok_shape _ (ok_board e Hok)) (ok_positions _ (ok_board e Hok))
              Hq Hvalid) as (e' & Hfor & _).
  assert (E : birth_pass e = Return e' tt).
  { unfold birth_pass, bind, get.
    destruct (current_turn e); [| |done]; rewrite for_nested; exact Hfor. }
  exists e'. split; [exact E|].
  destruct (birth_pass_ok e e' tt Hok Hsel E) as (H1 & H2 & _).
  destruct (birth_pass_fields e e' tt E) as (H3 & _).
  done.
Qed.

Lemma death_loop_returns (pieces : list Ref) :
  forall e, engine_ok e -> selected_piece e = None ->
    in_range_refs (engine_board e) pieces ->
    exists e' r, death_loop pieces e = Return e' r.
Proof.
  induction pieces as [|piece rest IH]; intros e Hok Hsel Hin.
  - by eexists _, _.
  - apply Forall_cons in Hin as [(p & Hp & Hr & Hc) Hin].
    cbn [death_loop].
    rewrite (bind_return (on_board (deref piece)) _ e e p (on_board_deref e piece p Hp)).
    destruct (death_counter p =? 4) eqn:Hdc; [|by apply IH].
    pose proof (ok_board e Hok) as Hbok.
    destruct (positions_piece_at (engine_board e) (row p) (col p)
                (ok_positions _ Hbok) Hr Hc) as (x & o & Hsq & Ho & _).
    destruct (kill_piece_run (engine_board e) piece x p o (current_turn e)
                Hp (proj1 Hr) (proj1 Hc) Hsq Ho) as (Hnoop & Hking & Hkill).
    unfold bind at 1, get. unfold bind at 1, try_except, bind at 1, on_board.
    destruct (decide (side p = current_turn e)) as [Hside|Hside].
    + destruct (decide (kind o = King)) as [Hk|Hk].
      * rewrite (Hking Hside Hk). do 2 eexists. reflexivity.
      * destruct (Hkill Hside Hk) as (g & Hrun & Hnew & Hframe & Hshape).
        rewrite Hrun. cbv beta iota. unfold ret at 1.
        match goal with
        | |- exists e' r, death_loop rest ?e1 = _ =>
            assert (E1 : death_loop [piece] e = Return e1 true)
        end.
        { cbn [death_loop].
          rewrite (bind_return (on_board (deref piece)) _ e e p
                     (on_board_deref e piece p Hp)).
          rewrite Hdc.
          unfold bind at 1, get. unfold bind at 1, try_except, bind at 1, on_board.
          rewrite Hrun. reflexivity. }
        apply death_loop_ok in E1 as [Hok1 Hsel1]; [|exact Hok|exact Hsel|];
          [|apply Forall_cons; split; [by exists p|constructor]].
        apply IH; [exact Hok1|exact Hsel1|].
        unfold in_range_refs in *. eapply Forall_impl; [exact Hin|].
        intros y (q & Hq & Hqr & Hqc). exists q. split; [|done].
        apply lookup_lt_Some in Hq as Hlt.
        cbn [store engine_board with_board].
        rewrite list_lookup_insert_ne by lia. by rewrite lookup_app_l.
    + rewrite (Hnoop Hside). cbv beta iota. unfold ret at 1.
      rewrite with_board_id. by apply IH.
Qed.

Lemma death_pass_returns (e : Engine) :
  engine_ok e -> selected_piece e = None ->
  exists e' r,
    death_pass e = Return e' r
    /\ engine_ok e' /\ selected_piece e' = None /\ same_fields e e'.
Proof.
  intros Hok Hsel.
  destruct (death_loop_returns (concat (board (engine_board e))) e Hok Hsel)
    as (e' & r & E0); [apply get_pieces_in_range_refs, Hok|].
  assert (E : death_pass e = Return e' r).
  { unfold death_pass, bind at 1, on_board, get_pieces. by rewrite with_board_id. }
  exists e', r. split; [exact E|].
  destruct (death_pass_ok e e' r Hok Hsel E) as (H1 & H2).
  destruct (death_pass_fields e e' r E) as (H3 & _).
  done.
Qed.

Lemma enter_returns (sf : option Stockfish) (e : Engine) :
  engine_ok e -> cursor_on_board e ->
  exists e' c,
    update_state KeyEnter sf e = Return e' c
    /\ cursor_row e' = cursor_row e /\ cursor_col e' = cursor_col e.
Proof.
  intros Hok [Hr Hc]. pose proof (ok_board e Hok) as Hbok.
  destruct (positions_piece_at (engine_board e) _ _ (ok_positions _ Hbok) Hr Hc)
    as (dest & d & Hsq & Hd & _).
  unfold update_state. unfold bind at 1, ret at 1. cbv beta iota.
  unfold bind at 1, get.
  destruct (selected_piece e) as [sel|] eqn:Hsel.
  - rewrite (bind_return (on_board (get_piece _ _)) _ e e dest
               (on_board_get_piece e _ _ dest Hsq)).
    destruct (ok_selected e Hok sel Hsel) as (s & Hs_sq).
    destruct (positions_on_its_square (engine_board e) _ _ dest
                (ok_positions _ Hbok) Hr Hc Hsq) as (d' & Hd_sq & _).
    assert (d' = d) as -> by (destruct Hd_sq as (H & _); congruence).
    destruct (move_is_valid_run sel dest sf e s d) as (e1 & v & E1 & Hcr & Hcc);
      [apply Hs_sq|done|apply Hs_sq|apply Hd_sq|].
    rewrite (bind_return (move_is_valid sel dest sf) _ e e1 v E1).
    destruct (move_is_valid_inv _ _ _ _ _ _ E1) as (Hb1 & Hs1 & Hw1 & Hk1 & Ht1 & Hm1 & Hv).
    destruct v; [|do 2 eexists; split; [reflexivity|done]].
    destruct (Hv eq_refl) as (s' & d' & Hs' & Hd' & Hvalid).
    assert (s' = s) as -> by (destruct Hs_sq as (H & _); congruence).
    assert (d' = d) as -> by congruence.
    destruct (move_piece_run (engine_board e) sel dest s d Hs_sq Hd_sq Hvalid)
      as (Hne & Hpos & Hking & Hmove).
    unfold bind at 1, try_except, bind at 1, on_board. rewrite Hb1.
    rewrite (bind_return (get_piece _ _) _ (engine_board e) (engine_board e) dest)
      by (rewrite get_piece_square, Hsq; reflexivity).
    destruct (decide (kind d = King)) as [Hk|Hk].
    + rewrite (Hking Hk). do 2 eexists. split; [reflexivity|done].
    + destruct (Hmove Hk) as (g & Hrun & Hdst & Hsrc & Hframe & Hshape).
      rewrite Hrun. cbv beta iota. unfold ret at 1. cbv beta iota.
      unfold bind at 1, modify at 1. unfold bind at 1, modify at 1.
      unfold bind at 1, get.
      match goal with
      | |- exists e' c, bind _ _ ?e = _ /\ _ => set (e2 := e)
      end.
      assert (Hok2 : engine_ok e2).
      { eapply (moved_engine_ok e sel dest s d g); try done; subst e2; simpl; congruence. }
      assert (Hsel2 : selected_piece e2 = None) by reflexivity.
      assert (Hcur2 : cursor_row e2 = cursor_row e /\ cursor_col e2 = cursor_col e)
        by (subst e2; simpl; done).
      assert (Ht2 : current_turn e2 <> NoSide)
        by (subst e2; simpl; by destruct (current_turn e1)).
      clearbody e2.
      destruct (tick_all_returns (current_turn e2) true e2 Hok2 Hsel2)
        as (e3 & E3 & Hok3 & Hsel3 & F3).
      rewrite (bind_return (on_board (tick_all _ _)) _ e2 e3 tt E3).
      destruct (birth_pass_returns e3 Hok3 Hsel3) as (e4 & E4 & Hok4 & Hsel4 & F4);
        [by rewrite (sf_turn _ _ F3)|].
      rewrite (bind_return birth_pass _ e3 e4 tt E4).
      destruct (death_pass_returns e4 Hok4 Hsel4) as (e5 & r & E5 & Hok5 & Hsel5 & F5).
      rewrite (bind_return death_pass _ e4 e5 r E5).
      pose proof (same_fields_trans _ _ _ F3 (same_fields_trans _ _ _ F4 F5)) as F.
      destruct r.
      * destruct (tick_all_returns (current_turn e2) false e5 Hok5 Hsel5)
          as (e6 & E6 & Hok6 & Hsel6 & F6).
        rewrite (bind_return (on_board (tick_all _ _)) _ e5 e6 tt E6).
        do 2 eexists. split; [reflexivity|].
        pose proof (same_fields_trans _ _ _ F F6) as [_ _ _ H1 H2 _].
        rewrite H1, H2. done.
      * do 2 eexists. split; [reflexivity|].
        destruct F as [_ _ _ H1 H2 _]. rewrite H1, H2. done.
  - rewrite (bind_return (on_board (get_piece _ _)) _ e e dest
               (on_board_get_piece e _ _ dest Hsq)).
    rewrite (bind_return (on_board (deref dest)) _ e e d (on_board_deref e dest d Hd)).
    destruct (side_eqb (side d) (current_turn e)).
    + rewrite (bind_return (on_board (get_piece _ _)) _ e e dest
                 (on_board_get_piece e _ _ dest Hsq)).
      do 2 eexists. split; [reflexivity|done].
    + do 2 eexists. split; [reflexivity|done].
Qed.

Lemma update_state_run (key : Key) (sf : option Stockfish) (e : Engine) :
  reachable e -> cursor_on_board e -> (key = KeyStockfish -> sf = None) ->
  exists e' c, update_state key sf e = Return e' c /\ cursor_on_board e'.
Proof.
  intros Hr Hc Hsf. destruct key.
  - destruct (enter_returns sf e (reachable_ok e Hr) Hc) as (e1 & c1 & E & H1 & H2).
    exists e1, c1. split; [exact E|]. unfold cursor_on_board. by rewrite H1, H2.
  - rewrite (Hsf eq_refl). by exists e, false.
  - eexists _, false. split; [reflexivity|].
    split; [apply Z.mod_pos_bound; lia|apply Hc].
  - eexists _, false. split; [reflexivity|].
    split; [apply Z.mod_pos_bound; lia|apply Hc].
  - eexists _, false. split; [reflexivity|].
    split; [apply Hc|apply Z.mod_pos_bound; lia].
  - eexists _, false. split; [reflexivity|].
    split; [apply Hc|apply Z.mod_pos_bound; lia].
  - eexists _, false. split; [reflexivity|]. exact Hc.
Qed.

Lemma play_returns (keys : list Key) :
  forall e c0, reachable e -> cursor_on_board e ->
    exists e' c,
      fold_left (fun o key => match o with
                              | Return e' _ => update_state key None e'
                              | Raise _ _ => o
                              end) keys (Return e c0) = Return e' c
      /\ reachable e' /\ cursor_on_board e'.
Proof.
  induction keys as [|key keys IH]; intros e c0 Hr Hc; [by exists e, c0|].
  cbn [fold_left].
  destruct (update_state_run key None e Hr Hc (fun _ => eq_refl)) as (e1 & c1 & E & Hc1).
  rewrite E. apply IH; [|exact Hc1]. by apply (reachable_step e e1 key None c1).
Qed.

(** X7. With the cursor on the board, [update_state] returns for every
    key other than the adviser's and for every answer of the adviser to
    [is_move_correct], and for the adviser's key when there is no
    adviser: the lookups are in range, the birth queue is never empty
    and holds piece letters only, and the two game-over exceptions are
    caught.  The cursor is on the board afterwards. *)
Theorem update_state_returns (key : Key) (sf : option Stockfish) (e : Engine) :
  reachable e -> cursor_on_board e -> (key = KeyStockfish -> sf = None) ->
  exists e' c, update_state key sf e = Return e' c /\ cursor_on_board e'.
Proof. exact (update_state_run key sf e). Qed.

Lemma update_state_returns_witness :
  exists e' c, update_state KeyEnter None (state_of (play open_c2c4 initial_engine))
               = Return e' c /\ cursor_on_board e'.
Proof.
  apply update_state_returns.
  - apply (play_reachable open_c2c4 initial_engine _ true); [constructor|].
    vm_compute. reflexivity.
  - split; split; vm_compute; congruence.
  - discriminate.
Defined.

(** X8. A game played from [Engine()] by keys alone, with no adviser,
    never raises, however long: every key is answered. *)
Theorem play_never_raises (keys : list Key) :
  exists e c, play keys initial_engine = Return e c /\ cursor_on_board e.
Proof.
  destruct (play_returns keys initial_engine false reachable_init)
    as (e & c & E & _ & Hc).
  - split; split; vm_compute; congruence.
  - by exists e, c.
Qed.

(** ** The loop: undo, redo and the cursor keys *)

Lemma py_pop_snoc {A} (l : list A) (x : A) : py_pop (l ++ [x]) = Some (x, l).
Proof. unfold py_pop. by rewrite last_snoc, removelast_last. Qed.

Lemma py_pop_inv {A} (l l' : list A) (x : A) :
  py_pop l = Some (x, l') -> l = l' ++ [x].
Proof.
  destruct (decide (l = [])) as [->|Hne]; [done|].
  destruct (exists_last Hne) as (l0 & y & ->).
  rewrite py_pop_snoc. by intros [= -> ->].
Qed.

Lemma py_getitem_last {A} (l : list A) (x : A) : py_getitem (l ++ [x]) (-1) = Some x.
Proof.
  unfold py_getitem, py_norm. rewrite length_app. cbn [length].
  replace ((0 <=? -1) && (-1 <? Z.of_nat (length l + 1))) with false by reflexivity.
  replace ((- Z.of_nat (length l + 1) <=? -1) && (-1 <? 0)) with true
    by (symmetry; apply andb_true_iff; split; [apply Z.leb_le; lia|reflexivity]).
  replace (Z.to_nat (Z.of_nat (length l + 1) + -1)) with (length l) by lia.
  by rewrite list_lookup_middle.
Qed.

Lemma flip_cursor_y_char (flip : bool) (k : Curses) (ch : Z) :
  key_codes k -> ch <= 255 -> flip_cursor_y flip ch (KEY_UP k) (KEY_DOWN k) = ch.
Proof.
  intros (H1 & H2 & _) Hch. unfold flip_cursor_y. destruct flip; [|done].
  destruct (Z.eqb_spec ch (KEY_UP k)); [lia|].
  destruct (Z.eqb_spec ch (KEY_DOWN k)); [lia|done].
Qed.

(** X9. Undo, then redo: with two saved states or more, [u] moves the
    last saved state to the redo list and makes the one before it the
    engine; [r] then puts both lists back as they were and makes the
    last saved state the engine. *)
Theorem undo_then_redo (flip : bool) (k : Curses) (sf : option Stockfish)
    (l : Loop) (s : list Engine) (a b : Engine) :
  key_codes k -> engine_state l = s ++ [a; b] ->
  let l1 := mkLoop a (s ++ [a]) (engine_state_redo l ++ [b]) in
  main_loop_step flip k sf (ord "u") l = Return l1 None
  /\ main_loop_step flip k sf (ord "r") l1
     = Return (mkLoop b (engine_state l) (engine_state_redo l)) None.
Proof.
  intros Hk Hs l1. pose proof Hk as (H1 & H2 & H3 & H4 & H5 & _).
  unfold main_loop_step, dispatch.
  rewrite !flip_cursor_y_char by (exact Hk || (vm_compute; congruence)).
  change (ord "u") with 117. change (ord "r") with 114.
  change (ord newline) with 10. change (ord " ") with 32. change (ord "s") with 115.
  change (ord "q") with 113.
  destruct (Z.eqb_spec 117 (KEY_UP k)); [lia|].
  destruct (Z.eqb_spec 117 (KEY_DOWN k)); [lia|].
  destruct (Z.eqb_spec 117 (KEY_LEFT k)); [lia|].
  destruct (Z.eqb_spec 117 (KEY_RIGHT k)); [lia|].
  destruct (Z.eqb_spec 114 (KEY_UP k)); [lia|].
  destruct (Z.eqb_spec 114 (KEY_DOWN k)); [lia|].
  destruct (Z.eqb_spec 114 (KEY_LEFT k)); [lia|].
  destruct (Z.eqb_spec 114 (KEY_RIGHT k)); [lia|].
  destruct (Z.eqb_spec 114 (KEY_BACKSPACE k)); [lia|].
  cbn [orb andb Z.eqb Pos.eqb]. rewrite orb_true_r.
  split.
  - rewrite Hs.
    replace (2 <=? Z.of_nat (length (s ++ [a; b]))) with true
      by (symmetry; apply Z.leb_le; rewrite length_app; simpl; lia).
    change (s ++ [a; b]) with (s ++ [a] ++ [b]). rewrite app_assoc.
    rewrite py_pop_snoc. by rewrite py_getitem_last.
  - cbn [engine_state_redo engine_state l1].
    rewrite py_pop_snoc. rewrite Hs.
    change (s ++ [a; b]) with (s ++ [a] ++ [b]). rewrite app_assoc.
    by rewrite py_getitem_last.
Qed.

Lemma ncurses_codes : key_codes ncurses.
Proof.
  unfold key_codes. cbn. repeat split; try lia.
  apply (bool_decide_unpack _). vm_compute. reflexivity.
Qed.

Lemma undo_then_redo_witness :
  let e1 := state_of (play open_c2c4 initial_engine) in
  main_loop_step false ncurses None (ord "u") (mkLoop e1 [initial_engine; e1] [])
  = Return (mkLoop initial_engine [initial_engine] [e1]) None
  /\ main_loop_step false ncurses None (ord "r")
       (mkLoop initial_engine [initial_engine] [e1])
     = Return (mkLoop e1 [initial_engine; e1] []) None.
Proof.
  intros e1.
  exact (undo_then_redo false ncurses None (mkLoop e1 [initial_engine; e1] [])
           [] initial_engine e1 ncurses_codes eq_refl).
Defined.

Lemma update_branch_history (sf : option Stockfish) (key : Key) (l l' : Loop)
    (r : option Z) :
  history_ok l ->
  match update_state key sf (engine l) with
  | Return e changed =>
      if changed then Return (mkLoop e (engine_state l ++ [e]) []) None
      else Return (mkLoop e (engine_state l) (engine_state_redo l)) None
  | Raise e x => Raise (mkLoop e (engine_state l) (engine_state_redo l)) x
  end = Return l' r ->
  history_ok l'.
Proof.
  intros (He & Hne & Hs & Hr) E.
  destruct (update_state key sf (engine l)) as [e c|] eqn:Eu; [|done].
  assert (reachable e) by by apply (reachable_step (engine l) e key sf c).
  destruct c; injection E as <- _.
  - split; [done|]. split; [by destruct (engine_state l)|].
    split; [|constructor]. apply Forall_app. split; [done|by constructor].
  - done.
Qed.

Lemma dispatch_history (k : Curses) (sf : option Stockfish) (ch : Z)
    (l l' : Loop) (r : option Z) :
  history_ok l -> dispatch k sf ch l = Return l' r -> history_ok l'.
Proof.
  intros Hl E. unfold dispatch in E. cbv zeta in E.
  repeat (match type of E with
          | (if ?c then _ else _) = _ => destruct c
          end;
          try match type of E with
              | context [update_state ?key sf _] =>
                  exact (update_branch_history sf key l l' r Hl E)
              end).
  - destruct Hl as (He & Hne & Hs & Hr).
    destruct (py_pop (engine_state l)) as [[x states]|] eqn:Hpop; [|done].
    apply py_pop_inv in Hpop.
    destruct (py_getitem states (-1)) as [e|] eqn:Hget; [|done].
    injection E as <- _. cbn.
    rewrite Hpop in Hs. apply Forall_app in Hs as [Hs Hx].
    assert (e ∈ states).
    { unfold py_getitem in Hget. destruct (py_norm _ _); [|done].
      by apply list_elem_of_lookup_2 in Hget. }
    split; [by apply (proj1 (Forall_forall _ _) Hs)|].
    split; [by destruct states; [apply elem_of_nil in H|]|].
    split; [done|]. apply Forall_app. by split.
  - by injection E as <- _.
  - destruct Hl as (He & Hne & Hs & Hr).
    destruct (py_pop (engine_state_redo l)) as [[x redo]|] eqn:Hpop;
      [|by injection E as <- _].
    apply py_pop_inv in Hpop.
    rewrite py_getitem_last in E. injection E as <- _. cbn.
    rewrite Hpop in Hr. apply Forall_app in Hr as [Hr Hx].
    apply Forall_inv in Hx.
    split; [exact Hx|]. split; [by destruct (engine_state l)|].
    split; [|done]. apply Forall_app. split; [done|by constructor].
  - by injection E as <- _.
Qed.


(** X10. The loop holds states of the game only, and always one saved
    state at least: whatever the key, the adviser and the flip option,
    after an iteration the engine, every saved state and every state of
    the redo list is a state [update_state] can reach from [Engine()],
    so what holds of those holds after any undo and redo. *)
Theorem main_loop_step_history (flip : bool) (k : Curses)
    (sf : option Stockfish) (ch : Z) (l l' : Loop) (r : option Z) :
  history_ok l -> main_loop_step flip k sf ch l = Return l' r -> history_ok l'.
Proof. intros Hl E. exact (dispatch_history k sf _ l l' r Hl E). Qed.

Lemma main_loop_step_history_witness :
  history_ok (state_of (main_loop_step false ncurses None (ord "u")
                (state_of (main_loop_step false ncurses None 10 start_loop)))).
Proof.
  assert (H0 : history_ok start_loop).
  { split; [constructor|]. split; [done|]. split; repeat constructor. }
  assert (H1 : history_ok (state_of (main_loop_step false ncurses None 10 start_loop))).
  { eapply (main_loop_step_history false ncurses None 10 start_loop _ None H0).
    vm_compute. reflexivity. }
  eapply (main_loop_step_history false ncurses None (ord "u") _ _ None H1).
  vm_compute. reflexivity.
Defined.

Lemma update_branch_ok (key : Key) (l : Loop) :
  loop_ok l ->
  exists l' r,
    match update_state key None (engine l) with
    | Return e changed =>
        if changed then Return (mkLoop e (engine_state l ++ [e]) []) (@None Z)
        else Return (mkLoop e (engine_state l) (engine_state_redo l)) None
    | Raise e x => Raise (mkLoop e (engine_state l) (engine_state_redo l)) x
    end = Return l' r /\ loop_ok l'.
Proof.
  intros ([Hr Hc] & Hne & Hs & Hredo).
  destruct (update_state_run key None (engine l) Hr Hc (fun _ => eq_refl))
    as (e & c & E & Hc').
  rewrite E.
  assert (in_play e) by (split; [by apply (reachable_step (engine l) e key None c)|done]).
  destruct c; do 2 eexists; (split; [reflexivity|]).
  - split; [done|]. split; [by destruct (engine_state l)|].
    split; [|constructor]. apply Forall_app. split; [done|by constructor].
  - done.
Qed.

(** X11. Without an adviser, and without a save file loaded, an
    iteration of the loop never raises, whatever the key: the engine
    answers it, undo is refused unless two states are saved, redo
    unless one is set aside, and [engine_state[-1]] always exists. *)
Theorem main_loop_step_returns (flip : bool) (k : Curses) (ch : Z) (l : Loop) :
  loop_ok l ->
  exists l' r, main_loop_step flip k None ch l = Return l' r /\ loop_ok l'.
Proof.
  intros Hl. unfold main_loop_step, dispatch. cbv zeta.
  repeat (match goal with
          | |- exists l' r, (if ?c then _ else _) = _ /\ _ => destruct c eqn:?
          end;
          try apply (update_branch_ok _ l Hl)).
  - destruct Hl as (He & Hne & Hs & Hr).
    destruct (exists_last Hne) as (s1 & b & Hs1). rewrite Hs1, py_pop_snoc.
    destruct (decide (s1 = [])) as [->|Hne1].
    { match goal with
      | H : (2 <=? _) = true |- _ => apply Z.leb_le in H; rewrite Hs1 in H; cbn in H; lia
      end. }
    destruct (exists_last Hne1) as (s0 & a & ->). rewrite py_getitem_last.
    do 2 eexists. split; [reflexivity|].
    rewrite Hs1 in Hs. apply Forall_app in Hs as [Hs Hb].
    apply Forall_app in Hs as Hs'. destruct Hs' as [_ Ha]. apply Forall_inv in Ha.
    split; [exact Ha|]. split; [by destruct s0|].
    split; [exact Hs|]. apply Forall_app. by split.
  - by exists l, None.
  - destruct Hl as (He & Hne & Hs & Hr).
    destruct (py_pop (engine_state_redo l)) as [[x redo]|] eqn:Hpop;
      [|by exists l, None].
    apply py_pop_inv in Hpop. rewrite py_getitem_last.
    do 2 eexists. split; [reflexivity|].
    rewrite Hpop in Hr. apply Forall_app in Hr as [Hr Hx].
    apply Forall_inv in Hx as Hx'.
    split; [exact Hx'|]. split; [by destruct (engine_state l)|].
    split; [|done]. apply Forall_app. by split.
  - by exists l, (Some 0).
Qed.

Lemma main_loop_step_returns_witness :
  exists l' r, main_loop_step false ncurses None 10 start_loop = Return l' r
               /\ loop_ok l'.
Proof.
  apply main_loop_step_returns.
  assert (H : in_play initial_engine).
  { split; [apply reachable_init|]. split; split; vm_compute; congruence. }
  split; [exact H|]. split; [discriminate|].
  split; [apply Forall_cons; split; [exact H|apply Forall_nil_2]|apply Forall_nil_2].
Defined.

(** X12. The arrow keys move the cursor on the screen the way they
    point, with the board flipped or not: [flip_cursor_y] exchanges up
    and down exactly when [get_cursor] counts the rows from the other
    end.  The up key takes the cursor one square (four lines) up, from the top
    row to the bottom row; the down key one square down, from the
    bottom row to the top row; the column stays. *)
Theorem arrow_keys_on_screen (flip : bool) (k : Curses) (sf : option Stockfish)
    (l : Loop) :
  key_codes k -> cursor_on_board (engine l) ->
  let y := fst (get_cursor flip (engine l)) in
  let x := snd (get_cursor flip (engine l)) in
  (exists l', main_loop_step flip k sf (KEY_UP k) l = Return l' None
     /\ get_cursor flip (engine l') = (if y =? 7 then 35 else y - 4, x))
  /\ (exists l', main_loop_step flip k sf (KEY_DOWN k) l = Return l' None
     /\ get_cursor flip (engine l') = (if y =? 35 then 7 else y + 4, x)).
Proof.
  intros (H1 & H2 & H3 & H4 & H5 & Hnd) [Hr Hc] y x.
  assert (Hud : KEY_UP k <> KEY_DOWN k).
  { apply NoDup_cons in Hnd as [Hnd _]. intros E. apply Hnd. rewrite E. apply list_elem_of_here. }
  change (ord newline) with 10 in *.
  unfold main_loop_step, dispatch. cbv zeta.
  change (ord newline) with 10. change (ord " ") with 32. change (ord "s") with 115.
  unfold flip_cursor_y. subst x y. unfold get_cursor. cbn [fst snd].
  destruct flip; rewrite ?Z.eqb_refl;
    repeat (match goal with
            | |- context [Z.eqb ?a ?b] => destruct (Z.eqb_spec a b); try lia
            end);
    cbn [orb];
    (split; eexists; (split; [reflexivity|]);
     cbn [engine cursor_row cursor_col with_cursor];
     f_equal; Z.div_mod_to_equations; lia).
Qed.

Lemma arrow_keys_on_screen_witness :
  (exists l', main_loop_step true ncurses None 259 start_loop = Return l' None
     /\ get_cursor true (engine l') = (31, 4))
  /\ (exists l', main_loop_step true ncurses None 258 start_loop = Return l' None
     /\ get_cursor true (engine l') = (7, 4)).
Proof.
  destruct (arrow_keys_on_screen true ncurses None start_loop ncurses_codes)
    as [(l1 & E1 & G1) (l2 & E2 & G2)].
  - split; split; vm_compute; congruence.
  - split; [exists l1|exists l2]; (split; [assumption|]).
    + rewrite G1. vm_compute. reflexivity.
    + rewrite G2. vm_compute. reflexivity.
Defined.

(** * The network game *)

























(** ** The adviser *)

Lemma move_is_valid_veto (sel dest : Ref) (sf : Stockfish) (e : Engine) :
  move_is_valid sel dest (Some sf) e = move_is_valid sel dest None e
  \/ (move_is_valid sel dest (Some sf) e = Return e false
      /\ is_move_correct sf = Some false).
Proof.
  unfold move_is_valid, bind.
  destruct (on_board (deref sel) e) as [e1 s|] eqn:E1; [|by left].
  apply on_board_readonly in E1 as [-> _]; [|apply readonly_deref].
  destruct (on_board (deref dest) e) as [e1 d|] eqn:E2; [|by left].
  apply on_board_readonly in E2 as [-> _]; [|apply readonly_deref].
  destruct (py_getitem col_labels (col s)); [|by left].
  destruct (py_getitem col_labels (col d)); [|by left].
  destruct (piece_move_is_valid s d); [|by left].
  destruct (is_move_correct sf) as [[]|]; [by left|by right|by left].
Qed.

(** X13. The adviser can refuse a move and nothing else: for every key
    but its own, [update_state] with an adviser does what it does
    without one, or it leaves the engine as it is and returns [False],
    and then [is_move_correct] has answered [False].  An adviser that
    raises is no adviser. *)
Theorem adviser_only_vetoes (key : Key) (sf : Stockfish) (e : Engine) :
  key <> KeyStockfish ->
  update_state key (Some sf) e = update_state key None e
  \/ (update_state key (Some sf) e = Return e false
      /\ is_move_correct sf = Some false).
Proof.
  intros Hkey. destruct key; try by left. clear Hkey.
  unfold update_state, bind, ret, get.
  destruct (selected_piece e) as [sel|]; [|by left].
  destruct (on_board (get_piece (cursor_row e) (cursor_col e)) e)
    as [e1 dest|] eqn:E1; [|by left].
  apply on_board_readonly in E1 as [-> _]; [|apply readonly_get_piece].
  destruct (move_is_valid_veto sel dest sf e) as [->|[-> H]]; [by left|by right].
Qed.

Lemma adviser_only_vetoes_witness :
  let sf := {| get_best_move := None; is_move_correct := Some false |} in
  let e := state_of (play (removelast open_c2c4) initial_engine) in
  update_state KeyEnter (Some sf) e = update_state KeyEnter None e
  \/ (update_state KeyEnter (Some sf) e = Return e false
      /\ is_move_correct sf = Some false).
Proof.
  intros sf e. apply adviser_only_vetoes. discriminate.
Defined.




(** ** Objects keep their kind and side *)

Lemma extends_refl (b : Board) : extends b b.
Proof. exists []. by rewrite app_nil_r. Qed.

Lemma extends_same (b b' : Board) : store b' = store b -> extends b b'.
Proof. intros H. exists []. unfold kinds_sides. by rewrite H, app_nil_r. Qed.

Lemma extends_trans (b1 b2 b3 : Board) :
  extends b1 b2 -> extends b2 b3 -> extends b1 b3.
Proof.
  intros (x1 & H1 & F1) (x2 & H2 & F2). exists (x1 ++ x2).
  split; [by rewrite H2, H1, app_assoc|by apply Forall_app].
Qed.

Lemma grows_bind {A B} (m : M Board A) (k : A -> M Board B) (b : Board) :
  grows m b -> (forall b' a, m b = Return b' a -> grows (k a) b') ->
  grows (bind m k) b.
Proof.
  unfold grows, bind. intros Hm Hk.
  destruct (m b) as [b' a|b' x] eqn:E; [|exact Hm].
  exact (extends_trans _ _ _ Hm (Hk b' a eq_refl)).
Qed.

Lemma grows_readonly {A} (m : M Board A) (b : Board) : readonly m -> grows m b.
Proof. intros H. unfold grows. rewrite (H b). apply extends_refl. Qed.

Lemma grows_alloc (p : Piece) (b : Board) :
  sided (kind p, side p) -> grows (alloc p) b.
Proof.
  intros Hp. exists [(kind p, side p)]. split; [|by apply Forall_singleton].
  unfold kinds_sides. cbn. by rewrite fmap_app.
Qed.

Lemma grows_set_square (r c : Z) (x : Ref) (b : Board) : grows (set_square r c x) b.
Proof.
  apply extends_same. unfold set_square.
  destruct (py_getitem (board b) r) as [l|]; [|done].
  destruct (py_setitem l c x); [|done].
  by destruct (py_norm (length (board b)) r).
Qed.

Lemma grows_assign (x : Ref) (p p' : Piece) (b : Board) :
  store b !! x = Some p -> kind p' = kind p -> side p' = side p ->
  grows (assign x p') b.
Proof.
  intros Hx Hk Hs. exists []. rewrite app_nil_r. split; [|constructor].
  unfold kinds_sides. cbn. rewrite list_fmap_insert, Hk, Hs.
  apply list_insert_id. by rewrite list_lookup_fmap, Hx.
Qed.

Lemma deref_return (x : Ref) (b b' : Board) (p : Piece) :
  deref x b = Return b' p -> b' = b /\ store b !! x = Some p.
Proof. unfold deref. destruct (store b !! x); [|done]. by intros [= -> ->]. Qed.

Lemma grows_set_position_at (r c : Z) (b : Board) : grows (set_position_at r c) b.
Proof.
  unfold set_position_at.
  apply grows_bind; [apply grows_readonly, readonly_get_piece|]. intros b1 x E1.
  apply grows_bind; [apply grows_readonly, readonly_deref|]. intros b2 p E2.
  apply deref_return in E2 as [-> Hp]. by apply (grows_assign x p).
Qed.

Lemma readonly_perish (p : Piece) (conway : bool) : readonly (@perish Board p conway).
Proof. intros b. unfold perish. by destruct (kind p). Qed.

Lemma kind_of_letter_sided (letter : string) (k : Kind) (s : Side) :
  kind_of_letter letter = Some k -> s <> NoSide -> sided (k, s).
Proof.
  unfold kind_of_letter. intros Hk Hs.
  repeat (case_match; [injection Hk as <-; split; [discriminate|done]|]).
  discriminate.
Qed.

Lemma grows_set_new_piece (r c : Z) (letter : string) (s : Side) (b : Board) :
  s <> NoSide -> grows (set_new_piece r c letter s) b.
Proof.
  intros Hs. unfold set_new_piece.
  destruct (kind_of_letter letter) as [k|] eqn:Hk; [|apply extends_refl].
  apply grows_bind; [apply grows_alloc, (kind_of_letter_sided letter k s Hk Hs)|].
  intros b1 x _. apply grows_bind; [apply grows_set_square|].
  intros b2 u _. apply grows_set_position_at.
Qed.

Lemma sided_Empty : sided (kind Empty, side Empty).
Proof. done. Qed.

Lemma grows_kill_piece (piece : Ref) (turn : Side) (b : Board) :
  grows (kill_piece piece turn) b.
Proof.
  unfold kill_piece.
  apply grows_bind; [apply grows_readonly, readonly_deref|]. intros b1 p _.
  destruct (side_eqb (side p) turn); [|apply extends_refl].
  apply grows_bind; [apply grows_readonly, readonly_get_piece|]. intros b2 x _.
  apply grows_bind; [apply grows_readonly, readonly_deref|]. intros b3 o _.
  apply grows_bind; [apply grows_readonly, readonly_perish|]. intros b4 u _.
  apply grows_bind; [apply grows_alloc, sided_Empty|]. intros b5 y _.
  apply grows_bind; [apply grows_set_square|]. intros b6 u' _.
  apply grows_set_position_at.
Qed.

Lemma grows_move_piece (source dest : Ref) (b : Board) :
  grows (move_piece source dest) b.
Proof.
  unfold move_piece.
  apply grows_bind; [apply grows_readonly, readonly_deref|]. intros b1 s _.
  apply grows_bind; [apply grows_readonly, readonly_deref|]. intros b2 d _.
  destruct (negb (piece_move_is_valid s d)); [apply extends_refl|].
  apply grows_bind; [apply grows_readonly, readonly_get_piece|]. intros b3 x _.
  apply grows_bind; [apply grows_readonly, readonly_deref|]. intros b4 o _.
  apply grows_bind; [apply grows_readonly, readonly_perish|]. intros b5 u _.
  apply grows_bind; [apply grows_set_square|]. intros b6 u1 _.
  apply grows_bind; [apply grows_alloc, sided_Empty|]. intros b7 y _.
  apply grows_bind; [apply grows_set_square|]. intros b8 u2 _.
  apply grows_bind; [apply grows_set_position_at|]. intros b9 u3 _.
  apply grows_bind; [apply grows_readonly, readonly_deref|]. intros b10 d' _.
  apply grows_bind; [apply grows_readonly, readonly_deref|]. intros b11 s' E.
  apply deref_return in E as [-> Hs'].
  apply grows_bind; [by apply (grows_assign source s')|]. intros b12 u4 _.
  apply extends_refl.
Qed.

Lemma grows_tick_piece (t : Side) (f : bool) (piece : Ref) (b : Board) :
  grows (tick_piece t f piece) b.
Proof.
  unfold tick_piece.
  apply grows_bind; [apply grows_readonly, readonly_get_surrounding_pieces|].
  intros b1 around _.
  apply grows_bind; [apply grows_readonly, readonly_deref|]. intros b2 p E.
  apply deref_return in E as [-> Hp].
  apply grows_bind; [apply grows_readonly, readonly_map_m, readonly_deref|].
  intros b3 sp E.
  apply readonly_return in E; [|apply readonly_map_m, readonly_deref]. subst b3.
  apply (grows_assign piece p); [done| |];
    pose proof (layout_tick p sp t f) as H; unfold layout in H; congruence.
Qed.

Lemma grows_for {A} (l : list A) (body : A -> M Board unit) :
  (forall x b, grows (body x) b) -> forall b, grows (for_ l body) b.
Proof.
  intros Hbody. induction l as [|x l IH]; intros b; [apply extends_refl|].
  cbn [for_]. apply grows_bind; [apply Hbody|]. intros b' u _. apply IH.
Qed.

Lemma grows_tick_all (t : Side) (f : bool) (b : Board) : grows (tick_all t f) b.
Proof.
  unfold tick_all. apply grows_bind; [by apply grows_readonly|].
  intros b' pieces _. apply grows_for. intros x b0. apply grows_tick_piece.
Qed.

Lemma engine_grows_bind {A B} (m : M Engine A) (k : A -> M Engine B) (e : Engine) :
  engine_grows m e -> (forall e' a, m e = Return e' a -> engine_grows (k a) e') ->
  engine_grows (bind m k) e.
Proof.
  unfold engine_grows, bind. intros Hm Hk.
  destruct (m e) as [e' a|e' x] eqn:E; [|exact Hm].
  exact (extends_trans _ _ _ Hm (Hk e' a eq_refl)).
Qed.

Lemma engine_grows_keep {A} (m : M Engine A) (e : Engine) :
  engine_board (state_of (m e)) = engine_board e -> engine_grows m e.
Proof. intros H. unfold engine_grows. rewrite H. apply extends_refl. Qed.

Lemma engine_grows_on_board {A} (m : M Board A) (e : Engine) :
  grows m (engine_board e) -> engine_grows (on_board m) e.
Proof.
  unfold grows, engine_grows, on_board. by destruct (m (engine_board e)).
Qed.

Lemma engine_grows_look {A} (m : M Board A) (e : Engine) :
  readonly m -> engine_grows (on_board m) e.
Proof. intros H. by apply engine_grows_on_board, grows_readonly. Qed.

Lemma engine_grows_try_except {A} (m : M Engine A) (h : string -> M Engine A)
    (e : Engine) :
  engine_grows m e -> (forall e' msg, engine_grows (h msg) e') ->
  engine_grows (try_except m h) e.
Proof.
  unfold engine_grows, try_except. intros Hm Hh.
  destruct (m e) as [e' a|e' x]; [exact Hm|].
  destruct (str_exn x) as [msg|]; [|exact Hm].
  exact (extends_trans _ _ _ Hm (Hh e' msg)).
Qed.

Lemma engine_grows_for {A} (l : list A) (body : A -> M Engine unit) :
  (forall x e, engine_grows (body x) e) -> forall e, engine_grows (for_ l body) e.
Proof.
  intros Hbody. induction l as [|x l IH]; intros e; [apply extends_refl|].
  cbn [for_]. apply engine_grows_bind; [apply Hbody|]. intros e' u _. apply IH.
Qed.

Lemma engine_grows_move_is_valid (sel dest : Ref) (sf : option Stockfish) (e : Engine) :
  engine_grows (move_is_valid sel dest sf) e.
Proof.
  unfold move_is_valid.
  apply engine_grows_bind; [apply engine_grows_look, readonly_deref|]. intros e1 s _.
  apply engine_grows_bind; [apply engine_grows_look, readonly_deref|]. intros e2 d _.
  destruct (py_getitem col_labels (col s)); [|apply extends_refl].
  destruct (py_getitem col_labels (col d)); [|apply extends_refl].
  destruct (piece_move_is_valid s d); [|apply extends_refl].
  destruct sf as [sf|]; [destruct (is_move_correct sf) as [[]|]|];
    apply extends_refl.
Qed.

Lemma stockfish_branch_board (sf : option Stockfish) (e : Engine) :
  engine_board (state_of (stockfish_branch sf e)) = engine_board e.
Proof.
  unfold stockfish_branch. destruct sf as [sf|]; [|done].
  destruct (get_best_move sf) as [[move|]|]; [|done..].
  destruct (String.get 1 move); [|done]. destruct (String.get 0 move); [|done].
  destruct (int_char _); [|done].
  destruct (on_board _ e) as [e1 x|e1 x] eqn:E; [|done].
  apply on_board_readonly in E as [-> _]; [|apply readonly_get_piece].
  destruct (String.get 3 move); [|done]. destruct (String.get 2 move); [|done].
  by destruct (int_char _).
Qed.

Lemma engine_grows_birth (s : Side) (i j : Z) (e : Engine) :
  s <> NoSide -> engine_grows (birth s i j) e.
Proof.
  intros Hs. unfold birth.
  apply engine_grows_bind; [apply engine_grows_look, readonly_get_piece|].
  intros e1 x _.
  apply engine_grows_bind; [apply engine_grows_look, readonly_deref|].
  intros e2 p _.
  destruct (side_eqb (side p) NoSide); [|apply extends_refl].
  destruct (birth_counter s p =? 3); [|apply extends_refl].
  apply engine_grows_bind; [apply extends_refl|]. intros e3 e0 [= <- <-].
  destruct (queue_of s e2) as [|next rest]; [apply extends_refl|].
  apply engine_grows_bind; [by apply engine_grows_keep; destruct s|].
  intros e4 u _.
  apply engine_grows_bind;
    [by apply engine_grows_on_board, grows_set_new_piece|].
  intros e5 u' _. apply engine_grows_keep. by destruct s.
Qed.

Lemma engine_grows_birth_pass (e : Engine) : engine_grows birth_pass e.
Proof.
  unfold birth_pass. apply engine_grows_bind; [apply extends_refl|].
  intros e1 e0 [= <- <-].
  destruct (current_turn e); [| |apply extends_refl];
    apply engine_grows_for; intros i e1; apply engine_grows_for; intros j e2;
    by apply engine_grows_birth.
Qed.

Lemma engine_grows_death_loop (pieces : list Ref) :
  forall e, engine_grows (death_loop pieces) e.
Proof.
  induction pieces as [|piece rest IH]; intros e; [apply extends_refl|].
  cbn [death_loop].
  apply engine_grows_bind; [apply engine_grows_look, readonly_deref|].
  intros e1 p _.
  destruct (death_counter p =? 4); [|apply IH].
  apply engine_grows_bind; [apply extends_refl|]. intros e2 e0 [= <- <-].
  apply engine_grows_bind.
  - apply engine_grows_try_except.
    + apply engine_grows_bind; [apply engine_grows_on_board, grows_kill_piece|].
      intros e3 u _. apply extends_refl.
    + intros e3 msg. apply extends_refl.
  - intros e3 alive _. destruct alive; [apply IH|apply extends_refl].
Qed.

Lemma engine_grows_death_pass (e : Engine) : engine_grows death_pass e.
Proof.
  unfold death_pass.
  apply engine_grows_bind; [by apply engine_grows_look|].
  intros e1 pieces _. apply engine_grows_death_loop.
Qed.

Lemma engine_grows_update_state (key : Key) (sf : option Stockfish) (e : Engine) :
  engine_grows (update_state key sf) e.
Proof.
  unfold update_state. apply engine_grows_bind.
  { destruct key; try apply extends_refl.
    apply engine_grows_keep, stockfish_branch_board. }
  intros e1 key1 _. destruct key1; try apply extends_refl.
  apply engine_grows_bind; [apply extends_refl|]. intros e2 e0 [= <- <-].
  destruct (selected_piece e1) as [sel|].
  - apply engine_grows_bind; [apply engine_grows_look, readonly_get_piece|].
    intros e2 dest _.
    apply engine_grows_bind; [apply engine_grows_move_is_valid|].
    intros e3 valid _. destruct valid; [|apply extends_refl].
    apply engine_grows_bind.
    { apply engine_grows_try_except.
      - apply engine_grows_bind; [|intros e4 u _; apply extends_refl].
        apply engine_grows_on_board.
        apply grows_bind; [apply grows_readonly, readonly_get_piece|].
        intros b1 x _. apply grows_move_piece.
      - intros e4 msg. apply extends_refl. }
    intros e4 moved _. destruct moved; [|apply extends_refl].
    apply engine_grows_bind; [apply extends_refl|]. intros e5 u5 _.
    apply engine_grows_bind; [apply extends_refl|]. intros e6 u6 _.
    apply engine_grows_bind; [apply extends_refl|]. intros e7 e0 [= <- <-].
    apply engine_grows_bind; [apply engine_grows_on_board, grows_tick_all|].
    intros e7 u7 _.
    apply engine_grows_bind; [apply engine_grows_birth_pass|]. intros e8 u8 _.
    apply engine_grows_bind; [apply engine_grows_death_pass|]. intros e9 survived _.
    destruct survived; [|apply extends_refl].
    apply engine_grows_bind; [apply engine_grows_on_board, grows_tick_all|].
    intros e10 u10 _. apply extends_refl.
  - apply engine_grows_bind; [apply engine_grows_look, readonly_get_piece|].
    intros e2 x _.
    apply engine_grows_bind; [apply engine_grows_look, readonly_deref|].
    intros e3 p _.
    destruct (side_eqb (side p) (current_turn e1)); [|apply extends_refl].
    apply engine_grows_bind; [apply engine_grows_look, readonly_get_piece|].
    intros e4 y _. apply extends_refl.
Qed.

Lemma extends_lookup (b b' : Board) (x : Ref) (p : Piece) :
  extends b b' -> store b !! x = Some p ->
  exists p', store b' !! x = Some p' /\ kind p' = kind p /\ side p' = side p.
Proof.
  intros (extra & H & _) Hp.
  assert (Hx : kinds_sides b' !! x = Some (kind p, side p)).
  { rewrite H. apply lookup_app_l_Some. unfold kinds_sides.
    by rewrite list_lookup_fmap, Hp. }
  unfold kinds_sides in Hx. rewrite list_lookup_fmap in Hx.
  destruct (store b' !! x) as [p'|]; [|done].
  injection Hx as Hk Hs. by exists p'.
Qed.

Lemma sidedb_sided (x : Kind * Side) : sidedb x = true -> sided x.
Proof.
  unfold sidedb, sided. intros H. apply Bool.eqb_prop in H.
  rewrite <- (bool_decide_spec (fst x = EmptySq)), <- (bool_decide_spec (snd x = NoSide)).
  by rewrite H.
Qed.

Lemma reachable_sided (e : Engine) :
  reachable e -> Forall sided (kinds_sides (engine_board e)).
Proof.
  induction 1 as [|e e' key sf c Hr IH E].
  - apply Forall_forall. intros x Hx. apply sidedb_sided.
    assert (H : forallb sidedb (kinds_sides (engine_board initial_engine)) = true)
      by (vm_compute; reflexivity).
    rewrite forallb_forall in H. apply H.
    apply (proj1 (list_elem_of_In _ _)). exact Hx.
  - pose proof (engine_grows_update_state key sf e) as (extra & H & Hx).
    rewrite E in H. cbn [state_of] in H. rewrite H. by apply Forall_app.
Qed.

(** X14. No object ever changes its kind or its side: whatever the key
    and the adviser, and whether [update_state] returns or raises, the
    objects the board had are there afterwards with the kind and the
    side they had.  A pawn is never promoted, a piece never changes
    colour, and an [Empty] is never turned into a piece: births, deaths
    and moves put other objects on the squares. *)
Theorem pieces_keep_kind_and_side (key : Key) (sf : option Stockfish)
    (e : Engine) (x : Ref) (p : Piece) :
  store (engine_board e) !! x = Some p ->
  exists p', store (engine_board (state_of (update_state key sf e))) !! x = Some p'
             /\ kind p' = kind p /\ side p' = side p.
Proof.
  intros Hp. exact (extends_lookup _ _ x p (engine_grows_update_state key sf e) Hp).
Qed.

Lemma pieces_keep_kind_and_side_witness :
  let e := state_of (play (removelast open_c2c4) initial_engine) in
  exists p', store (engine_board (state_of (update_state KeyEnter None e))) !! 74%nat
             = Some p'
             /\ kind p' = Pawn /\ side p' = White.
Proof.
  intros e.
  destruct (pieces_keep_kind_and_side KeyEnter None e 74
              (default Empty (store (engine_board e) !! 74%nat)))
    as (p' & H1 & H2 & H3).
  - vm_compute. reflexivity.
  - exists p'. split; [exact H1|]. split; [rewrite H2|rewrite H3]; vm_compute; reflexivity.
Defined.

(** X15. In every state of a game an object is an [Empty] exactly when
    its side is ["empty"]: every piece with a kind is white or black. *)
Theorem kind_iff_side (e : Engine) (x : Ref) (p : Piece) :
  reachable e -> store (engine_board e) !! x = Some p ->
  kind p = EmptySq <-> side p = NoSide.
Proof.
  intros Hr Hp. pose proof (reachable_sided e Hr) as H.
  rewrite Forall_forall in H. apply (H (kind p, side p)).
  apply list_elem_of_lookup. exists x. unfold kinds_sides.
  by rewrite list_lookup_fmap, Hp.
Qed.

Lemma kind_iff_side_witness :
  let e := state_of (play long_game initial_engine) in
  let p := default Empty (store (engine_board e) !! 100%nat) in
  kind p = EmptySq <-> side p = NoSide.
Proof.
  intros e p. apply (kind_iff_side e 100).
  - apply (play_reachable long_game initial_engine _ true); [apply reachable_init|].
    vm_compute. reflexivity.
  - vm_compute. reflexivity.
Defined.

(** ** The death pass *)





